(** * Terminal session relay of the dashboard backend

    A shallow embedding of [src/app/backend/handler/terminal.go]: the
    [TerminalMessage] protocol and its JSON codec, the [TerminalSession]
    adapter ([Read], [Write], [Toast], [Next], [Close]), the session binder
    [handleTerminalSession], the process launcher [startProcess] and the
    lifecycle coordinator [WaitForTerminal].

    Go strings are byte sequences: they are [string] here (a list of 8-bit
    [ascii]).  [uint16] and [uint32] values are [N], with the range written
    out where it matters. *)

From Stdlib Require Import NArith Lia Ascii String DecimalString DecimalN DecimalFacts.
From stdpp Require Import gmap strings list.

Local Open Scope string_scope.
Local Open Scope N_scope.

(** ** The wire message (terminal.go, lines 59-62) *)

Record TerminalMessage := mkTerminalMessage {
  Op : string;
  Data : string;
  SessionID : string;
  Rows : N;
  Cols : N
}.

(** The zero value of a [TerminalMessage], as [var msg TerminalMessage]
    gives it. *)
Definition zeroMessage : TerminalMessage := mkTerminalMessage "" "" "" 0 0.

Definition uint16 (n : N) : Prop := n < 65536.

(** A Go [error] value, kept as the text its [Error()] method returns. *)
Record error := errorString { Error : string }.

(** ** encoding/json, as far as [TerminalMessage] uses it

    [Marshal] and [Unmarshal] are the library calls of lines 82, 100, 117
    and 157.  The model follows the library for a struct with three string
    fields and two uint16 fields and no field tags: strings are written
    with the HTML-safe escapes and coerced to valid UTF-8, the decoder
    checks the whole input against the JSON grammar first, matches keys
    exactly and then by case folding, skips unknown keys, keeps the first
    type error and goes on decoding. *)
Module json.

Definition code (c : ascii) : N := N_of_ascii c.
Definition chr (n : N) : ascii := ascii_of_N n.

Definition dquote : ascii := chr 34.
Definition backslash : ascii := chr 92.

(** *** UTF-8 (unicode/utf8: the accept ranges of [DecodeRune]) *)

Definition between (lo hi : N) (c : ascii) : bool :=
  (lo <=? code c) && (code c <=? hi).

Definition cont (c : ascii) : bool := between 0x80 0xBF c.

Definition valid2 (c0 c1 : ascii) : bool :=
  between 0xC2 0xDF c0 && cont c1.

Definition valid3 (c0 c1 c2 : ascii) : bool :=
  between 0xE0 0xEF c0
  && between (if code c0 =? 0xE0 then 0xA0 else 0x80)
             (if code c0 =? 0xED then 0x9F else 0xBF) c1
  && cont c2.

Definition valid4 (c0 c1 c2 c3 : ascii) : bool :=
  between 0xF0 0xF4 c0
  && between (if code c0 =? 0xF0 then 0x90 else 0x80)
             (if code c0 =? 0xF4 then 0x8F else 0xBF) c1
  && cont c2 && cont c3.

(** U+FFFD, the replacement rune, in UTF-8. *)
Definition replacement : string :=
  String (chr 0xEF) (String (chr 0xBF) (String (chr 0xBD) "")).

(** [utf8.ValidString]. *)
Fixpoint valid_utf8 (s : string) : bool :=
  match s with
  | "" => true
  | String c0 s1 =>
    if code c0 <? 0x80 then valid_utf8 s1 else
    match s1 with
    | "" => false
    | String c1 s2 =>
      if valid2 c0 c1 then valid_utf8 s2 else
      match s2 with
      | "" => false
      | String c2 s3 =>
        if valid3 c0 c1 c2 then valid_utf8 s3 else
        match s3 with
        | "" => false
        | String c3 s4 =>
          if valid4 c0 c1 c2 c3 then valid_utf8 s4 else false
        end
      end
    end
  end.

(** [utf8.EncodeRune]. *)
Definition encode_rune (r : N) : string :=
  if r <=? 0x7F then String (chr r) ""
  else if r <=? 0x7FF then
    String (chr (N.lor 0xC0 (N.shiftr r 6)))
      (String (chr (N.lor 0x80 (N.land r 0x3F))) "")
  else if ((0xD800 <=? r) && (r <=? 0xDFFF)) || (0x10FFFF <? r) then replacement
  else if r <=? 0xFFFF then
    String (chr (N.lor 0xE0 (N.shiftr r 12)))
      (String (chr (N.lor 0x80 (N.land (N.shiftr r 6) 0x3F)))
         (String (chr (N.lor 0x80 (N.land r 0x3F))) ""))
  else
    String (chr (N.lor 0xF0 (N.shiftr r 18)))
      (String (chr (N.lor 0x80 (N.land (N.shiftr r 12) 0x3F)))
         (String (chr (N.lor 0x80 (N.land (N.shiftr r 6) 0x3F)))
            (String (chr (N.lor 0x80 (N.land r 0x3F))) ""))).

(** *** Encoding a string (encodeState.string with escapeHTML set) *)

Definition hex_digit (n : N) : ascii :=
  if n <? 10 then chr (48 + n) else chr (87 + n).

(** htmlSafeSet: the ASCII bytes written as they are. *)
Definition html_safe (c : ascii) : bool :=
  (0x20 <=? code c) && (code c <? 0x80)
  && negb (code c =? 34) && negb (code c =? 92)
  && negb (code c =? 60) && negb (code c =? 62) && negb (code c =? 38).

Definition escape_ascii (c : ascii) : string :=
  if html_safe c then String c ""
  else if (code c =? 92) || (code c =? 34) then String backslash (String c "")
  else if code c =? 10 then String backslash "n"
  else if code c =? 13 then String backslash "r"
  else if code c =? 9 then String backslash "t"
  else String backslash
         ("u00" +:+ String (hex_digit (N.shiftr (code c) 4))
                      (String (hex_digit (N.land (code c) 0xF)) "")).

Definition invalid_escape : string := String backslash "ufffd".

(** U+2028 and U+2029 are written as escapes. *)
Definition line_sep (c0 c1 c2 : ascii) : bool :=
  (code c0 =? 0xE2) && (code c1 =? 0x80)
  && ((code c2 =? 0xA8) || (code c2 =? 0xA9)).

Fixpoint quote_body (s : string) : string :=
  match s with
  | "" => ""
  | String c0 s1 =>
    if code c0 <? 0x80 then escape_ascii c0 +:+ quote_body s1 else
    match s1 with
    | "" => invalid_escape
    | String c1 s2 =>
      if valid2 c0 c1 then String c0 (String c1 (quote_body s2)) else
      match s2 with
      | "" => invalid_escape +:+ quote_body s1
      | String c2 s3 =>
        if valid3 c0 c1 c2 then
          (if line_sep c0 c1 c2
           then String backslash
                  ("u202" +:+ String (hex_digit (N.land (code c2) 0xF)) "")
           else String c0 (String c1 (String c2 "")))
          +:+ quote_body s3
        else
        match s3 with
        | "" => invalid_escape +:+ quote_body s1
        | String c3 s4 =>
          if valid4 c0 c1 c2 c3
          then String c0 (String c1 (String c2 (String c3 (quote_body s4))))
          else invalid_escape +:+ quote_body s1
        end
      end
    end
  end.

Definition quote (s : string) : string :=
  String dquote (quote_body s +:+ String dquote "").

(** [strconv.AppendUint] in base 10. *)
Definition format_uint (n : N) : string :=
  NilEmpty.string_of_uint (N.to_uint n).

(** [json.Marshal] of a [TerminalMessage]: the fields in the order of the
    struct, under their Go names.  It returns no error for this type. *)
Definition key (name : string) : string := quote name +:+ ":".

Definition encode (m : TerminalMessage) : string :=
  "{" +:+ key "Op" +:+ quote (Op m)
  +:+ "," +:+ key "Data" +:+ quote (Data m)
  +:+ "," +:+ key "SessionID" +:+ quote (SessionID m)
  +:+ "," +:+ key "Rows" +:+ format_uint (Rows m)
  +:+ "," +:+ key "Cols" +:+ format_uint (Cols m) +:+ "}".

Definition Marshal (m : TerminalMessage) : string * option error :=
  (encode m, None).

(** *** Decoding (scanner.go, decode.go) *)

#[local] Unset Elimination Schemes.
Inductive value :=
| Null
| Bool (b : bool)
| Number (lit : string)
| Str (s : string)
| Array (vs : list value)
| Object (kvs : list (string * value)).
#[local] Set Elimination Schemes.

Definition is_space (c : ascii) : bool :=
  (code c =? 32) || (code c =? 9) || (code c =? 13) || (code c =? 10).

Fixpoint skip_space (s : string) : string :=
  match s with
  | String c r => if is_space c then skip_space r else s
  | "" => ""
  end.

Definition hex_value (c : ascii) : option N :=
  if between 48 57 c then Some (code c - 48)
  else if between 97 102 c then Some (code c - 87)
  else if between 65 70 c then Some (code c - 55)
  else None.

(** getu4: the four hex digits after a backslash and a u. *)
Definition hex4 (h1 h2 h3 h4 : ascii) : option N :=
  match hex_value h1, hex_value h2, hex_value h3, hex_value h4 with
  | Some a, Some b, Some c, Some d => Some (((a * 16 + b) * 16 + c) * 16 + d)
  | _, _, _, _ => None
  end.

Definition is_surrogate (r : N) : bool := (0xD800 <=? r) && (r <? 0xE000).

(** [utf16.DecodeRune]: [None] stands for the replacement rune. *)
Definition utf16_pair (r1 r2 : N) : option N :=
  if (0xD800 <=? r1) && (r1 <? 0xDC00) && (0xDC00 <=? r2) && (r2 <? 0xE000)
  then Some (N.lor (N.shiftl (r1 - 0xD800) 10) (r2 - 0xDC00) + 0x10000)
  else None.

Definition simple_escape (e : ascii) : option ascii :=
  if (code e =? 34) || (code e =? 92) || (code e =? 47) then Some e
  else if code e =? 98 then Some (chr 8)
  else if code e =? 102 then Some (chr 12)
  else if code e =? 110 then Some (chr 10)
  else if code e =? 114 then Some (chr 13)
  else if code e =? 116 then Some (chr 9)
  else None.

Definition prepend (pre : string) (r : option (string * string)) :
  option (string * string) :=
  match r with
  | Some (t, rest) => Some (pre +:+ t, rest)
  | None => None
  end.

(** The text of a string literal, read from just after its opening quote:
    the scanner's syntax check and unquoteBytes in one pass.  The result
    is the decoded text and the input after the closing quote. *)
Fixpoint unquote_body (s : string) : option (string * string) :=
  match s with
  | "" => None
  | String c0 s1 =>
    if code c0 =? 34 then Some ("", s1)
    else if code c0 =? 92 then
      match s1 with
      | "" => None
      | String e s2 =>
        if code e =? 117 then
          match s2 with
          | String h1 (String h2 (String h3 (String h4 s6))) =>
            match hex4 h1 h2 h3 h4 with
            | None => None
            | Some r =>
              if is_surrogate r then
                match s6 with
                | String b (String u (String k1 (String k2
                    (String k3 (String k4 s12))))) =>
                  match
                    (if (code b =? 92) && (code u =? 117)
                     then match hex4 k1 k2 k3 k4 with
                          | Some r2 => utf16_pair r r2
                          | None => None
                          end
                     else None)
                  with
                  | Some dec => prepend (encode_rune dec) (unquote_body s12)
                  | None => prepend replacement (unquote_body s6)
                  end
                | _ => prepend replacement (unquote_body s6)
                end
              else prepend (encode_rune r) (unquote_body s6)
            end
          | _ => None
          end
        else
          match simple_escape e with
          | Some ch => prepend (String ch "") (unquote_body s2)
          | None => None
          end
      end
    else if code c0 <? 0x20 then None
    else if code c0 <? 0x80 then prepend (String c0 "") (unquote_body s1)
    else
    match s1 with
    | "" => None
    | String c1 s2 =>
      if valid2 c0 c1
      then prepend (String c0 (String c1 "")) (unquote_body s2) else
      match s2 with
      | "" => prepend replacement (unquote_body s1)
      | String c2 s3 =>
        if valid3 c0 c1 c2
        then prepend (String c0 (String c1 (String c2 ""))) (unquote_body s3)
        else
        match s3 with
        | "" => prepend replacement (unquote_body s1)
        | String c3 s4 =>
          if valid4 c0 c1 c2 c3
          then prepend (String c0 (String c1 (String c2 (String c3 ""))))
                 (unquote_body s4)
          else prepend replacement (unquote_body s1)
        end
      end
    end
  end.

Definition is_digit (c : ascii) : bool := between 48 57 c.

Fixpoint span_digits (s : string) : string * string :=
  match s with
  | String c r =>
    if is_digit c then let (ds, rest) := span_digits r in (String c ds, rest)
    else ("", s)
  | "" => ("", "")
  end.

(** A number literal: an optional minus, an integer part without leading
    zero, an optional fraction, an optional exponent. *)
Definition scan_int (s : string) : option (string * string) :=
  match s with
  | String c r =>
    if code c =? 48 then Some ("0", r)
    else if is_digit c then
      let (ds, rest) := span_digits r in Some (String c ds, rest)
    else None
  | "" => None
  end.

Definition scan_frac (s : string) : option (string * string) :=
  match s with
  | String c r =>
    if code c =? 46 then
      match span_digits r with
      | ("", _) => None
      | (ds, rest) => Some (String c ds, rest)
      end
    else Some ("", s)
  | "" => Some ("", "")
  end.

Definition scan_exp (s : string) : option (string * string) :=
  match s with
  | String c r =>
    if (code c =? 101) || (code c =? 69) then
      let (sign, r1) :=
        match r with
        | String g r' =>
          if (code g =? 43) || (code g =? 45) then (String g "", r')
          else ("", r)
        | "" => ("", "")
        end in
      match span_digits r1 with
      | ("", _) => None
      | (ds, rest) => Some (String c (sign +:+ ds), rest)
      end
    else Some ("", s)
  | "" => Some ("", "")
  end.

Definition scan_number (s : string) : option (string * string) :=
  let (sign, s0) :=
    match s with
    | String c r => if code c =? 45 then (String c "", r) else ("", s)
    | "" => ("", "")
    end in
  match scan_int s0 with
  | None => None
  | Some (i, r1) =>
    match scan_frac r1 with
    | None => None
    | Some (f, r2) =>
      match scan_exp r2 with
      | None => None
      | Some (e, r3) => Some (sign +:+ i +:+ f +:+ e, r3)
      end
    end
  end.

Fixpoint strip_prefix (p s : string) : option string :=
  match p, s with
  | "", _ => Some s
  | String a p', String b s' => if code a =? code b then strip_prefix p' s' else None
  | _, "" => None
  end.

(** One JSON value at the head of [s] (no leading space), and the rest of
    the input.  [fuel] bounds the nesting and the number of elements; see
    [Unmarshal] for the amount given. *)
Fixpoint parse_value (fuel : nat) (s : string) : option (value * string) :=
  match fuel with
  | O => None
  | S fuel =>
    match s with
    | "" => None
    | String c r =>
      if code c =? 123 then
        match skip_space r with
        | "" => None
        | String c' r' =>
          if code c' =? 125 then Some (Object [], r')
          else
            match parse_members fuel (String c' r') with
            | Some (kvs, rest) => Some (Object kvs, rest)
            | None => None
            end
        end
      else if code c =? 91 then
        match skip_space r with
        | "" => None
        | String c' r' =>
          if code c' =? 93 then Some (Array [], r')
          else
            match parse_elements fuel (String c' r') with
            | Some (vs, rest) => Some (Array vs, rest)
            | None => None
            end
        end
      else if code c =? 34 then
        match unquote_body r with
        | Some (t, rest) => Some (Str t, rest)
        | None => None
        end
      else if (code c =? 45) || is_digit c then
        match scan_number s with
        | Some (lit, rest) => Some (Number lit, rest)
        | None => None
        end
      else
        match strip_prefix "true" s, strip_prefix "false" s, strip_prefix "null" s with
        | Some rest, _, _ => Some (Bool true, rest)
        | _, Some rest, _ => Some (Bool false, rest)
        | _, _, Some rest => Some (Null, rest)
        | _, _, _ => None
        end
    end
  end
with parse_members (fuel : nat) (s : string) : option (list (string * value) * string) :=
  match fuel with
  | O => None
  | S fuel =>
    match s with
    | "" => None
    | String c r =>
      if code c =? 34 then
        match unquote_body r with
        | None => None
        | Some (k, r1) =>
          match skip_space r1 with
          | "" => None
          | String c1 r2 =>
            if code c1 =? 58 then
              match parse_value fuel (skip_space r2) with
              | None => None
              | Some (v, r3) =>
                match skip_space r3 with
                | "" => None
                | String c3 r4 =>
                  if code c3 =? 44 then
                    match parse_members fuel (skip_space r4) with
                    | Some (kvs, r5) => Some ((k, v) :: kvs, r5)
                    | None => None
                    end
                  else if code c3 =? 125 then Some ([(k, v)], r4)
                  else None
                end
              end
            else None
          end
        end
      else None
    end
  end
with parse_elements (fuel : nat) (s : string) : option (list value * string) :=
  match fuel with
  | O => None
  | S fuel =>
    match parse_value fuel s with
    | None => None
    | Some (v, r1) =>
      match skip_space r1 with
      | "" => None
      | String c r2 =>
        if code c =? 44 then
          match parse_elements fuel (skip_space r2) with
          | Some (vs, r3) => Some (v :: vs, r3)
          | None => None
          end
        else if code c =? 93 then Some ([v], r2)
        else None
      end
    end
  end.

(** checkValid and the scan of the top-level value: one value, with
    white space around it and nothing else. *)
Definition parse (s : string) : option value :=
  match parse_value (10 + 2 * String.length s) (skip_space s) with
  | Some (v, rest) =>
    match skip_space rest with
    | "" => Some v
    | _ => None
    end
  | None => None
  end.

(** *** Filling the struct (decode.go: object, literalStore; fold.go) *)

Inductive field := FOp | FData | FSessionID | FRows | FCols.

Definition fields : list field := [FOp; FData; FSessionID; FRows; FCols].

Definition field_name (f : field) : string :=
  match f with
  | FOp => "Op"
  | FData => "Data"
  | FSessionID => "SessionID"
  | FRows => "Rows"
  | FCols => "Cols"
  end.

(** [b & caseMask]: the byte with bit 0x20 cleared. *)
Definition upper (c : ascii) : N := N.land (code c) 0xDF.

Definition is_letter (c : ascii) : bool := (65 <=? upper c) && (upper c <=? 90).

Fixpoint simpleLetterEqualFold (s t : string) : bool :=
  match s, t with
  | "", "" => true
  | String a s', String b t' => (upper a =? upper b) && simpleLetterEqualFold s' t'
  | _, _ => false
  end.

Fixpoint asciiEqualFold (s t : string) : bool :=
  match s, t with
  | "", "" => true
  | String a s', String b t' =>
    ((code a =? code b) || (is_letter a && (upper a =? upper b)))
    && asciiEqualFold s' t'
  | _, _ => false
  end.

(** The name [s] is ASCII; [t] may hold U+017F for an s and U+212A for
    a k. *)
Fixpoint equalFoldRight (s t : string) : bool :=
  match s with
  | "" => match t with "" => true | _ => false end
  | String a s' =>
    match t with
    | "" => false
    | String b t1 =>
      if code b <? 0x80 then
        ((code a =? code b) || (is_letter a && (upper a =? upper b)))
        && equalFoldRight s' t1
      else if upper a =? 83 then
        match t1 with
        | String b1 t2 =>
          (code b =? 0xC5) && (code b1 =? 0xBF) && equalFoldRight s' t2
        | "" => false
        end
      else if upper a =? 75 then
        match t1 with
        | String b1 (String b2 t3) =>
          (code b =? 0xE2) && (code b1 =? 0x84) && (code b2 =? 0xAA)
          && equalFoldRight s' t3
        | _ => false
        end
      else false
    end
  end.

Fixpoint has_special (s : string) : bool :=
  match s with
  | "" => false
  | String c r => (is_letter c && ((upper c =? 75) || (upper c =? 83))) || has_special r
  end.

Fixpoint has_non_letter (s : string) : bool :=
  match s with
  | "" => false
  | String c r => negb (is_letter c) || has_non_letter r
  end.

(** foldFunc, for an ASCII field name. *)
Definition equalFold (name t : string) : bool :=
  if has_special name then equalFoldRight name t
  else if has_non_letter name then asciiEqualFold name t
  else simpleLetterEqualFold name t.

(** The field a key stands for: an exact match wins, else the first field
    whose name matches by folding. *)
Fixpoint find_field (fs : list field) (k : string) (found : option field) : option field :=
  match fs with
  | [] => found
  | f :: fs' =>
    if String.eqb (field_name f) k then Some f
    else find_field fs' k
           (match found with
            | Some _ => found
            | None => if equalFold (field_name f) k then Some f else None
            end)
  end.

Definition kind_name (v : value) : string :=
  match v with
  | Null => "null"
  | Bool _ => "bool"
  | Number _ => "number"
  | Str _ => "string"
  | Array _ => "array"
  | Object _ => "object"
  end.

Definition UnmarshalTypeError (what target : string) : error :=
  errorString ("json: cannot unmarshal " +:+ what +:+ " into Go value of type " +:+ target).

(** The scanner's SyntaxError.  Its text names the offending byte in the
    library; one text stands for all of them here. *)
Definition SyntaxError : error := errorString "invalid JSON input".

(** [strconv.ParseUint(s, 10, 64)] followed by the uint16 overflow check:
    digits only, and below 65536. *)
Definition parse_uint16 (lit : string) : option N :=
  match NilEmpty.uint_of_string lit with
  | Some d => let n := N.of_uint d in if n <? 65536 then Some n else None
  | None => None
  end.

Definition set_string (f : field) (t : string) (m : TerminalMessage) : TerminalMessage :=
  match f with
  | FOp => mkTerminalMessage t (Data m) (SessionID m) (Rows m) (Cols m)
  | FData => mkTerminalMessage (Op m) t (SessionID m) (Rows m) (Cols m)
  | FSessionID => mkTerminalMessage (Op m) (Data m) t (Rows m) (Cols m)
  | _ => m
  end.

Definition set_uint (f : field) (n : N) (m : TerminalMessage) : TerminalMessage :=
  match f with
  | FRows => mkTerminalMessage (Op m) (Data m) (SessionID m) n (Cols m)
  | FCols => mkTerminalMessage (Op m) (Data m) (SessionID m) (Rows m) n
  | _ => m
  end.

Definition is_string_field (f : field) : bool :=
  match f with FOp | FData | FSessionID => true | _ => false end.

(** d.saveError keeps the first error. *)
Definition saveError (e : error) (saved : option error) : option error :=
  match saved with
  | Some _ => saved
  | None => Some e
  end.

(** One value stored into one field: null changes nothing, a value of the
    field's kind is stored, anything else is a type error and the field
    keeps what it held. *)
Definition store (f : field) (v : value) (st : TerminalMessage * option error) :
  TerminalMessage * option error :=
  let (m, saved) := st in
  match v with
  | Null => (m, saved)
  | Str t =>
    if is_string_field f then (set_string f t m, saved)
    else (m, saveError (UnmarshalTypeError "string" "uint16") saved)
  | Number lit =>
    if is_string_field f
    then (m, saveError (UnmarshalTypeError "number" "string") saved)
    else match parse_uint16 lit with
         | Some n => (set_uint f n m, saved)
         | None => (m, saveError (UnmarshalTypeError ("number " +:+ lit) "uint16") saved)
         end
  | _ =>
    (m, saveError (UnmarshalTypeError (kind_name v)
                     (if is_string_field f then "string" else "uint16")) saved)
  end.

Fixpoint fill (kvs : list (string * value)) (st : TerminalMessage * option error) :
  TerminalMessage * option error :=
  match kvs with
  | [] => st
  | (k, v) :: kvs' =>
    fill kvs' (match find_field fields k None with
               | Some f => store f v st
               | None => st
               end)
  end.

(** [json.Unmarshal(data, &msg)]: the message as it is left, and the error
    returned. *)
Definition Unmarshal (data : string) (msg : TerminalMessage) :
  TerminalMessage * option error :=
  match parse data with
  | None => (msg, Some SyntaxError)
  | Some (Object kvs) => fill kvs (msg, None)
  | Some Null => (msg, None)
  | Some v => (msg, Some (UnmarshalTypeError (kind_name v) "handler.TerminalMessage"))
  end.

End json.


(** ** Sessions and the operations of a goroutine *)

(** A [sockjs.Session] and a channel are references: they are named by a
    number, and [None] is the nil interface or the nil channel. *)
Definition conn := nat.
Definition chan := nat.

(** [remotecommand.TerminalSize]: the fields in the order of the library's
    declaration, which the positional literal of line 90 relies on. *)
Record TerminalSize := mkTerminalSize { Width : N; Height : N }.

(** terminal.go, lines 43-48. *)
Record TerminalSession := mkTerminalSession {
  id : string;
  bound : option chan;
  sockJSSession : option conn;
  sizeChan : option chan
}.

(** The zero value, which reading a missing map key gives. *)
Definition zeroSession : TerminalSession := mkTerminalSession "" None None None.

(** The part of a [restful.Request] the handler reads. *)
Record Request := mkRequest {
  PathParameter : string -> string;
  QueryParameter : string -> string
}.

(** [api.PodExecOptions] on the exec subresource of a pod (lines 189-202). *)
Record ExecRequest := mkExecRequest {
  Namespace : string;
  Name : string;
  Container : string;
  Command : list string;
  Stdin : bool;
  Stdout : bool;
  Stderr : bool;
  TTY : bool
}.

(** What a goroutine of this file asks of the Go runtime and of the
    libraries: the session map, the two kinds of channel, the SockJS
    session, the remote executor and the log.  The index is the type of
    the answer. *)
Inductive effect : Type -> Type :=
| MapLoad (key : string) : effect (option TerminalSession)
| MapStore (key : string) (v : TerminalSession) : effect unit
| MapDelete (key : string) : effect unit
| BoundSend (c : option chan) (v : option error) : effect unit
| BoundRecv (c : option chan) : effect (option error)
| BoundClose (c : option chan) : effect unit
| SizeSend (c : option chan) (v : TerminalSize) : effect unit
| SizeRecv (c : option chan) : effect TerminalSize
| SockRecv (s : option conn) : effect (string * option error)
| SockSend (s : option conn) (m : string) : effect (option error)
| SockClose (s : option conn) (status : N) (reason : string) : effect (option error)
| NewExecutor (req : ExecRequest) : effect (option error)
| Stream (req : ExecRequest) (pty : TerminalSession) : effect (option error)
| Printf (text : string) : effect unit.

Inductive prog (R : Type) : Type :=
| Ret (r : R)
| Do {X : Type} (e : effect X) (k : X -> prog R).

Arguments Ret {R} r.
Arguments Do {R X} e k.

Fixpoint bind {A B : Type} (p : prog A) (f : A -> prog B) : prog B :=
  match p with
  | Ret a => f a
  | Do e k => Do e (fun x => bind (k x) f)
  end.

Definition call {X : Type} (e : effect X) : prog X := Do e Ret.

Declare Scope prog_scope.
Delimit Scope prog_scope with prog.
Bind Scope prog_scope with prog.
Notation "x <- p ;; q" := (bind p (fun x => q))
  (at level 100, p at next level, right associativity) : prog_scope.
Notation "p ;; q" := (bind p (fun _ => q))
  (at level 100, right associativity) : prog_scope.
Local Open Scope prog_scope.

(** ** terminal.go *)

(** The map load [terminalSessions[key]] in its one-value form. *)
Definition load (key : string) : prog TerminalSession :=
  r <- call (MapLoad key) ;; Ret (default zeroSession r).

(** Lines 66-71. *)
Definition Next (t : TerminalSession) : prog TerminalSize :=
  size <- call (SizeRecv (sizeChan t)) ;;
  Ret size.

(** The builtin [copy(p, s)] from a string: the bytes copied and the slice
    afterwards. *)
Definition copy (p : list Byte.byte) (s : string) : nat * list Byte.byte :=
  let n := Nat.min (length p) (String.length s) in
  (n, (take n (list_byte_of_string s) ++ drop n p)%list).
Arguments copy : simpl never.

Definition Errorf_unknown_message (op : string) : error :=
  errorString ("unknown message type '" +:+ op +:+ "'").

(** Lines 75-95.  The result is the slice [p] as [Read] leaves it, the
    count and the error. *)
Definition Read (t : TerminalSession) (p : list Byte.byte) :
  prog (list Byte.byte * (nat * option error)) :=
  r <- call (SockRecv (sockJSSession t)) ;;
  let (m, err) := r in
  match err with
  | Some e => Ret (p, (0%nat, Some e))
  | None =>
    let (msg, err) := json.Unmarshal m zeroMessage in
    match err with
    | Some e => Ret (p, (0%nat, Some e))
    | None =>
      if decide (Op msg = "stdin") then
        let (n, p') := copy p (Data msg) in Ret (p', (n, None))
      else if decide (Op msg = "resize") then
        call (SizeSend (sizeChan t) (mkTerminalSize (Cols msg) (Rows msg))) ;;
        Ret (p, (0%nat, None))
      else Ret (p, (0%nat, Some (Errorf_unknown_message (Op msg))))
    end
  end.

(** Lines 99-112. *)
Definition Write (t : TerminalSession) (p : list Byte.byte) : prog (nat * option error) :=
  let (msg, err) :=
    json.Marshal (mkTerminalMessage "stdout" (string_of_list_byte p) "" 0 0) in
  match err with
  | Some e => Ret (0%nat, Some e)
  | None =>
    err <- call (SockSend (sockJSSession t) msg) ;;
    match err with
    | Some e => Ret (0%nat, Some e)
    | None => Ret (length p, None)
    end
  end.

(** Lines 116-129. *)
Definition Toast (t : TerminalSession) (p : string) : prog (option error) :=
  let (msg, err) := json.Marshal (mkTerminalMessage "toast" p "" 0 0) in
  match err with
  | Some e => Ret (Some e)
  | None =>
    err <- call (SockSend (sockJSSession t) msg) ;;
    match err with
    | Some e => Ret (Some e)
    | None => Ret None
    end
  end.

(** Lines 134-136. *)
Definition Close (t : TerminalSession) (status : N) (reason : string) : prog unit :=
  call (SockClose (sockJSSession t) status reason) ;;
  Ret tt.

(** Lines 143-175. *)
Definition handleTerminalSession (session : conn) : prog unit :=
  r <- call (SockRecv (Some session)) ;;
  let (buf, err) := r in
  match err with
  | Some e =>
    call (Printf ("handleTerminalSession: can't Recv: " +:+ Error e))
  | None =>
    let (msg, err) := json.Unmarshal buf zeroMessage in
    match err with
    | Some e =>
      call (Printf ("handleTerminalSession: can't UnMarshal (" +:+ Error e +:+ "): " +:+ buf))
    | None =>
      if decide (Op msg <> "bind") then
        call (Printf ("handleTerminalSession: expected 'bind' message, got: " +:+ buf))
      else
        r <- call (MapLoad (SessionID msg)) ;;
        match r with
        | None =>
          call (Printf ("handleTerminalSession: can't find session '" +:+ SessionID msg +:+ "'"))
        | Some terminalSession =>
          let terminalSession :=
            mkTerminalSession (id terminalSession) (bound terminalSession)
              (Some session) (sizeChan terminalSession) in
          call (BoundSend (bound terminalSession) None) ;;
          call (MapStore (SessionID msg) terminalSession)
        end
    end
  end.

(** Lines 185-202: the exec request for [cmd] in the container the
    request names. *)
Definition execRequest (request : Request) (cmd : list string) : ExecRequest :=
  let namespace := PathParameter request "namespace" in
  let podName := PathParameter request "pod" in
  let containerName := PathParameter request "container" in
  mkExecRequest namespace podName containerName cmd true true true true.

(** Lines 184-222. *)
Definition startProcess (request : Request) (cmd : list string)
  (ptyHandler : TerminalSession) : prog (option error) :=
  let req := execRequest request cmd in
  err <- call (NewExecutor req) ;;
  match err with
  | Some e => Ret (Some e)
  | None =>
    err <- call (Stream req ptyHandler) ;;
    match err with
    | Some e => Ret (Some e)
    | None => Ret None
    end
  end.

(** Lines 239-246. *)
Fixpoint isValidShell (validShells : list string) (shell : string) : bool :=
  match validShells with
  | [] => false
  | validShell :: rest =>
    if String.eqb validShell shell then true else isValidShell rest shell
  end.

(** The loop of lines 266-271: [err] is the error of the last attempt. *)
Fixpoint tryShells (request : Request) (sessionId : string)
  (shells : list string) (err : option error) : prog (option error) :=
  match shells with
  | [] => Ret err
  | testShell :: rest =>
    let cmd := [testShell] in
    t <- load sessionId ;;
    err <- startProcess request cmd t ;;
    match err with
    | None => Ret None
    | Some _ => tryShells request sessionId rest err
    end
  end.

(** Lines 257-272, the process launcher: the shell asked for when it is
    an allowed one, else the allowed shells in turn. *)
Definition launchShell (request : Request) (sessionId : string) (shell : string) :
  prog (option error) :=
  let validShells := ["bash"; "sh"] in
  if isValidShell validShells shell then
    let cmd := [shell] in
    t <- load sessionId ;;
    startProcess request cmd t
  else tryShells request sessionId validShells None.

(** Lines 250-281. *)
Definition WaitForTerminal (request : Request) (sessionId : string) : prog unit :=
  let shell := QueryParameter request "shell" in
  t <- load sessionId ;;
  _ <- call (BoundRecv (bound t)) ;;
  t <- load sessionId ;;
  call (BoundClose (bound t)) ;;
  err <- launchShell request sessionId shell ;;
  match err with
  | Some e =>
    t <- load sessionId ;;
    Close t 2 (Error e)
  | None =>
    t <- load sessionId ;;
    Close t 1 "Process exited"
  end.

(** encoding/hex: [Encode] writes the two digits of every byte of [src]
    into [dst], by index.  An index outside [dst] panics (the result is
    [None]). *)
Module hex.

Definition hextable : string := "0123456789abcdef".

Definition EncodedLen (n : nat) : nat := n * 2.

(** [hextable[n]], for an index below 16. *)
Definition digit (n : N) : Byte.byte :=
  default Byte.x00 (list_byte_of_string hextable !! N.to_nat n).

(** [dst[i] = x]. *)
Definition set (dst : list Byte.byte) (i : nat) (x : Byte.byte) :
  option (list Byte.byte) :=
  if decide (i < length dst)%nat then Some (<[i := x]> dst) else None.

(** The loop over [src], from the index [i]. *)
Fixpoint Encode_from (i : nat) (dst src : list Byte.byte) : option (list Byte.byte) :=
  match src with
  | [] => Some dst
  | v :: rest =>
    dst ← set dst (i * 2) (digit (N.shiftr (Byte.to_N v) 4));
    dst ← set dst (i * 2 + 1) (digit (N.land (Byte.to_N v) 0x0f));
    Encode_from (S i) dst rest
  end.

Definition Encode (dst src : list Byte.byte) : option (list Byte.byte) :=
  Encode_from 0 dst src.

End hex.

(** Lines 228-236.  [random] is what [rand.Read] did with the slice it
    was given: the bytes it wrote, from the start of the slice, and its
    error.  The result is [None] if the function panics. *)
Definition genTerminalSessionId (random : list Byte.byte * option error) :
  option (string * option error) :=
  let bytes := replicate 16 Byte.x00 in
  let bytes := take (length bytes) (random.1 ++ drop (length random.1) bytes)%list in
  match random.2 with
  | Some err => Some ("", Some err)
  | None =>
    let id := replicate (hex.EncodedLen (length bytes)) Byte.x00 in
    id ← hex.Encode id bytes;
    Some (string_of_list_byte id, None)
  end.

(** ** The runtime: what the operations do

    The session map, the channels and the SockJS sessions are shared by
    the goroutines.  A channel is a queue with a capacity (0 for an
    unbuffered one) and a closed flag; a SockJS session has the messages
    still to be received, the messages sent to the client and the close
    frame once it is closed.  The answers of the remote executor depend
    on the request only. *)

Record channel (A : Type) := mkChannel {
  cap : nat;
  buf : list A;
  closed : bool
}.
Arguments mkChannel {A} cap buf closed.
Arguments cap {A} c.
Arguments buf {A} c.
Arguments closed {A} c.

Record socket := mkSocket {
  inbox : list (string * option error);
  outbox : list string;
  closeFrame : option (N * string)
}.

Record World := mkWorld {
  terminalSessions : gmap string TerminalSession;
  boundChans : gmap chan (channel (option error));
  sizeChans : gmap chan (channel TerminalSize);
  sockets : gmap conn socket;
  executor : ExecRequest -> option error;
  remote : ExecRequest -> option error
}.

Definition set_sessions (w : World) (m : gmap string TerminalSession) : World :=
  mkWorld m (boundChans w) (sizeChans w) (sockets w) (executor w) (remote w).
Definition set_bound (w : World) (c : chan) (ch : channel (option error)) : World :=
  mkWorld (terminalSessions w) (<[c := ch]> (boundChans w)) (sizeChans w)
    (sockets w) (executor w) (remote w).
Definition set_size (w : World) (c : chan) (ch : channel TerminalSize) : World :=
  mkWorld (terminalSessions w) (boundChans w) (<[c := ch]> (sizeChans w))
    (sockets w) (executor w) (remote w).
Definition set_socket (w : World) (s : conn) (k : socket) : World :=
  mkWorld (terminalSessions w) (boundChans w) (sizeChans w)
    (<[s := k]> (sockets w)) (executor w) (remote w).

Inductive result (X : Type) :=
| Value (x : X) (w : World)
| Panic (msg : string)
| Blocked.
Arguments Value {X} x w.
Arguments Panic {X} msg.
Arguments Blocked {X}.

Definition nil_dereference : string :=
  "invalid memory address or nil pointer dereference".

Definition ErrSessionNotOpen : error := errorString "sockjs: session not in open state".

(** A send on a channel: it panics on a closed channel, goes into the
    buffer when there is room, and waits otherwise. *)
Definition chan_send {A : Type} (ch : channel A) (v : A) : option (channel A) + string :=
  if closed ch then inr "send on closed channel"
  else if decide (length (buf ch) < cap ch)%nat
       then inl (Some (mkChannel (cap ch) (buf ch ++ [v])%list false))
       else inl None.

(** A receive: the oldest value of the buffer, the zero value when the
    channel is empty and closed, and a wait otherwise. *)
Definition chan_recv {A : Type} (zero : A) (ch : channel A) : option (A * channel A) :=
  match buf ch with
  | x :: rest => Some (x, mkChannel (cap ch) rest (closed ch))
  | [] => if closed ch then Some (zero, ch) else None
  end.

Definition perform {X : Type} (e : effect X) (w : World) : result X :=
  match e in effect X return result X with
  | MapLoad key => Value (terminalSessions w !! key) w
  | MapStore key v => Value tt (set_sessions w (<[key := v]> (terminalSessions w)))
  | MapDelete key => Value tt (set_sessions w (delete key (terminalSessions w)))
  | BoundSend c v =>
    match c ≫= (fun c => (fun ch => (c, ch)) <$> boundChans w !! c) with
    | None => Blocked
    | Some (c, ch) =>
      match chan_send ch v with
      | inr msg => Panic msg
      | inl None => Blocked
      | inl (Some ch') => Value tt (set_bound w c ch')
      end
    end
  | BoundRecv c =>
    match c ≫= (fun c => (fun ch => (c, ch)) <$> boundChans w !! c) with
    | None => Blocked
    | Some (c, ch) =>
      match chan_recv None ch with
      | None => Blocked
      | Some (x, ch') => Value x (set_bound w c ch')
      end
    end
  | BoundClose c =>
    match c with
    | None => Panic "close of nil channel"
    | Some c =>
      match boundChans w !! c with
      | None => Blocked
      | Some ch =>
        if closed ch then Panic "close of closed channel"
        else Value tt (set_bound w c (mkChannel (cap ch) (buf ch) true))
      end
    end
  | SizeSend c v =>
    match c ≫= (fun c => (fun ch => (c, ch)) <$> sizeChans w !! c) with
    | None => Blocked
    | Some (c, ch) =>
      match chan_send ch v with
      | inr msg => Panic msg
      | inl None => Blocked
      | inl (Some ch') => Value tt (set_size w c ch')
      end
    end
  | SizeRecv c =>
    match c ≫= (fun c => (fun ch => (c, ch)) <$> sizeChans w !! c) with
    | None => Blocked
    | Some (c, ch) =>
      match chan_recv (mkTerminalSize 0 0) ch with
      | None => Blocked
      | Some (x, ch') => Value x (set_size w c ch')
      end
    end
  | SockRecv s =>
    match s with
    | None => Panic nil_dereference
    | Some s =>
      match sockets w !! s with
      | None => Blocked
      | Some k =>
        match inbox k with
        | [] =>
          match closeFrame k with
          | Some _ => Value ("", Some ErrSessionNotOpen) w
          | None => Blocked
          end
        | x :: rest => Value x (set_socket w s (mkSocket rest (outbox k) (closeFrame k)))
        end
      end
    end
  | SockSend s m =>
    match s with
    | None => Panic nil_dereference
    | Some s =>
      match sockets w !! s with
      | None => Blocked
      | Some k =>
        match closeFrame k with
        | Some _ => Value (Some ErrSessionNotOpen) w
        | None => Value None (set_socket w s (mkSocket (inbox k) (outbox k ++ [m])%list None))
        end
      end
    end
  | SockClose s status reason =>
    match s with
    | None => Panic nil_dereference
    | Some s =>
      match sockets w !! s with
      | None => Blocked
      | Some k =>
        match closeFrame k with
        | Some _ => Value (Some ErrSessionNotOpen) w
        | None =>
          Value None (set_socket w s (mkSocket (inbox k) (outbox k) (Some (status, reason))))
        end
      end
    end
  | NewExecutor req => Value (executor w req) w
  | Stream req pty => Value (remote w req) w
  | Printf text => Value tt w
  end.

(** What a goroutine did, with the answer it got. *)
Inductive event :=
| EvLoad (key : string) (r : option TerminalSession)
| EvStore (key : string) (v : TerminalSession)
| EvDelete (key : string)
| EvBoundSend (c : option chan) (v : option error)
| EvBoundRecv (c : option chan) (v : option error)
| EvBoundClose (c : option chan)
| EvSizeSend (c : option chan) (v : TerminalSize)
| EvSizeRecv (c : option chan) (v : TerminalSize)
| EvRecv (s : option conn) (m : string) (err : option error)
| EvSend (s : option conn) (m : string) (err : option error)
| EvClose (s : option conn) (status : N) (reason : string) (err : option error)
| EvNewExecutor (req : ExecRequest) (err : option error)
| EvStream (req : ExecRequest) (pty : TerminalSession) (err : option error)
| EvPrintf (text : string).

Definition event_of {X : Type} (e : effect X) : X -> event :=
  match e in effect X return X -> event with
  | MapLoad key => fun r => EvLoad key r
  | MapStore key v => fun _ => EvStore key v
  | MapDelete key => fun _ => EvDelete key
  | BoundSend c v => fun _ => EvBoundSend c v
  | BoundRecv c => fun v => EvBoundRecv c v
  | BoundClose c => fun _ => EvBoundClose c
  | SizeSend c v => fun _ => EvSizeSend c v
  | SizeRecv c => fun v => EvSizeRecv c v
  | SockRecv s => fun r => EvRecv s r.1 r.2
  | SockSend s m => fun err => EvSend s m err
  | SockClose s status reason => fun err => EvClose s status reason err
  | NewExecutor req => fun err => EvNewExecutor req err
  | Stream req pty => fun err => EvStream req pty err
  | Printf text => fun _ => EvPrintf text
  end.

(** ** Goroutines side by side

    A goroutine is the program it still has to run.  A step is taken by
    one goroutine on its own, or by a sender and a receiver that meet on
    a channel with nothing buffered.  A panic is not recovered anywhere
    in the file: it ends the process, and no goroutine steps after it. *)

Inductive thread :=
| Running (p : prog unit)
| Crashed (msg : string).

Record System := mkSystem {
  world : World;
  pool : list thread;
  trace : list (nat * event)
}.

Inductive choice :=
| Solo (i : nat)
| Sync (i j : nat).

Definition is_crashed (t : thread) : bool :=
  match t with Crashed _ => true | Running _ => false end.

Definition dead (s : System) : bool := existsb is_crashed (pool s).

Definition solo (i : nat) (s : System) : option System :=
  match pool s !! i with
  | Some (Running (Do e k)) =>
    match perform e (world s) with
    | Value x w =>
      Some (mkSystem w (<[i := Running (k x)]> (pool s))
              (trace s ++ [(i, event_of e x)]))
    | Panic msg => Some (mkSystem (world s) (<[i := Crashed msg]> (pool s)) (trace s))
    | Blocked => None
    end
  | _ => None
  end.

Inductive payload :=
| OfBound (v : option error)
| OfSize (v : TerminalSize).

(** A goroutine that stands at a send: the channel, the value and how it
    goes on. *)
Definition at_send (t : thread) : option (chan * payload * prog unit) :=
  match t with
  | Running (Do e k) =>
    match e in effect X return (X -> prog unit) -> option (chan * payload * prog unit) with
    | BoundSend (Some c) v => fun k => Some (c, OfBound v, k tt)
    | SizeSend (Some c) v => fun k => Some (c, OfSize v, k tt)
    | _ => fun _ => None
    end k
  | _ => None
  end.

(** A goroutine that stands at a receive: the channel and how it goes on
    with the value received, if it is of the channel's kind. *)
Definition at_recv (t : thread) : option (chan * (payload -> option (prog unit))) :=
  match t with
  | Running (Do e k) =>
    match e in effect X return (X -> prog unit) -> option (chan * (payload -> option (prog unit))) with
    | BoundRecv (Some c) => fun k =>
      Some (c, fun v => match v with OfBound x => Some (k x) | OfSize _ => None end)
    | SizeRecv (Some c) => fun k =>
      Some (c, fun v => match v with OfSize x => Some (k x) | OfBound _ => None end)
    | _ => fun _ => None
    end k
  | _ => None
  end.

Definition open_and_empty (w : World) (c : chan) (v : payload) : bool :=
  match v with
  | OfBound _ =>
    match boundChans w !! c with
    | Some ch => negb (closed ch) && bool_decide (buf ch = [])
    | None => false
    end
  | OfSize _ =>
    match sizeChans w !! c with
    | Some ch => negb (closed ch) && bool_decide (buf ch = [])
    | None => false
    end
  end.

Definition send_event (c : chan) (v : payload) : event :=
  match v with
  | OfBound x => EvBoundSend (Some c) x
  | OfSize x => EvSizeSend (Some c) x
  end.

Definition recv_event (c : chan) (v : payload) : event :=
  match v with
  | OfBound x => EvBoundRecv (Some c) x
  | OfSize x => EvSizeRecv (Some c) x
  end.

Definition sync (i j : nat) (s : System) : option System :=
  match pool s !! i ≫= at_send, pool s !! j ≫= at_recv with
  | Some (c, v, p), Some (c', k) =>
    if bool_decide (i <> j) && bool_decide (c = c') && open_and_empty (world s) c v then
      match k v with
      | Some q =>
        Some (mkSystem (world s)
                (<[j := Running q]> (<[i := Running p]> (pool s)))
                (trace s ++ [(i, send_event c v); (j, recv_event c v)]))
      | None => None
      end
    else None
  | _, _ => None
  end.

Definition step (c : choice) (s : System) : option System :=
  if dead s then None
  else match c with
       | Solo i => solo i s
       | Sync i j => sync i j s
       end.

Fixpoint run (cs : list choice) (s : System) : option System :=
  match cs with
  | [] => Some s
  | c :: cs' =>
    match step c s with
    | Some s' => run cs' s'
    | None => None
    end
  end.

Definition start (w : World) (ps : list (prog unit)) : System :=
  mkSystem w (Running <$> ps) [].

(** ** One goroutine on its own

    [returns p tr r]: the program [p] can perform the operations of [tr],
    with the answers recorded there, and then return [r].  An operation on
    a nil channel or a nil session has no answer. *)

Definition answers {X : Type} (e : effect X) : bool :=
  match e with
  | BoundSend None _ | BoundRecv None | BoundClose None
  | SizeSend None _ | SizeRecv None
  | SockRecv None | SockSend None _ | SockClose None _ _ => false
  | _ => true
  end.

Fixpoint returns {R : Type} (p : prog R) (tr : list event) (r : R) : Prop :=
  match p with
  | Ret r' => tr = [] /\ r = r'
  | Do e k =>
    answers e = true /\
    exists x tr', tr = event_of e x :: tr' /\ returns (k x) tr' r
  end.

(** One goroutine run to the end with nobody else stepping: the operations
    it performed and how it ended. *)
Fixpoint exec {R : Type} (p : prog R) (w : World) : list event * result R :=
  match p with
  | Ret r => ([], Value r w)
  | Do e k =>
    match perform e w with
    | Value x w' => let (tr, o) := exec (k x) w' in (event_of e x :: tr, o)
    | Panic msg => ([], Panic msg)
    | Blocked => ([], Blocked)
    end
  end.

(** ** What the specification says, in its words *)

(** [Read] as section 4.3 describes it: what it does after the transport
    handed over [m] and [err], and what it returns. *)
Inductive Read_spec (t : TerminalSession) (p : list Byte.byte) :
  string -> option error -> list event -> list Byte.byte * (nat * option error) -> Prop :=
| Read_recv_failure m e :
    Read_spec t p m (Some e) [] (p, (0%nat, Some e))
| Read_decode_failure m msg e :
    json.Unmarshal m zeroMessage = (msg, Some e) ->
    Read_spec t p m None [] (p, (0%nat, Some e))
| Read_stdin m msg :
    json.Unmarshal m zeroMessage = (msg, None) ->
    Op msg = "stdin" ->
    Read_spec t p m None [] ((copy p (Data msg)).2, ((copy p (Data msg)).1, None))
| Read_resize m msg :
    json.Unmarshal m zeroMessage = (msg, None) ->
    Op msg = "resize" ->
    Read_spec t p m None
      [EvSizeSend (sizeChan t) (mkTerminalSize (Cols msg) (Rows msg))]
      (p, (0%nat, None))
| Read_other m msg :
    json.Unmarshal m zeroMessage = (msg, None) ->
    Op msg <> "stdin" -> Op msg <> "resize" ->
    Read_spec t p m None [] (p, (0%nat, Some (Errorf_unknown_message (Op msg)))).

(** What became of a command that the remote side was asked to stream:
    it could not be started, or it ran and ended, with an error or
    without.  [Stream] returns an error in the first case, and in the
    second when the process ended with one (remotecommand reports a
    non-zero exit status as an error): its caller sees the error only. *)
Inductive outcome :=
| NotStarted (e : error)
| Exited (e : option error).

Definition stream_error (o : outcome) : option error :=
  match o with
  | NotStarted e => Some e
  | Exited e => e
  end.

(** The commands that ran in a trace, in order, when [fate] is what
    becomes of each request: the session is running a process, the
    RUNNING of section 4.6, once for each of them. *)
Definition processes (fate : ExecRequest -> outcome) (tr : list event) : list (list string) :=
  omap (fun ev => match ev with
                  | EvStream req _ _ =>
                    match fate req with
                    | Exited _ => Some (Command req)
                    | NotStarted _ => None
                    end
                  | _ => None
                  end) tr.

(** The calls of [startProcess] in a trace: the command and the error
    returned (from the executor's creation, or else from the stream). *)
Fixpoint attempts (tr : list event) : list (list string * option error) :=
  match tr with
  | [] => []
  | ev :: tr' =>
    match ev with
    | EvNewExecutor req (Some e) => (Command req, Some e) :: attempts tr'
    | EvStream req _ err => (Command req, err) :: attempts tr'
    | _ => attempts tr'
    end
  end.

(** What [startProcess] returns for [cmd] in the world [w]. *)
Definition started (w : World) (request : Request) (cmd : list string) : option error :=
  match executor w (execRequest request cmd) with
  | Some e => Some e
  | None => remote w (execRequest request cmd)
  end.

(** The calls of [Close] in a trace: status and reason. *)
Fixpoint closes (tr : list event) : list (N * string) :=
  match tr with
  | [] => []
  | EvClose _ status reason _ :: tr' => (status, reason) :: closes tr'
  | _ :: tr' => closes tr'
  end.

(** Events that change nothing a client or another goroutine can see of
    a session: a receive, a lookup, a line of the log. *)
Definition quiet (ev : event) : Prop :=
  match ev with
  | EvRecv _ _ _ | EvLoad _ _ | EvPrintf _ => True
  | _ => False
  end.

(** Modelled from the spec: the handler of the exec request
    (handleExecShell, which is not in terminal.go) registers an unbound
    session under a fresh id (section 6, (b)) and starts the coordinator
    on a goroutine of its own (section 6, (d)).  The session has its two
    channels and no connection; the capacity of the channels is left to
    the caller. *)
Definition newSession (sessionId : string) (b z : chan) : TerminalSession :=
  mkTerminalSession sessionId (Some b) None (Some z).

(** Modelled from the spec: the world right after that registration, with
    the connections [socks] open and the remote side answering by [ex]
    and [st]. *)
Definition registered (sessionId : string) (capacity : nat)
  (socks : gmap conn socket) (ex st : ExecRequest -> option error) : World :=
  mkWorld {[ sessionId := newSession sessionId 0%nat 1%nat ]}
    {[ 0%nat := mkChannel capacity [] false ]}
    {[ 1%nat := mkChannel capacity [] false ]}
    socks ex st.

(** The goroutines that run code of this file: the binder of a
    connection, the coordinator of a session and, from the streaming
    library, the calls on the handler. *)
Inductive goroutine : prog unit -> Prop :=
| go_handleTerminalSession session : goroutine (handleTerminalSession session)
| go_WaitForTerminal request sessionId : goroutine (WaitForTerminal request sessionId)
| go_Read t p : goroutine (Read t p ;; Ret tt)
| go_Write t p : goroutine (Write t p ;; Ret tt)
| go_Next t : goroutine (Next t ;; Ret tt)
| go_Toast t p : goroutine (Toast t p ;; Ret tt)
| go_Close t status reason : goroutine (Close t status reason).

(** On no path does [p] delete a key of the session map. *)
Fixpoint never_deletes {R : Type} (p : prog R) : Prop :=
  match p with
  | Ret _ => True
  | Do e k =>
    match e with MapDelete _ => False | _ => True end /\
    forall x, never_deletes (k x)
  end.

(** *** A worked example: one session, two connections

    JSON text is written with an apostrophe where the wire has a double
    quote. *)
Definition wire (s : string) : string :=
  string_of_list_ascii
    ((fun c => if json.code c =? 39 then json.dquote else c)
       <$> list_ascii_of_string s).

Definition bind_abc123 : string := wire "{'Op':'bind','SessionID':'abc123'}".

Definition request0 : Request :=
  mkRequest
    (fun name => if String.eqb name "namespace" then "default"
                 else if String.eqb name "pod" then "web-0" else "app")
    (fun _ => "").

Definition no_bash (req : ExecRequest) : option error :=
  if decide (Command req = ["bash"]) then Some (errorString "exec: bash not found")
  else None.

(** The session abc123 is registered with unbuffered channels, its
    coordinator waits, and two connections each bring a bind message for
    it.  The container has no bash. *)
Definition world0 : World :=
  registered "abc123" 0
    {[ 7%nat := mkSocket [(bind_abc123, None)] [] None;
       8%nat := mkSocket [(bind_abc123, None)] [] None ]}
    (fun _ => None) no_bash.

Definition system0 : System :=
  start world0 [WaitForTerminal request0 "abc123";
                handleTerminalSession 7%nat; handleTerminalSession 8%nat].

(** The coordinator reaches its receive, the binder of connection 7
    reads the bind message, finds the session and meets the coordinator
    on [bound]. *)
Definition handshake : list choice :=
  [Solo 0; Solo 1; Solo 1; Sync 1 0]%nat.

(** After the handshake the binder stores the session, then the
    coordinator runs to its end. *)
Definition lifecycle : list choice :=
  (handshake ++ [Solo 1] ++ replicate 10 (Solo 0))%list.

(** After the handshake the coordinator goes on first, up to the stream
    of its first shell; the binder stores the session only then. *)
Definition coordinator_first : list choice :=
  (handshake ++ replicate 5 (Solo 0) ++ [Solo 1])%list.

(** After a complete binding and the close of [bound], connection 8
    brings its bind message. *)
Definition second_bind : list choice :=
  (handshake ++ [Solo 1; Solo 0; Solo 0] ++ replicate 3 (Solo 2))%list.

(** Counting what happened in a run. *)
Inductive kind := KBoundRecv | KBoundSend | KStore | KOther.

Definition kind_of {X : Type} (e : effect X) : kind :=
  match e with
  | BoundRecv _ => KBoundRecv
  | BoundSend _ _ => KBoundSend
  | MapStore _ _ => KStore
  | _ => KOther
  end.

Definition event_kind (ev : event) : kind :=
  match ev with
  | EvBoundRecv _ _ => KBoundRecv
  | EvBoundSend _ _ => KBoundSend
  | EvStore _ _ => KStore
  | _ => KOther
  end.

#[global] Instance kind_eq_dec : EqDecision kind.
Proof. solve_decision. Defined.

Fixpoint count (k : kind) (tr : list (nat * event)) : nat :=
  match tr with
  | [] => 0
  | (_, ev) :: tr' => (if decide (event_kind ev = k) then 1 else 0) + count k tr'
  end%nat.

(** [budget r s t p]: on every path, [p] receives from a bound channel at
    most [r] times, sends on one at most [s] times, and stores a session
    at most [t] times more than it sends. *)
Fixpoint budget (r s t : nat) (p : prog unit) : Prop :=
  match p with
  | Ret _ => True
  | Do e k =>
    match kind_of e with
    | KBoundRecv => exists r', r = S r' /\ forall x, budget r' s t (k x)
    | KBoundSend => exists s', s = S s' /\ forall x, budget r s' (S t) (k x)
    | KStore => exists t', t = S t' /\ forall x, budget r s t' (k x)
    | KOther => forall x, budget r s t (k x)
    end
  end.

(** The commands streamed in a run, each with the connection of the
    session handed to the stream. *)
Fixpoint streamed (tr : list (nat * event)) : list (list string * option conn) :=
  match tr with
  | [] => []
  | (_, EvStream req pty _) :: tr' => (Command req, sockJSSession pty) :: streamed tr'
  | _ :: tr' => streamed tr'
  end.

(** The sizes sent on, and received from, the size channel [c]. *)
Definition sizes_sent (c : chan) (tr : list (nat * event)) : list TerminalSize :=
  omap (fun ev => match ev.2 with
                  | EvSizeSend (Some c') v => if decide (c' = c) then Some v else None
                  | _ => None
                  end) tr.

Definition sizes_received (c : chan) (tr : list (nat * event)) : list TerminalSize :=
  omap (fun ev => match ev.2 with
                  | EvSizeRecv (Some c') v => if decide (c' = c) then Some v else None
                  | _ => None
                  end) tr.

(** The value a message holds in a field. *)
Definition field_value (f : json.field) (m : TerminalMessage) : string + N :=
  match f with
  | json.FOp => inl (Op m)
  | json.FData => inl (Data m)
  | json.FSessionID => inl (SessionID m)
  | json.FRows => inr (Rows m)
  | json.FCols => inr (Cols m)
  end.

(** A stdout message whose data is the single byte 0xFF, which is not
    UTF-8: output of the process is arbitrary bytes (line 102). *)
Definition binary_output : TerminalMessage :=
  mkTerminalMessage "stdout" (String (json.chr 0xFF) "") "" 0 0.

(** The session abc123 once bound to connection 7, and messages of the
    client. *)
Definition session0 : TerminalSession :=
  mkTerminalSession "abc123" (Some 0%nat) (Some 7%nat) (Some 1%nat).

Definition stdin_hello : string := wire "{'Op':'stdin','Data':'hello world'}".
Definition stdin_accent : string := wire "{'Op':'stdin','Data':'héllo'}".
Definition resize_24_80 : string := wire "{'Op':'resize','Rows':24,'Cols':80}".
Definition bind_unknown : string := wire "{'Op':'bind','SessionID':'doesnotexist'}".

(** A buffer of four bytes, and one of two. *)
Definition buffer4 : list Byte.byte := replicate 4 Byte.x00.
Definition buffer2 : list Byte.byte := replicate 2 Byte.x00.

(** Connection 7 brings a long stdin message; connection 9 a bind
    message for a session that was never registered. *)
Definition world1 : World :=
  registered "abc123" 0
    {[ 7%nat := mkSocket [(stdin_hello, None)] [] None;
       9%nat := mkSocket [(bind_unknown, None)] [] None ]}
    (fun _ => None) no_bash.

(** What the goroutine [i] did in a run. *)
Definition events_of (i : nat) (r : option System) : list event :=
  match r with
  | Some s => omap (fun ev => if decide (ev.1 = i) then Some ev.2 else None) (trace s)
  | None => []
  end.

(** Connection 7 brings a stdin message whose data has a character of
    two bytes. *)
Definition world2 : World :=
  registered "abc123" 0
    {[ 7%nat := mkSocket [(stdin_accent, None)] [] None ]}
    (fun _ => None) no_bash.

(** A container without bash, and one whose bash runs and ends with a
    non-zero exit status. *)
Definition bash_missing (req : ExecRequest) : outcome :=
  if decide (Command req = ["bash"]) then NotStarted (errorString "exec: bash not found")
  else Exited None.

Definition bash_exits (req : ExecRequest) : outcome :=
  if decide (Command req = ["bash"])
  then Exited (Some (errorString "command terminated with exit code 1"))
  else Exited None.

Definition world4 : World :=
  registered "abc123" 0 ∅ (fun _ => None) (fun req => stream_error (bash_exits req)).





(** A message with every field set, some of it outside ASCII. *)
Definition message0 : TerminalMessage :=
  mkTerminalMessage "resize" "héllo <wörld> & more" "abc123" 24 80.

(** *** What a step is, and what the runs keep

    [stepped s s']: the system went from [s] to [s'] by one step, said as
    a relation: a goroutine performed its next operation and got an
    answer, or panicked on it, or a sender and a receiver met on a bound
    channel or on a size channel. *)
Inductive stepped (s s' : System) : Prop :=
| stepped_value i X (e : effect X) k x w' :
    pool s !! i = Some (Running (Do e k)) ->
    perform e (world s) = Value x w' ->
    s' = mkSystem w' (<[i := Running (k x)]> (pool s))
           (trace s ++ [(i, event_of e x)]) ->
    stepped s s'
| stepped_panic i X (e : effect X) k msg :
    pool s !! i = Some (Running (Do e k)) ->
    perform e (world s) = Panic msg ->
    s' = mkSystem (world s) (<[i := Crashed msg]> (pool s)) (trace s) ->
    stepped s s'
| stepped_bound i j c x ki kj ch :
    i <> j ->
    pool s !! i = Some (Running (Do (BoundSend (Some c) x) ki)) ->
    pool s !! j = Some (Running (Do (BoundRecv (Some c)) kj)) ->
    boundChans (world s) !! c = Some ch -> closed ch = false -> buf ch = [] ->
    s' = mkSystem (world s)
           (<[j := Running (kj x)]> (<[i := Running (ki tt)]> (pool s)))
           (trace s ++ [(i, EvBoundSend (Some c) x); (j, EvBoundRecv (Some c) x)]) ->
    stepped s s'
| stepped_size i j c x ki kj ch :
    i <> j ->
    pool s !! i = Some (Running (Do (SizeSend (Some c) x) ki)) ->
    pool s !! j = Some (Running (Do (SizeRecv (Some c)) kj)) ->
    sizeChans (world s) !! c = Some ch -> closed ch = false -> buf ch = [] ->
    s' = mkSystem (world s)
           (<[j := Running (kj x)]> (<[i := Running (ki tt)]> (pool s)))
           (trace s ++ [(i, EvSizeSend (Some c) x); (j, EvSizeRecv (Some c) x)]) ->
    stepped s s'.


(** The operations of the launcher. *)
Definition launcher_event (ev : event) : Prop :=
  match ev with
  | EvLoad _ _ | EvNewExecutor _ _ | EvStream _ _ _ => True
  | _ => False
  end.

Definition thread_never_deletes (t : thread) : Prop :=
  match t with
  | Running p => never_deletes p
  | Crashed _ => True
  end.


(** A goroutine's allowance, as (receives, sends, stores), for
    [budget]. *)
Local Abbreviation ghost := (nat * nat * nat)%type.

Definition within (g : ghost) (t : thread) : Prop :=
  match t with
  | Running p => budget g.1.1 g.1.2 g.2 p
  | Crashed _ => True
  end.

Definition receives (gs : list ghost) : nat := sum_list ((fun g : ghost => g.1.1) <$> gs).
Definition credits (gs : list ghost) : nat := sum_list ((fun g : ghost => g.2) <$> gs).


(** Every bound channel is unbuffered, with nothing in it. *)
Definition unbuffered (w : World) : Prop :=
  forall c ch, boundChans w !! c = Some ch -> cap ch = 0%nat /\ buf ch = [].

(** The invariant: the receives done and still possible are at most [n],
    the stores done and the credits left are the sends done, and every
    send met a receive. *)
Definition single_shot (n : nat) (s : System) : Prop :=
  unbuffered (world s) /\
  exists gs,
    Forall2 within gs (pool s) /\
    (count KBoundRecv (trace s) + receives gs <= n)%nat /\
    (count KStore (trace s) + credits gs = count KBoundSend (trace s))%nat /\
    (count KBoundSend (trace s) <= count KBoundRecv (trace s))%nat.


(** Every size channel is open, and what was sent on it is what was
    received from it followed by what it still holds. *)
Definition size_queues (s : System) : Prop :=
  forall c ch,
    sizeChans (world s) !! c = Some ch ->
    closed ch = false /\
    sizes_sent c (trace s) = (sizes_received c (trace s) ++ buf ch)%list.

(** *** The rest of the file: what the properties below speak of *)

(** The two digits [hex.Encode] writes for a byte. *)
Definition digits (v : Byte.byte) : list Byte.byte :=
  [hex.digit (N.shiftr (Byte.to_N v) 4); hex.digit (N.land (Byte.to_N v) 0x0f)].

(** The string a client decodes from what [json.Marshal] wrote for [s]:
    every byte that is not part of a valid UTF-8 sequence has become
    U+FFFD, as in [json.quote_body]. *)
Fixpoint coerce (s : string) : string :=
  match s with
  | "" => ""
  | String c0 s1 =>
    if json.code c0 <? 0x80 then String c0 (coerce s1) else
    match s1 with
    | "" => json.replacement
    | String c1 s2 =>
      if json.valid2 c0 c1 then String c0 (String c1 (coerce s2)) else
      match s2 with
      | "" => json.replacement +:+ coerce s1
      | String c2 s3 =>
        if json.valid3 c0 c1 c2 then String c0 (String c1 (String c2 (coerce s3))) else
        match s3 with
        | "" => json.replacement +:+ coerce s1
        | String c3 s4 =>
          if json.valid4 c0 c1 c2 c3
          then String c0 (String c1 (String c2 (String c3 (coerce s4))))
          else json.replacement +:+ coerce s1
        end
      end
    end
  end.

(** Two sessions that differ at most in their connection. *)
Definition same_session (t t' : TerminalSession) : Prop :=
  id t = id t' /\ bound t = bound t' /\ sizeChan t = sizeChan t'.

(** [rebinds m p]: if every lookup is answered by an entry of [m], up to
    its connection, then on every path [p] stores under a key only the
    entry [m] has there, up to its connection, and deletes nothing. *)
Fixpoint rebinds (m : gmap string TerminalSession) {R : Type} (p : prog R) : Prop :=
  match p with
  | Ret _ => True
  | Do e k =>
    match e with
    | MapStore key v => exists t, m !! key = Some t /\ same_session t v
    | MapDelete _ => False
    | _ => True
    end /\
    forall x,
      match event_of e x with
      | EvLoad key r => option_Forall2 same_session (m !! key) r
      | _ => True
      end -> rebinds m (k x)
  end.

Definition thread_rebinds (m : gmap string TerminalSession) (t : thread) : Prop :=
  match t with
  | Running p => rebinds m p
  | Crashed _ => True
  end.

(** The invariant: the registry is [m] up to the connections, and every
    goroutine keeps it so. *)
Definition stable (m : gmap string TerminalSession) (s : System) : Prop :=
  (forall key, option_Forall2 same_session (m !! key) (terminalSessions (world s) !! key)) /\
  Forall (thread_rebinds m) (pool s).

(** A goroutine that stands at a receive from the nil channel. *)
Definition at_nil_recv (p : prog unit) : Prop :=
  match p with
  | Do (BoundRecv None) _ => True
  | _ => False
  end.

(** A goroutine that stands at the lookup of [sessionId] and, if it
    finds nothing, goes on to a receive from the nil channel. *)
Definition at_load (sessionId : string) (p : prog unit) : Prop :=
  match p with
  | Ret _ => False
  | Do e k =>
    match e with MapLoad key => key = sessionId | _ => False end /\
    forall x, event_of e x = EvLoad sessionId None -> at_nil_recv (k x)
  end.

(** The goroutine 0 has done nothing but, at most, a lookup of
    [sessionId] that found nothing, and waits. *)
Definition waits_forever (sessionId : string) (s : System) : Prop :=
  exists p, pool s !! 0%nat = Some (Running p) /\
    ((at_load sessionId p /\ events_of 0 (Some s) = []) \/
     (at_nil_recv p /\ events_of 0 (Some s) = [EvLoad sessionId None])).

(** Among the events [seen], the connection [c] delivered a message that
    decodes to a bind for [key]. *)
Definition bind_received (seen : list event) (c : conn) (key : string) : Prop :=
  exists m msg,
    EvRecv (Some c) m None ∈ seen /\
    json.Unmarshal m zeroMessage = (msg, None) /\
    Op msg = "bind" /\ SessionID msg = key.

(** [vouched seen p]: after the events [seen], on every path [p] stores a
    session with a connection only under a key that this connection
    sent a bind for. *)
Fixpoint vouched (seen : list event) (p : prog unit) : Prop :=
  match p with
  | Ret _ => True
  | Do e k =>
    match e with
    | MapStore key v => forall c, sockJSSession v = Some c -> bind_received seen c key
    | _ => True
    end /\
    forall x, vouched (seen ++ [event_of e x]) (k x)
  end.

Definition thread_vouched (seen : list event) (t : thread) : Prop :=
  match t with
  | Running p => vouched seen p
  | Crashed _ => True
  end.

(** The invariant: a connection of the registry was there in [m], or sent
    a bind for the key it is under. *)
Definition attached_by_bind (m : gmap string TerminalSession) (s : System) : Prop :=
  (forall key t c,
     terminalSessions (world s) !! key = Some t -> sockJSSession t = Some c ->
     (exists t0, m !! key = Some t0 /\ sockJSSession t0 = Some c) \/
     bind_received (trace s).*2 c key) /\
  Forall (thread_vouched (trace s).*2) (pool s).

(** [always P p]: every operation [p] performs, on every path and with
    every answer, satisfies [P]. *)
Fixpoint always (P : event -> Prop) {R : Type} (p : prog R) : Prop :=
  match p with
  | Ret _ => True
  | Do e k => forall x, P (event_of e x) /\ always P (k x)
  end.

Definition thread_always (P : event -> Prop) (t : thread) : Prop :=
  match t with
  | Running p => always P p
  | Crashed _ => True
  end.

(** A call of the remote executor is for bash or for sh, on a terminal,
    with the three streams. *)
Definition allowed_exec (ev : event) : Prop :=
  match ev with
  | EvNewExecutor req _ | EvStream req _ _ =>
    (Command req = ["bash"] \/ Command req = ["sh"]) /\
    Stdin req = true /\ Stdout req = true /\ Stderr req = true /\ TTY req = true
  | _ => True
  end.

(** Among the events [seen], some connection delivered a bind for a key
    under which [m] has a session with the bound channel [b]. *)
Definition signalled (m : gmap string TerminalSession) (seen : list event) (b : chan) : Prop :=
  exists key t c, m !! key = Some t /\ bound t = Some b /\ bind_received seen c key.

(** Some connection delivered a bind for [sessionId]. *)
Definition released (sessionId : string) (seen : list event) : Prop :=
  exists c, bind_received seen c sessionId.

(** The operations of [startProcess] on the remote side. *)
Definition launching (ev : event) : Prop :=
  match ev with
  | EvNewExecutor _ _ | EvStream _ _ _ => True
  | _ => False
  end.

Definition monotone (Q : list event -> Prop) : Prop :=
  forall seen seen', seen ⊆ seen' -> Q seen -> Q seen'.

(** [guarded m Q seen p]: given that lookups are answered by entries of
    [m], up to their connection, and that a receive from a bound channel
    returns only once a bind for its session has been delivered, on every
    path [p] sends on a bound channel, or closes one, only after such a
    bind, and calls the remote executor only when [Q] holds of the events
    so far.  A send or a receive on the nil channel does not return. *)
Fixpoint guarded (m : gmap string TerminalSession) (Q : list event -> Prop)
  (seen : list event) (p : prog unit) : Prop :=
  match p with
  | Ret _ => True
  | Do e k =>
    match e with
    | BoundSend (Some b) _ | BoundClose (Some b) => signalled m seen b
    | NewExecutor _ | Stream _ _ => Q seen
    | _ => True
    end /\
    forall x seen',
      (seen ++ [event_of e x])%list ⊆ seen' ->
      match event_of e x with
      | EvLoad key r => option_Forall2 same_session (m !! key) r
      | EvBoundRecv (Some b) _ => signalled m seen' b
      | EvBoundRecv None _ | EvBoundSend None _ => False
      | _ => True
      end -> guarded m Q seen' (k x)
  end.

Definition thread_guarded (m : gmap string TerminalSession) (Q : list event -> Prop)
  (seen : list event) (t : thread) : Prop :=
  match t with
  | Running p => guarded m Q seen p
  | Crashed _ => True
  end.

(** What the goroutine [i] has to wait for before it calls the executor:
    the coordinator, goroutine 0, for a bind for its session. *)
Definition goal_of (sessionId : string) (i : nat) : list event -> Prop :=
  if decide (i = 0%nat) then released sessionId else fun _ => True.

(** A bound channel from which a receive returns. *)
Definition ready (ch : channel (option error)) : Prop :=
  closed ch = true \/ buf ch <> [].

(** The invariant: a bound channel is ready only after a bind for its
    session, every goroutine is guarded, and the coordinator has called
    the executor only after a bind for its session. *)
Definition launch_guard (m : gmap string TerminalSession) (sessionId : string)
  (s : System) : Prop :=
  stable m s /\
  (forall b ch, boundChans (world s) !! b = Some ch -> ready ch ->
                signalled m (trace s).*2 b) /\
  (forall i t, pool s !! i = Some t ->
               thread_guarded m (goal_of sessionId i) (trace s).*2 t) /\
  (forall ev, (0%nat, ev) ∈ trace s -> launching ev -> released sessionId (trace s).*2).

(** On no path does [p] touch a bound channel. *)
Fixpoint off_bound {R : Type} (p : prog R) : Prop :=
  match p with
  | Ret _ => True
  | Do e k =>
    match e with
    | BoundSend _ _ | BoundRecv _ | BoundClose _ => False
    | _ => True
    end /\
    forall x, off_bound (k x)
  end.

(** Lines 255-280: the coordinator once it has received from [bound]. *)
Definition afterBind (request : Request) (sessionId : string) : prog unit :=
  t <- load sessionId ;;
  call (BoundClose (bound t)) ;;
  err <- launchShell request sessionId (QueryParameter request "shell") ;;
  match err with
  | Some e =>
    t <- load sessionId ;;
    Close t 2 (Error e)
  | None =>
    t <- load sessionId ;;
    Close t 1 "Process exited"
  end.

(** What the launcher returns in the world [w] (lines 260-272). *)
Definition launched (w : World) (request : Request) : option error :=
  let shell := QueryParameter request "shell" in
  if isValidShell ["bash"; "sh"] shell then started w request [shell]
  else match started w request ["bash"] with
       | None => None
       | Some _ => started w request ["sh"]
       end.

(** An operation of the launcher that hands [t], if anything, to the stream. *)
Definition launches_with (t : TerminalSession) (ev : event) : Prop :=
  match ev with
  | EvLoad _ _ | EvNewExecutor _ _ => True
  | EvStream _ pty _ => pty = t
  | _ => False
  end.

(** The status and the reason of the close, from what the launcher
    returned (lines 274-279). *)
Definition close_of (err : option error) : N * string :=
  match err with
  | Some e => (2, Error e)
  | None => (1, "Process exited")
  end.

(** [prepared i seen p]: after the steps [seen], on every path the
    goroutine [i] starts a stream only for a request for which it has
    created an executor without error. *)
Fixpoint prepared (i : nat) (seen : list (nat * event)) (p : prog unit) : Prop :=
  match p with
  | Ret _ => True
  | Do e k =>
    match e with
    | Stream req _ => (i, EvNewExecutor req None) ∈ seen
    | _ => True
    end /\
    forall x, prepared i (seen ++ [(i, event_of e x)]) (k x)
  end.

Definition thread_prepared (i : nat) (seen : list (nat * event)) (t : thread) : Prop :=
  match t with
  | Running p => prepared i seen p
  | Crashed _ => True
  end.

(** Every stream of the trace comes after the creation of an executor,
    without error, for the same request by the same goroutine. *)
Definition streams_prepared (tr : list (nat * event)) : Prop :=
  forall n i req pty err,
    tr !! n = Some (i, EvStream req pty err) ->
    (i, EvNewExecutor req None) ∈ take n tr.

Definition all_prepared (s : System) : Prop :=
  (forall i t, pool s !! i = Some t -> thread_prepared i (trace s) t) /\
  streams_prepared (trace s).

(** ** Properties *)

Lemma returns_bind {A B : Type} (p : prog A) (f : A -> prog B) tr r :
  returns (bind p f) tr r <->
  exists a tr1 tr2, tr = (tr1 ++ tr2)%list /\ returns p tr1 a /\ returns (f a) tr2 r.
Proof.
  revert tr. induction p as [a|X e k IH]; intros tr; simpl.
  - split.
    + intros H. exists a, [], tr. auto.
    + intros (a' & tr1 & tr2 & -> & [-> ->] & H). exact H.
  - split.
    + intros (Ha & x & tr' & -> & H). apply IH in H as (a & tr1 & tr2 & -> & H1 & H2).
      exists a, (event_of e x :: tr1), tr2. split; [done|]. split; [|done].
      split; [done|]. by exists x, tr1.
    + intros (a & tr1 & tr2 & -> & (Ha & x & tr' & -> & H1) & H2).
      split; [done|]. exists x, (tr' ++ tr2)%list. split; [done|].
      apply IH. by exists a, tr', tr2.
Qed.

Lemma returns_call {X : Type} (e : effect X) tr x :
  returns (call e) tr x <-> answers e = true /\ tr = [event_of e x].
Proof.
  unfold call. simpl. split.
  - intros (Ha & x' & tr' & -> & -> & ->). done.
  - intros (Ha & ->). split; [done|]. by exists x, [].
Qed.

Lemma Read_returns t p c z :
  sockJSSession t = Some c -> sizeChan t = Some z ->
  forall tr res,
    returns (Read t p) tr res <->
    exists m err rest,
      tr = EvRecv (Some c) m err :: rest /\ Read_spec t p m err rest res.
Proof.
  intros Hc Hz tr res. unfold Read. rewrite Hc. simpl. split.
  - intros (_ & [m err] & tr' & -> & H). exists m, err, tr'. split; [done|].
    simpl in H. destruct err as [e|].
    + destruct H as [-> ->]. constructor.
    + destruct (json.Unmarshal m zeroMessage) as [msg derr] eqn:Hd.
      destruct derr as [e|].
      * destruct H as [-> ->]. by eapply Read_decode_failure.
      * destruct (decide (Op msg = "stdin")) as [Hs|Hs].
        { destruct (copy p (Data msg)) as [n p'] eqn:Hcp. destruct H as [-> ->].
          replace p' with (copy p (Data msg)).2 by (by rewrite Hcp).
          replace n with (copy p (Data msg)).1 by (by rewrite Hcp).
          by eapply Read_stdin. }
        destruct (decide (Op msg = "resize")) as [Hr|Hr].
        { simpl in H. destruct H as (_ & [] & tr'' & -> & -> & ->).
          by eapply Read_resize. }
        destruct H as [-> ->]. by eapply Read_other.
  - intros (m & err & rest & -> & H). split; [done|].
    exists (m, err), rest. split; [done|]. simpl.
    inversion H; subst; clear H.
    + done.
    + rewrite H0. done.
    + rewrite H0. rewrite decide_True by done.
      unfold copy; simpl; done.
    + rewrite H0. rewrite decide_False by (rewrite H1; discriminate).
      rewrite decide_True by done. simpl. rewrite Hz. split; [done|].
      by exists tt, [].
    + rewrite H0. rewrite decide_False by done. by rewrite decide_False by done.
Qed.

Lemma perform_SockRecv w c k x rest :
  sockets w !! c = Some k -> inbox k = x :: rest ->
  perform (SockRecv (Some c)) w =
  Value x (set_socket w c (mkSocket rest (outbox k) (closeFrame k))).
Proof. intros Hk Hi. simpl. by rewrite Hk, Hi. Qed.

(** C2.  After the transport has handed [m] and [err] to [Read], [Read]
    does return, and: when the message decodes to a stdin message, the
    first min(len p, len Data) bytes of Data are in [p] and that count is
    returned with no error; when it decodes to a resize message, the size
    is sent on the size channel and (0, nil) is returned; on a receive
    failure, a decode failure or any other operation, 0 and an error are
    returned and [p] is as it was. *)
Theorem Read_by_operation t p c z m err :
  sockJSSession t = Some c -> sizeChan t = Some z ->
  (exists rest res, returns (Read t p) (EvRecv (Some c) m err :: rest) res) /\
  forall rest res,
    returns (Read t p) (EvRecv (Some c) m err :: rest) res ->
    let (msg, derr) := json.Unmarshal m zeroMessage in
    match err, derr with
    | None, None =>
      if decide (Op msg = "stdin") then
        let n := Nat.min (length p) (String.length (Data msg)) in
        rest = [] /\
        res = ((take n (list_byte_of_string (Data msg)) ++ drop n p)%list, (n, None))
      else if decide (Op msg = "resize") then
        rest = [EvSizeSend (Some z) (mkTerminalSize (Cols msg) (Rows msg))] /\
        res = (p, (0%nat, None))
      else rest = [] /\ res.1 = p /\ res.2.1 = 0%nat /\ res.2.2 <> None
    | _, _ => rest = [] /\ res.1 = p /\ res.2.1 = 0%nat /\ res.2.2 <> None
    end.
Proof.
  intros Hc Hz. split.
  - destruct err as [e|].
    { exists [], (p, (0%nat, Some e)). apply (Read_returns t p c z Hc Hz).
      exists m, (Some e), []. split; [done|]. constructor. }
    destruct (json.Unmarshal m zeroMessage) as [msg derr] eqn:Hd.
    destruct derr as [e|].
    { exists [], (p, (0%nat, Some e)). apply (Read_returns t p c z Hc Hz).
      exists m, None, []. split; [done|]. by eapply Read_decode_failure. }
    destruct (decide (Op msg = "stdin")) as [Hs|Hs].
    { eexists [], _. apply (Read_returns t p c z Hc Hz).
      exists m, None, []. split; [done|]. by eapply Read_stdin. }
    destruct (decide (Op msg = "resize")) as [Hr|Hr].
    { eexists _, _. apply (Read_returns t p c z Hc Hz).
      eexists m, None, _. split; [done|]. by eapply Read_resize. }
    eexists [], _. apply (Read_returns t p c z Hc Hz).
    exists m, None, []. split; [done|]. by eapply Read_other.
  - intros rest res H. apply (Read_returns t p c z Hc Hz) in H.
    destruct H as (m' & err' & rest' & Heq & H). injection Heq as <- <- <-.
    inversion H; subst; clear H.
    + by destruct (json.Unmarshal m zeroMessage).
    + by rewrite H0.
    + rewrite H0. by rewrite decide_True by done.
    + rewrite H0. rewrite decide_False by (rewrite H1; discriminate).
      rewrite decide_True by done. by rewrite Hz.
    + rewrite H0. by rewrite !decide_False by done.
Qed.

Lemma length_list_byte_of_string s :
  length (list_byte_of_string s) = String.length s.
Proof.
  unfold list_byte_of_string. rewrite List.length_map.
  induction s as [|a s IH]; simpl; [done|]. by rewrite IH.
Qed.

Lemma exec_bind {A B : Type} (p : prog A) (f : A -> prog B) w :
  exec (bind p f) w =
  match exec p w with
  | (tr, Value a w') => let (tr', o) := exec (f a) w' in ((tr ++ tr')%list, o)
  | (tr, Panic msg) => (tr, Panic msg)
  | (tr, Blocked) => (tr, Blocked)
  end.
Proof.
  revert w. induction p as [a|X e k IH]; intros w; cbn [bind exec].
  - by destruct (exec (f a) w).
  - destruct (perform e w) as [x w1|msg|]; [|done|done].
    rewrite IH. destruct (exec (k x) w1) as [tr [a w2|msg|]]; [|done|done].
    by destruct (exec (f a) w2).
Qed.

(** C10.  A stdin message whose Data is longer than the buffer fills the
    buffer with the first len(p) bytes of Data and returns len(p),
    wherever in Data the buffer ends.  Whatever is done afterwards, every
    later call of [Read] included, starts from those bytes, that count
    and a state in which the message is gone from the connection and
    nothing else has changed: the bytes beyond the buffer are kept
    nowhere.  Any other stdin message with the same first len(p) bytes
    leaves the same result and the same state. *)
Theorem Read_drops_overflow w t p c k m rest msg :
  sockJSSession t = Some c ->
  sockets w !! c = Some k -> inbox k = (m, None) :: rest ->
  json.Unmarshal m zeroMessage = (msg, None) -> Op msg = "stdin" ->
  (length p < String.length (Data msg))%nat ->
  let first := take (length p) (list_byte_of_string (Data msg)) in
  let after := set_socket w c (mkSocket rest (outbox k) (closeFrame k)) in
  exec (Read t p) w = ([EvRecv (Some c) m None], Value (first, (length p, None)) after) /\
  (forall (R : Type) (later : list Byte.byte * (nat * option error) -> prog R),
     exec (r <- Read t p ;; later r) w
     = let (tr, o) := exec (later (first, (length p, None))) after in
       (EvRecv (Some c) m None :: tr, o)) /\
  (forall m' msg',
     json.Unmarshal m' zeroMessage = (msg', None) -> Op msg' = "stdin" ->
     take (length p) (list_byte_of_string (Data msg')) = first ->
     exec (Read t p)
       (set_socket w c (mkSocket ((m', None) :: rest) (outbox k) (closeFrame k)))
     = ([EvRecv (Some c) m' None], Value (first, (length p, None)) after)).
Proof.
  intros Hc Hk Hi Hd Hop Hlen first after.
  pose proof (length_list_byte_of_string (Data msg)) as Hl.
  assert (H1 : exec (Read t p) w
               = ([EvRecv (Some c) m None], Value (first, (length p, None)) after)).
  { unfold Read. rewrite Hc. cbn [bind call exec].
    rewrite (perform_SockRecv w c k (m, None) rest Hk Hi).
    cbn [bind exec]. rewrite Hd. rewrite decide_True by done.
    unfold copy. cbn [exec event_of fst snd].
    rewrite Nat.min_l by lia. rewrite drop_all, app_nil_r. done. }
  split; [exact H1|]. split.
  - intros R later. rewrite exec_bind, H1. cbn [app].
    by destruct (exec (later (first, (length p, None))) after).
  - intros m' msg' Hd' Hop' Hfirst.
    assert (Hl' : (length p <= String.length (Data msg'))%nat).
    { rewrite <- length_list_byte_of_string.
      apply (f_equal length) in Hfirst. unfold first in Hfirst.
      rewrite !length_take in Hfirst. lia. }
    unfold Read. rewrite Hc. cbn [bind call exec].
    erewrite perform_SockRecv; [| apply lookup_insert_eq | reflexivity].
    cbn [bind exec outbox closeFrame]. rewrite Hd'. rewrite decide_True by done.
    unfold copy. cbn [exec event_of fst snd].
    rewrite Nat.min_l by lia. rewrite drop_all, app_nil_r, Hfirst.
    unfold after, set_socket. cbn [terminalSessions boundChans sizeChans sockets executor remote].
    by rewrite insert_insert_eq.
Qed.

(** C7.  When the first message of a connection is a receive failure,
    does not decode, is not a bind, or names a session the registry does
    not hold, the binder returns having only read and logged: the world
    it leaves is the one it found less that first message, so no session
    is created or changed, no bound channel is signalled and nothing is
    sent or closed on the connection. *)
Theorem handleTerminalSession_drops w c k m err rest :
  sockets w !! c = Some k -> inbox k = (m, err) :: rest ->
  err <> None \/
  (json.Unmarshal m zeroMessage).2 <> None \/
  Op (json.Unmarshal m zeroMessage).1 <> "bind" \/
  terminalSessions w !! SessionID (json.Unmarshal m zeroMessage).1 = None ->
  exists tr,
    exec (handleTerminalSession c) w
    = (tr, Value tt (set_socket w c (mkSocket rest (outbox k) (closeFrame k)))) /\
    Forall quiet tr.
Proof.
  intros Hk Hi Hbad. unfold handleTerminalSession. cbn [bind call exec].
  rewrite (perform_SockRecv w c k (m, err) rest Hk Hi). cbn [bind exec].
  destruct err as [e|].
  { eexists. split; [reflexivity|]. repeat constructor. }
  destruct (json.Unmarshal m zeroMessage) as [msg derr] eqn:Hd. simpl in Hbad.
  destruct derr as [e|].
  { eexists. split; [reflexivity|]. repeat constructor. }
  destruct (decide (Op msg <> "bind")) as [Hop|Hop].
  { eexists. split; [reflexivity|]. repeat constructor. }
  destruct Hbad as [H|[H|[H|H]]]; try done.
  cbn [bind call exec perform set_socket terminalSessions]. rewrite H.
  eexists. split; [reflexivity|]. repeat constructor.
Qed.

(** *** The launcher and the close *)

Lemma startProcess_returns request cmd pty tr err :
  returns (startProcess request cmd pty) tr err <->
  (exists e, err = Some e /\ tr = [EvNewExecutor (execRequest request cmd) (Some e)]) \/
  tr = [EvNewExecutor (execRequest request cmd) None;
        EvStream (execRequest request cmd) pty err].
Proof.
  unfold startProcess. simpl. split.
  - intros (_ & [e|] & tr' & -> & H); simpl in H.
    + destruct H as [-> ->]. left. by exists e.
    + destruct H as (_ & [e|] & tr'' & -> & [-> ->]); by right.
  - intros [(e & He & Htr) | Htr]; subst; (split; [done|]).
    + by exists (Some e), [].
    + exists None, [EvStream (execRequest request cmd) pty err]. split; [done|].
      simpl. split; [done|]. exists err, []. by destruct err.
Qed.

Lemma load_returns key tr t :
  returns (load key) tr t <-> exists r, tr = [EvLoad key r] /\ t = default zeroSession r.
Proof.
  unfold load. simpl. split.
  - intros (_ & r & tr' & -> & -> & ->). by exists r.
  - intros (r & -> & ->). split; [done|]. by exists r, [].
Qed.

Lemma attempts_app tr1 tr2 : attempts (tr1 ++ tr2) = (attempts tr1 ++ attempts tr2)%list.
Proof.
  induction tr1 as [|ev tr1 IH]; [done|]. simpl.
  destruct ev; try done; try (by rewrite IH).
  destruct err; [by rewrite IH|done].
Qed.

Lemma closes_app tr1 tr2 : closes (tr1 ++ tr2) = (closes tr1 ++ closes tr2)%list.
Proof.
  induction tr1 as [|ev tr1 IH]; [done|]. simpl. destruct ev; try done.
  by rewrite IH.
Qed.

Lemma startProcess_events request cmd pty tr err :
  returns (startProcess request cmd pty) tr err ->
  Forall launcher_event tr /\ attempts tr = [(cmd, err)].
Proof.
  intros H. apply startProcess_returns in H as [(e & He & Htr) | Htr]; subst.
  - split; [repeat constructor|done].
  - split; [repeat constructor|done].
Qed.

Lemma tryShells_events request sessionId shells err0 tr err :
  returns (tryShells request sessionId shells err0) tr err ->
  Forall launcher_event tr.
Proof.
  revert err0 tr. induction shells as [|sh shells IH]; intros err0 tr H.
  - simpl in H. destruct H as [-> _]. constructor.
  - cbn [tryShells] in H. apply returns_bind in H as (t & tr1 & tr2 & -> & H1 & H2).
    apply load_returns in H1 as (r & -> & ->).
    apply returns_bind in H2 as (e1 & tr3 & tr4 & -> & H3 & H4).
    apply startProcess_events in H3 as [H3 _].
    constructor; [done|]. apply Forall_app. split; [done|].
    destruct e1 as [e|].
    + by eapply IH.
    + simpl in H4. destruct H4 as [-> _]. constructor.
Qed.

Lemma launchShell_events request sessionId shell tr err :
  returns (launchShell request sessionId shell) tr err -> Forall launcher_event tr.
Proof.
  unfold launchShell. destruct (isValidShell _ shell).
  - intros H. apply returns_bind in H as (t & tr1 & tr2 & -> & H1 & H2).
    apply load_returns in H1 as (r & -> & ->).
    apply startProcess_events in H2 as [H2 _]. by constructor.
  - apply tryShells_events.
Qed.

Lemma launcher_event_closes tr : Forall launcher_event tr -> closes tr = [].
Proof.
  induction 1 as [|ev tr Hev _ IH]; [done|]. by destruct ev.
Qed.

(** What a complete run of the coordinator looks like. *)
Lemma WaitForTerminal_returns request sessionId tr :
  returns (WaitForTerminal request sessionId) tr tt ->
  exists r1 c1 v r2 c2 tr_l err r3 s3 cerr,
    tr = ([EvLoad sessionId r1; EvBoundRecv c1 v; EvLoad sessionId r2; EvBoundClose c2]
          ++ tr_l
          ++ [EvLoad sessionId r3;
              EvClose s3
                (match err with Some _ => 2 | None => 1 end)
                (match err with Some e => Error e | None => "Process exited" end)
                cerr])%list /\
    returns (launchShell request sessionId (QueryParameter request "shell")) tr_l err.
Proof.
  unfold WaitForTerminal. intros H.
  apply returns_bind in H as (t1 & tr1 & tr2 & -> & H1 & H).
  apply load_returns in H1 as (r1 & -> & ->).
  apply returns_bind in H as (v & tr1 & tr3 & -> & H1 & H).
  apply returns_call in H1 as (_ & ->).
  apply returns_bind in H as (t2 & tr1 & tr4 & -> & H1 & H).
  apply load_returns in H1 as (r2 & -> & ->).
  apply returns_bind in H as ([] & tr1 & tr5 & -> & H1 & H).
  apply returns_call in H1 as (_ & ->).
  apply returns_bind in H as (err & tr_l & tr6 & -> & Hl & H).
  exists r1, (bound (default zeroSession r1)), v, r2, (bound (default zeroSession r2)), tr_l, err.
  destruct err as [e|].
  - apply returns_bind in H as (t3 & tr1 & tr7 & -> & H1 & H).
    apply load_returns in H1 as (r3 & -> & ->).
    unfold Close in H. apply returns_bind in H as (cerr & tr1 & tr8 & -> & H1 & H).
    apply returns_call in H1 as (_ & ->). simpl in H. destruct H as [-> _].
    exists r3, (sockJSSession (default zeroSession r3)), cerr. done.
  - apply returns_bind in H as (t3 & tr1 & tr7 & -> & H1 & H).
    apply load_returns in H1 as (r3 & -> & ->).
    unfold Close in H. apply returns_bind in H as (cerr & tr1 & tr8 & -> & H1 & H).
    apply returns_call in H1 as (_ & ->). simpl in H. destruct H as [-> _].
    exists r3, (sockJSSession (default zeroSession r3)), cerr. done.
Qed.

(** Whatever the launcher returned, the coordinator of a session with a
    connection can run on to its end; and a complete run of
    [WaitForTerminal] contains a run of the launcher and exactly one call
    of [Close] that returned: with status 2 and the text of the error
    when the launcher returned an error, with status 1 and the reason
    Process exited when it returned none. *)
Lemma WaitForTerminal_closes request sessionId :
  (forall t b c tr_l err,
     bound t = Some b -> sockJSSession t = Some c ->
     returns (launchShell request sessionId (QueryParameter request "shell")) tr_l err ->
     exists pre post,
       returns (WaitForTerminal request sessionId) (pre ++ tr_l ++ post)%list tt) /\
  (forall tr,
     returns (WaitForTerminal request sessionId) tr tt ->
     exists pre tr_l post err,
       tr = (pre ++ tr_l ++ post)%list /\
       returns (launchShell request sessionId (QueryParameter request "shell")) tr_l err /\
       closes tr = [match err with
                    | Some e => (2, Error e)
                    | None => (1, "Process exited")
                    end]).
Proof.
  split.
  - intros t b c tr_l err Hb Hc Hl.
    set (post := [EvLoad sessionId (Some t);
                  EvClose (Some c)
                    (match err with Some _ => 2 | None => 1 end)
                    (match err with Some e => Error e | None => "Process exited" end)
                    None]).
    exists [EvLoad sessionId (Some t); EvBoundRecv (Some b) None;
            EvLoad sessionId (Some t); EvBoundClose (Some b)], post.
    unfold WaitForTerminal, load. cbn [bind call returns app answers event_of].
    split; [done|]. eexists (Some t), _. split; [reflexivity|].
    change (default zeroSession (Some t)) with t. rewrite Hb.
    split; [done|]. eexists None, _. split; [reflexivity|].
    split; [done|]. eexists (Some t), _. split; [reflexivity|].
    change (default zeroSession (Some t)) with t. rewrite Hb.
    split; [done|]. eexists tt, _. split; [reflexivity|].
    apply returns_bind. exists err, tr_l, post. split; [done|]. split; [done|].
    unfold Close, post.
    destruct err as [e|]; cbn [bind call returns answers event_of];
      (split; [done|]); eexists (Some t), _; (split; [reflexivity|]);
      change (default zeroSession (Some t)) with t; rewrite Hc;
      (split; [done|]); eexists None, _; done.
  - intros tr H.
    apply WaitForTerminal_returns in H
      as (r1 & c1 & v & r2 & c2 & tr_l & err & r3 & s3 & cerr & -> & Hl).
    eexists _, tr_l, _, err. split; [reflexivity|]. split; [done|].
    rewrite !closes_app.
    rewrite (launcher_event_closes tr_l) by (by eapply launchShell_events).
    by destruct err.
Qed.

Lemma isValidShell_allowed shell :
  isValidShell ["bash"; "sh"] shell = true <-> shell = "bash" \/ shell = "sh".
Proof.
  cbn [isValidShell]. split.
  - destruct (String.eqb "bash" shell) eqn:Hb; [apply String.eqb_eq in Hb; by left|].
    destruct (String.eqb "sh" shell) eqn:Hs; [apply String.eqb_eq in Hs; by right|done].
  - intros [-> | ->]; reflexivity.
Qed.

Ltac launched_case Hfb Hfs :=
  eexists _, _; split; [reflexivity|]; split; [done|]; intros _;
  split; [done|]; split; [done|];
  split; [split; [try done; by intros []|try done; by intros [? ?]]|];
  intros Hbash Hsh r Hr;
  try discriminate Hsh; try discriminate Hr;
  try (destruct Hbash as [[? [=]]|[? [=]]]; fail);
  injection Hr as <-; cbn [processes omap list_omap]; rewrite ?Hfb, ?Hfs; done.

(** C5, as the code has it.  The launcher runs to its end in every world.
    A requested shell that is bash or sh is the one command attempted,
    and the launcher returns what that attempt returned.  For any other
    shell, the empty one included, bash is attempted first and the
    fallback stops there only when [startProcess] returned no error,
    which is when the executor was created and the command ran and ended
    without an error; in every other case sh is attempted too and the
    launcher returns what sh returned.  When bash could not be started
    and sh could, sh is the only command that ran in the container, and
    the launcher returns what the stream of sh returned.  [fate] says,
    for each command, whether its stream failed before the command ran
    or ended after it. *)
Theorem launchShell_selects w request sessionId shell fate :
  (forall req, remote w req = stream_error (fate req)) ->
  let bash := execRequest request ["bash"] in
  let sh := execRequest request ["sh"] in
  exists tr result,
    exec (launchShell request sessionId shell) w = (tr, Value result w) /\
    (shell = "bash" \/ shell = "sh" ->
     attempts tr = [([shell], started w request [shell])] /\
     result = started w request [shell]) /\
    (~ (shell = "bash" \/ shell = "sh") ->
     attempts tr =
     match started w request ["bash"] with
     | None => [(["bash"], None)]
     | Some e => [(["bash"], Some e); (["sh"], started w request ["sh"])]
     end /\
     result =
     match started w request ["bash"] with
     | None => None
     | Some _ => started w request ["sh"]
     end /\
     (started w request ["bash"] = None <->
      executor w bash = None /\ fate bash = Exited None) /\
     (is_Some (executor w bash) \/ (exists e, fate bash = NotStarted e) ->
      executor w sh = None ->
      forall r, fate sh = Exited r ->
      processes fate tr = [["sh"]] /\ result = r)).
Proof.
  intros Hfate bash sh. subst bash sh. pose proof (isValidShell_allowed shell) as Hiff.
  unfold launchShell, started. destruct (isValidShell ["bash"; "sh"] shell).
  - assert (Hd : shell = "bash" \/ shell = "sh") by (by apply Hiff).
    unfold startProcess, load. cbn [bind call exec perform event_of].
    destruct (executor w (execRequest request [shell])) as [e|].
    + eexists _, _. split; [reflexivity|]. split; [done|]. by intros [].
    + cbn [bind call exec perform event_of].
      destruct (remote w (execRequest request [shell]));
        (eexists _, _; split; [reflexivity|]; split; [done|]; by intros []).
  - assert (Hn : ~ (shell = "bash" \/ shell = "sh")).
    { intros Hd. apply Hiff in Hd. discriminate Hd. }
    unfold tryShells, startProcess, load. cbn [bind call exec perform event_of].
    rewrite !Hfate.
    destruct (executor w (execRequest request ["bash"])) as [e|] eqn:Hfb.
    { cbn [bind call exec perform event_of].
      destruct (executor w (execRequest request ["sh"])) as [e'|] eqn:Hxs;
        [launched_case Hfb Hfb|].
      cbn [bind call exec perform event_of]. rewrite Hfate.
      destruct (fate (execRequest request ["sh"])) as [es|[es|]] eqn:Hfs;
        cbn [stream_error].
      all: launched_case Hfb Hfs.
    }
    cbn [bind call exec perform event_of]. rewrite Hfate.
    destruct (fate (execRequest request ["bash"])) as [eb|[eb|]] eqn:Hfb';
      cbn [stream_error bind call exec perform event_of].
    + 
      destruct (executor w (execRequest request ["sh"])) as [e'|] eqn:Hxs;
        [launched_case Hfb' Hfb'|].
      cbn [bind call exec perform event_of]. rewrite Hfate.
      destruct (fate (execRequest request ["sh"])) as [es|[es|]] eqn:Hfs;
        cbn [stream_error]; launched_case Hfb' Hfs.
    + 
      destruct (executor w (execRequest request ["sh"])) as [e'|] eqn:Hxs;
        [launched_case Hfb' Hfb'|].
      cbn [bind call exec perform event_of]. rewrite Hfate.
      destruct (fate (execRequest request ["sh"])) as [es|[es|]] eqn:Hfs;
        cbn [stream_error]; launched_case Hfb' Hfs.
    + launched_case Hfb' Hfb'.
Qed.

(** A bash that started, ran and ended with a non-zero status does not
    stop the fallback: sh is started after it, and two commands have run
    in the container. *)
Lemma fallback_after_bash_ran :
  bash_exits (execRequest request0 ["bash"])
  = Exited (Some (errorString "command terminated with exit code 1")) /\
  (fun r => (attempts r.1, processes bash_exits r.1))
    (exec (launchShell request0 "abc123" "") world4)
  = ([(["bash"], Some (errorString "command terminated with exit code 1"));
      (["sh"], None)],
     [["bash"]; ["sh"]]).
Proof. split; vm_compute; reflexivity. Qed.

(** *** Steps of the system *)

Lemma at_send_inv t c v p :
  at_send t = Some (c, v, p) ->
  exists k : unit -> prog unit,
    p = k tt /\
    match v with
    | OfBound x => t = Running (Do (BoundSend (Some c) x) k)
    | OfSize x => t = Running (Do (SizeSend (Some c) x) k)
    end.
Proof.
  destruct t as [[r|X e k]|msg]; simpl; try done.
  destruct e as [| | |[c0|] x| | |[c0|] x| | | | | | |]; try done;
    intros [= <- <- <-]; by exists k.
Qed.

Lemma at_recv_inv t c f :
  at_recv t = Some (c, f) ->
  (exists k, t = Running (Do (BoundRecv (Some c)) k) /\
             forall v, f v = match v with OfBound x => Some (k x) | OfSize _ => None end) \/
  (exists k, t = Running (Do (SizeRecv (Some c)) k) /\
             forall v, f v = match v with OfSize x => Some (k x) | OfBound _ => None end).
Proof.
  destruct t as [[r|X e k]|msg]; simpl; try done.
  destruct e as [| | | |[c0|]| | |[c0|]| | | | | |]; try done;
    intros [= <- <-]; [left|right]; by exists k.
Qed.

Lemma step_stepped c s s' : step c s = Some s' -> stepped s s'.
Proof.
  unfold step. destruct (dead s); [done|]. destruct c as [i|i j].
  - unfold solo. destruct (pool s !! i) as [[[r|X e k]|msg]|] eqn:Hi; try done.
    destruct (perform e (world s)) as [x w'|msg|] eqn:Hp; try done.
    + intros [= <-]. by eapply stepped_value.
    + intros [= <-]. by eapply stepped_panic.
  - unfold sync.
    destruct (pool s !! i) as [ti|] eqn:Hi; [|done]. cbn [mbind option_bind].
    destruct (at_send ti) as [[[c v] p]|] eqn:Hs; [|done].
    destruct (pool s !! j) as [tj|] eqn:Hj; [|done]. cbn [mbind option_bind].
    destruct (at_recv tj) as [[c' f]|] eqn:Hr; [|done].
    destruct (bool_decide (i <> j)) eqn:Hij; [|done].
    destruct (bool_decide (c = c')) eqn:Hc; [|done].
    destruct (open_and_empty (world s) c v) eqn:Ho; [|done]. cbn [andb].
    apply bool_decide_eq_true in Hij, Hc. subst c'.
    apply at_send_inv in Hs as (ki & -> & Hti).
    apply at_recv_inv in Hr as [(kj & -> & Hf)|(kj & -> & Hf)]; rewrite Hf;
      destruct v as [x|x]; try done; subst ti; intros [= <-];
      unfold open_and_empty in Ho.
    + destruct (boundChans (world s) !! c) as [ch|] eqn:Hch; [|done].
      apply andb_true_iff in Ho as [Hcl He].
      apply bool_decide_eq_true in He. apply negb_true_iff in Hcl.
      by eapply stepped_bound.
    + destruct (sizeChans (world s) !! c) as [ch|] eqn:Hch; [|done].
      apply andb_true_iff in Ho as [Hcl He].
      apply bool_decide_eq_true in He. apply negb_true_iff in Hcl.
      by eapply stepped_size.
Qed.

Lemma run_invariant (Inv : System -> Prop) :
  (forall s s', stepped s s' -> Inv s -> Inv s') ->
  forall cs s s', run cs s = Some s' -> Inv s -> Inv s'.
Proof.
  intros Hstep cs. induction cs as [|c cs IH]; intros s s'; simpl.
  - by intros [= <-].
  - destruct (step c s) as [s1|] eqn:Hs; [|done].
    intros Hr HI. eapply IH; [done|]. eapply Hstep; [|done]. by eapply step_stepped.
Qed.

(** *** The registry only grows *)

Ltac walk_program :=
  repeat (cbn [bind call load never_deletes];
          match goal with
          | |- _ /\ _ => split
          | |- forall _, _ => intro
          | |- True => exact I
          | |- context [match ?x with _ => _ end] => destruct x
          end).

Lemma goroutine_never_deletes p : goroutine p -> never_deletes p.
Proof.
  destruct 1.
  - unfold handleTerminalSession. walk_program.
  - unfold WaitForTerminal, launchShell, tryShells, startProcess, Close. walk_program.
  - unfold Read. walk_program.
  - unfold Write. walk_program.
  - unfold Next. walk_program.
  - unfold Toast. walk_program.
  - unfold Close. walk_program.
Qed.

Lemma perform_keeps_sessions {X : Type} (e : effect X) w x w' sessionId :
  perform e w = Value x w' ->
  match e with MapDelete _ => False | _ => True end ->
  is_Some (terminalSessions w !! sessionId) ->
  is_Some (terminalSessions w' !! sessionId).
Proof.
  intros Hp He Hs.
  destruct e; simpl in Hp; try done; repeat case_match; simplify_eq; simpl; try done.
  destruct (decide (key = sessionId)) as [->|Hne].
  - rewrite lookup_insert_eq. by eexists.
  - by rewrite lookup_insert_ne.
Qed.

Lemma stepped_never_deletes s s' sessionId :
  stepped s s' ->
  Forall thread_never_deletes (pool s) /\ is_Some (terminalSessions (world s) !! sessionId) ->
  Forall thread_never_deletes (pool s') /\ is_Some (terminalSessions (world s') !! sessionId).
Proof.
  intros Hst [Hpool Hs].
  assert (Hlk : forall i t, pool s !! i = Some t -> thread_never_deletes t).
  { intros i t Hi. by eapply (Forall_lookup_1 _ _ _ _ Hpool). }
  destruct Hst as [i X e k x w' Hi Hp ->|i X e k msg Hi Hp ->
                  |i j c x ki kj ch Hij Hi Hj Hch Hcl Hb ->
                  |i j c x ki kj ch Hij Hi Hj Hch Hcl Hb ->]; simpl.
  - apply Hlk in Hi as [He Hk]. split.
    + apply Forall_insert; [done|]. apply Hk.
    + by eapply perform_keeps_sessions.
  - split; [|done]. by apply Forall_insert.
  - apply Hlk in Hi as [_ Hki]. apply Hlk in Hj as [_ Hkj]. split; [|done].
    apply Forall_insert; [|apply Hkj]. apply Forall_insert; [done|]. apply Hki.
  - apply Hlk in Hi as [_ Hki]. apply Hlk in Hj as [_ Hkj]. split; [|done].
    apply Forall_insert; [|apply Hkj]. apply Forall_insert; [done|]. apply Hki.
Qed.

(** C3, as the code has it.  Whatever the goroutines of this file do, in
    any order, a session that is in the registry stays in it: after the
    coordinator has closed the session, and after anything else, a lookup
    of its id still finds it. *)
Theorem registry_retains_session w ps cs s sessionId :
  Forall goroutine ps ->
  run cs (start w ps) = Some s ->
  is_Some (terminalSessions w !! sessionId) ->
  is_Some (terminalSessions (world s) !! sessionId).
Proof.
  intros Hps Hrun Hs.
  apply (run_invariant
           (fun s => Forall thread_never_deletes (pool s) /\
                     is_Some (terminalSessions (world s) !! sessionId))
           (fun s s' H => stepped_never_deletes s s' sessionId H) cs _ _ Hrun).
  split; [|done]. unfold start. simpl. apply Forall_fmap.
  eapply Forall_impl; [done|]. intros p Hp. by apply goroutine_never_deletes.
Qed.

(** *** The worked example *)

(** The complete lifecycle: the connection is closed with status 1 and
    the reason Process exited, and a lookup of abc123 afterwards finds
    the session. *)
Lemma closed_session_still_registered :
  (fun s => (sockets (world s) !! 7%nat ≫= closeFrame,
             terminalSessions (world s) !! "abc123")) <$> run lifecycle system0
  = Some (Some (1, "Process exited"),
          Some (mkTerminalSession "abc123" (Some 0%nat) (Some 7%nat) (Some 1%nat))).
Proof. vm_compute. reflexivity. Qed.

(** C4, on the code.  In the run [coordinator_first] the coordinator,
    woken by the signal, reads the session from the registry before the
    binder has stored it: the stream of bash is started on a session with
    no connection. *)
Theorem launcher_runs_without_connection :
  (fun s => streamed (trace s)) <$> run coordinator_first system0
  = Some [(["bash"], None)].
Proof. vm_compute. reflexivity. Qed.


(** The second bind message for abc123 is not turned away: its binder
    finds the session and panics on the closed channel, which ends the
    process.  The registry still holds the first connection. *)
Lemma second_bind_crashes :
  (fun s => (pool s !! 2%nat,
             sockJSSession <$> terminalSessions (world s) !! "abc123"))
    <$> run second_bind system0
  = Some (Some (Crashed "send on closed channel"), Some (Some 7%nat)).
Proof. vm_compute. reflexivity. Qed.

(** *** The bound signal *)

Lemma count_app k tr1 tr2 : count k (tr1 ++ tr2) = (count k tr1 + count k tr2)%nat.
Proof.
  induction tr1 as [|[i ev] tr1 IH]; [done|]. simpl. rewrite IH. lia.
Qed.

Lemma event_kind_of {X : Type} (e : effect X) x : event_kind (event_of e x) = kind_of e.
Proof. by destruct e. Qed.

Lemma sum_list_insert (f : ghost -> nat) gs i g g' :
  gs !! i = Some g ->
  (sum_list (f <$> <[i := g']> gs) + f g = sum_list (f <$> gs) + f g')%nat.
Proof.
  revert i. induction gs as [|g0 gs IH]; intros [|i]; csimpl; try done.
  - intros [= ->]. lia.
  - intros H. specialize (IH i H). lia.
Qed.

Lemma perform_unbuffered {X : Type} (e : effect X) w x w' :
  unbuffered w -> perform e w = Value x w' ->
  unbuffered w' /\ kind_of e <> KBoundSend.
Proof.
  intros Hu Hp.
  destruct e; simpl in Hp; try (injection Hp as <- <-; done).
  - destruct c as [c|]; [|done]. simpl in Hp.
    destruct (boundChans w !! c) as [ch|] eqn:Hch; [|done]. simpl in Hp.
    destruct (Hu c ch Hch) as [Hcap Hbuf]. unfold chan_send in Hp.
    rewrite Hcap, Hbuf in Hp. destruct (closed ch); [done|].
    by rewrite decide_False in Hp by (simpl; lia).
  - destruct c as [c|]; [|done]. simpl in Hp.
    destruct (boundChans w !! c) as [ch|] eqn:Hch; [|done]. simpl in Hp.
    destruct (Hu c ch Hch) as [Hcap Hbuf]. unfold chan_recv in Hp.
    rewrite Hbuf in Hp. destruct (closed ch); [|done].
    injection Hp as <- <-. split; [|done].
    intros c' ch'. unfold set_bound. simpl.
    destruct (decide (c = c')) as [->|Hne].
    + rewrite lookup_insert_eq. by intros [= <-].
    + rewrite lookup_insert_ne by done. apply Hu.
  - destruct c as [c|]; [|done].
    destruct (boundChans w !! c) as [ch|] eqn:Hch; [|done].
    destruct (Hu c ch Hch) as [Hcap Hbuf].
    destruct (closed ch); [done|]. injection Hp as <- <-. split; [|done].
    intros c' ch'. unfold set_bound. simpl.
    destruct (decide (c = c')) as [->|Hne].
    + rewrite lookup_insert_eq. by intros [= <-].
    + rewrite lookup_insert_ne by done. apply Hu.
  - repeat case_match; simplify_eq; done.
  - repeat case_match; simplify_eq; done.
  - repeat case_match; simplify_eq; done.
  - repeat case_match; simplify_eq; done.
  - repeat case_match; simplify_eq; done.
Qed.

Lemma stepped_single_shot n s s' :
  stepped s s' -> single_shot n s -> single_shot n s'.
Proof.
  intros Hst (Hu & gs & Hgs & Hr & Hc & Hsr).
  destruct Hst as [i X e k x w' Hi Hp ->|i X e k msg Hi Hp ->
                  |i j c x ki kj ch Hij Hi Hj Hch Hcl Hb ->
                  |i j c x ki kj ch Hij Hi Hj Hch Hcl Hb ->];
    unfold single_shot; cbn [world pool trace].
  - destruct (perform_unbuffered e _ _ _ Hu Hp) as [Hu' Hne]. split; [done|].
    destruct (Forall2_lookup_r _ _ _ _ _ Hgs Hi) as ([[r sn] t] & Hg & Hw).
    simpl in Hw. rewrite !count_app. cbn [count]. rewrite event_kind_of.
    unfold receives, credits in *.
    destruct (kind_of e) eqn:Hk; [| done | |].
    + destruct Hw as (r' & -> & Hw).
      exists (<[i := (r', sn, t)]> gs).
      pose proof (sum_list_insert (fun g : ghost => g.1.1) gs i _ (r', sn, t) Hg) as H1.
      pose proof (sum_list_insert (fun g : ghost => g.2) gs i _ (r', sn, t) Hg) as H2.
      simpl in H1, H2.
      split; [apply Forall2_insert; [done|apply Hw]|].
      repeat case_decide; simplify_eq; lia.
    + destruct Hw as (t' & -> & Hw).
      exists (<[i := (r, sn, t')]> gs).
      pose proof (sum_list_insert (fun g : ghost => g.1.1) gs i _ (r, sn, t') Hg) as H1.
      pose proof (sum_list_insert (fun g : ghost => g.2) gs i _ (r, sn, t') Hg) as H2.
      simpl in H1, H2.
      split; [apply Forall2_insert; [done|apply Hw]|].
      repeat case_decide; simplify_eq; lia.
    + exists (<[i := (r, sn, t)]> gs).
      split; [apply Forall2_insert; [done|apply Hw]|].
      rewrite list_insert_id by done.
      repeat case_decide; simplify_eq; lia.
  - split; [done|]. exists gs. split; [|done].
    destruct (Forall2_lookup_r _ _ _ _ _ Hgs Hi) as (g & Hg & Hw).
    rewrite <- (list_insert_id gs i g Hg). by apply Forall2_insert.
  - split; [done|].
    destruct (Forall2_lookup_r _ _ _ _ _ Hgs Hi) as ([[ri si] ti] & Hgi & Hwi).
    destruct (Forall2_lookup_r _ _ _ _ _ Hgs Hj) as ([[rj sj] tj] & Hgj & Hwj).
    simpl in Hwi, Hwj. destruct Hwi as (s' & -> & Hwi). destruct Hwj as (r' & -> & Hwj).
    exists (<[j := (r', sj, tj)]> (<[i := (ri, s', S ti)]> gs)).
    assert (Hgj' : <[i := (ri, s', S ti)]> gs !! j = Some (S r', sj, tj)).
    { by rewrite list_lookup_insert_ne. }
    rewrite !count_app. cbn [count event_kind].
    unfold receives, credits in *.
    pose proof (sum_list_insert (fun g : ghost => g.1.1) gs i _ (ri, s', S ti) Hgi) as H1.
    pose proof (sum_list_insert (fun g : ghost => g.1.1) _ j _ (r', sj, tj) Hgj') as H2.
    pose proof (sum_list_insert (fun g : ghost => g.2) gs i _ (ri, s', S ti) Hgi) as H3.
    pose proof (sum_list_insert (fun g : ghost => g.2) _ j _ (r', sj, tj) Hgj') as H4.
    simpl in H1, H2, H3, H4.
    split; [apply Forall2_insert; [|apply Hwj]; apply Forall2_insert; [done|apply Hwi]|].
    repeat case_decide; simplify_eq; lia.
  - split; [done|].
    destruct (Forall2_lookup_r _ _ _ _ _ Hgs Hi) as (gi & Hgi & Hwi).
    destruct (Forall2_lookup_r _ _ _ _ _ Hgs Hj) as (gj & Hgj & Hwj).
    simpl in Hwi, Hwj. exists gs. rewrite !count_app. cbn [count event_kind].
    split; [|repeat case_decide; simplify_eq; lia].
    rewrite <- (list_insert_id gs i gi Hgi).
    rewrite <- (list_insert_id (<[i := gi]> gs) j gj)
      by (by rewrite list_lookup_insert_ne).
    apply Forall2_insert; [|apply Hwj]. apply Forall2_insert; [|apply Hwi].
    done.
Qed.

Ltac walk_budget :=
  repeat (cbn [bind call load budget kind_of];
          match goal with
          | |- exists _, _ = S _ /\ _ => eexists; split; [reflexivity|]
          | |- forall _, _ => intro
          | |- True => exact I
          | |- context [match ?x with _ => _ end] => destruct x
          end).

Lemma WaitForTerminal_budget request sessionId :
  budget 1 0 0 (WaitForTerminal request sessionId).
Proof.
  unfold WaitForTerminal, launchShell, tryShells, startProcess, Close. walk_budget.
Qed.

Lemma handleTerminalSession_budget session :
  budget 0 1 0 (handleTerminalSession session).
Proof. unfold handleTerminalSession. walk_budget. Qed.

Lemma single_shot_start w request sessionId sessions :
  unbuffered w ->
  single_shot 1
    (start w (WaitForTerminal request sessionId :: (handleTerminalSession <$> sessions))).
Proof.
  intros Hu. split; [done|].
  exists ((1, 0, 0)%nat :: ((fun _ => (0, 1, 0)%nat) <$> sessions)).
  unfold start. cbn [pool trace count]. split; [|split; [|split]].
  - rewrite fmap_cons. constructor; [apply WaitForTerminal_budget|].
    induction sessions as [|c cs IH]; csimpl; constructor; [|done].
    apply handleTerminalSession_budget.
  - unfold receives. csimpl.
    assert (sum_list ((fun g : ghost => g.1.1) <$> ((fun _ : conn => (0, 1, 0)%nat) <$> sessions)) = 0%nat) as ->; [|lia].
    induction sessions as [|c cs IH]; csimpl; [done|]. by rewrite IH.
  - unfold credits. csimpl.
    induction sessions as [|c cs IH]; csimpl; [done|]. by rewrite IH.
  - done.
Qed.

(** C1, as the code has it.  With unbuffered bound channels, in every
    interleaving of the coordinator of a session with the binders of any
    number of connections, the bound signal is received at most once and
    at most one binder comes to store the session with its connection.
    A later bind message for the same id is not turned away: the lookup
    finds the session, and once the coordinator has closed [bound] the
    send panics, before the registry is written. *)
Theorem bind_single_shot w request sessionId sessions :
  unbuffered w ->
  (forall cs s,
     run cs (start w (WaitForTerminal request sessionId
                        :: (handleTerminalSession <$> sessions))) = Some s ->
     (count KBoundRecv (trace s) <= 1)%nat /\
     (count KStore (trace s) <= count KBoundRecv (trace s))%nat) /\
  (forall c k m rest msg t b ch,
     sockets w !! c = Some k -> inbox k = (m, None) :: rest ->
     json.Unmarshal m zeroMessage = (msg, None) -> Op msg = "bind" ->
     terminalSessions w !! SessionID msg = Some t -> bound t = Some b ->
     boundChans w !! b = Some ch -> closed ch = true ->
     exec (handleTerminalSession c) w
     = ([EvRecv (Some c) m None; EvLoad (SessionID msg) (Some t)],
        Panic "send on closed channel")).
Proof.
  intros Hu. split.
  - intros cs s Hrun.
    pose proof (run_invariant (single_shot 1) (stepped_single_shot 1) cs _ _ Hrun
                  (single_shot_start w request sessionId sessions Hu))
      as (_ & gs & _ & Hr & Hc & Hsr).
    lia.
  - intros c k m rest msg t b ch Hk Hi Hd Hop Ht Hb Hch Hcl.
    unfold handleTerminalSession. cbn [bind call exec].
    rewrite (perform_SockRecv w c k (m, None) rest Hk Hi). cbn [bind exec].
    rewrite Hd. rewrite decide_False by (intros H; by apply H).
    cbn [bind call exec perform set_socket terminalSessions boundChans].
    rewrite Ht. cbn [bind call exec perform bound boundChans event_of fst snd set_socket].
    rewrite Hb. cbn [mbind option_bind]. rewrite Hch. cbn [fmap option_fmap option_map].
    unfold chan_send. rewrite Hcl. done.
Qed.

(** *** The resize queue *)

Lemma sizes_sent_snoc c tr i ev :
  sizes_sent c (tr ++ [(i, ev)]) =
  (sizes_sent c tr ++
   match ev with
   | EvSizeSend (Some c') v => if decide (c' = c) then [v] else []
   | _ => []
   end)%list.
Proof.
  unfold sizes_sent. rewrite omap_app. f_equal. simpl.
  destruct ev; try done. destruct c0; [|done]. by case_decide.
Qed.

Lemma sizes_received_snoc c tr i ev :
  sizes_received c (tr ++ [(i, ev)]) =
  (sizes_received c tr ++
   match ev with
   | EvSizeRecv (Some c') v => if decide (c' = c) then [v] else []
   | _ => []
   end)%list.
Proof.
  unfold sizes_received. rewrite omap_app. f_equal. simpl.
  destruct ev; try done. destruct c0; [|done]. by case_decide.
Qed.

Lemma stepped_size_queues s s' : stepped s s' -> size_queues s -> size_queues s'.
Proof.
  intros Hst Hq.
  destruct Hst as [i X e k x w' Hi Hp ->|i X e k msg Hi Hp ->
                  |i j c x ki kj ch Hij Hi Hj Hch Hcl Hb ->
                  |i j c x ki kj ch Hij Hi Hj Hch Hcl Hb ->];
    unfold size_queues; cbn [world pool trace]; try done.
  - intros c ch. rewrite sizes_sent_snoc, sizes_received_snoc.
    destruct e; simpl in Hp; try (injection Hp as <- <-);
      cbn [event_of]; rewrite ?app_nil_r; try apply Hq.
    + repeat case_match; simplify_eq; rewrite ?app_nil_r; apply Hq.
    + repeat case_match; simplify_eq; rewrite ?app_nil_r; apply Hq.
    + repeat case_match; simplify_eq; rewrite ?app_nil_r; apply Hq.
    + destruct c0 as [c0|]; [|done]. simpl in Hp.
      destruct (sizeChans (world s) !! c0) as [ch0|] eqn:Hch0; [|done]. simpl in Hp.
      destruct (Hq c0 ch0 Hch0) as [Hcl0 Hfifo]. unfold chan_send in Hp.
      rewrite Hcl0 in Hp. case_decide; [|done]. injection Hp as <-. subst w'.
      unfold set_size. cbn [sizeChans].
      destruct (decide (c0 = c)) as [->|Hne].
      * rewrite lookup_insert_eq. intros [= <-]. simpl. split; [done|].
        rewrite Hfifo. by rewrite app_assoc.
      * rewrite lookup_insert_ne by done. rewrite ?app_nil_r. apply Hq.
    + destruct c0 as [c0|]; [|done]. simpl in Hp.
      destruct (sizeChans (world s) !! c0) as [ch0|] eqn:Hch0; [|done]. simpl in Hp.
      destruct (Hq c0 ch0 Hch0) as [Hcl0 Hfifo]. unfold chan_recv in Hp.
      rewrite Hcl0 in Hp. destruct (buf ch0) as [|v0 rest0] eqn:Hbuf; [done|].
      injection Hp as <- <-. unfold set_size. cbn [sizeChans].
      destruct (decide (c0 = c)) as [->|Hne].
      * rewrite lookup_insert_eq. intros [= <-]. simpl. split; [done|].
        rewrite Hfifo, ?app_nil_r. by rewrite <- app_assoc.
      * rewrite lookup_insert_ne by done. rewrite ?app_nil_r. apply Hq.
    + repeat case_match; simplify_eq; rewrite ?app_nil_r; apply Hq.
    + repeat case_match; simplify_eq; rewrite ?app_nil_r; apply Hq.
    + repeat case_match; simplify_eq; rewrite ?app_nil_r; apply Hq.
  - intros c' ch' Hc'. destruct (Hq c' ch' Hc') as [Hcl' Hfifo]. split; [done|].
    change (trace s ++ [(i, EvBoundSend (Some c) x); (j, EvBoundRecv (Some c) x)])%list
      with (trace s ++ [(i, EvBoundSend (Some c) x)] ++ [(j, EvBoundRecv (Some c) x)])%list.
    rewrite !app_assoc, !sizes_sent_snoc, !sizes_received_snoc.
    by rewrite !app_nil_r.
  - intros c' ch' Hc'. destruct (Hq c' ch' Hc') as [Hcl' Hfifo]. split; [done|].
    change (trace s ++ [(i, EvSizeSend (Some c) x); (j, EvSizeRecv (Some c) x)])%list
      with (trace s ++ [(i, EvSizeSend (Some c) x)] ++ [(j, EvSizeRecv (Some c) x)])%list.
    rewrite !app_assoc, !sizes_sent_snoc, !sizes_received_snoc.
    rewrite !app_nil_r. case_decide as Hcc.
    + subst c'. rewrite Hch in Hc'. injection Hc' as <-.
      rewrite Hfifo, Hb, !app_nil_r. done.
    + by rewrite !app_nil_r.
Qed.

(** *** The codec *)

Import json.

Lemma code_chr c : chr (code c) = c.
Proof. apply ascii_N_embedding. Qed.

Lemma code_inj c c' : code c = code c' -> c = c'.
Proof. intros H. by rewrite <- (code_chr c), H, code_chr. Qed.

Lemma prepend_Some pre t rest :
  prepend pre (Some (t, rest)) = Some (pre +:+ t, rest).
Proof. done. Qed.

Ltac nbool :=
  repeat match goal with
         | H : (_ && _) = true |- _ => apply andb_true_iff in H as [? ?]
         | H : (_ || _) = false |- _ => apply orb_false_iff in H as [? ?]
         | H : negb _ = true |- _ => apply negb_true_iff in H
         | H : negb _ = false |- _ => apply negb_false_iff in H
         | H : (_ <? _) = true |- _ => apply N.ltb_lt in H
         | H : (_ <? _) = false |- _ => apply N.ltb_ge in H
         | H : (_ <=? _) = true |- _ => apply N.leb_le in H
         | H : (_ <=? _) = false |- _ => apply N.leb_gt in H
         | H : (_ =? _) = true |- _ => apply N.eqb_eq in H
         | H : (_ =? _) = false |- _ => apply N.eqb_neq in H
         end.

Lemma eqb_false n m : n <> m -> (n =? m) = false.
Proof. apply N.eqb_neq. Qed.

Lemma ltb_true n m : n < m -> (n <? m) = true.
Proof. apply N.ltb_lt. Qed.

Lemma ltb_false n m : m <= n -> (n <? m) = false.
Proof. apply N.ltb_ge. Qed.

Lemma code_lt_256 c : code c < 256.
Proof. apply N_ascii_bounded. Qed.

Lemma hex_value_digit n : n < 16 -> hex_value (hex_digit n) = Some n.
Proof.
  intros H. destruct n as [|p]; [reflexivity|].
  do 4 (try (destruct p as [p|p|]; try reflexivity)); lia.
Qed.

Lemma append_cons c s t : String c s +:+ t = String c (s +:+ t).
Proof. done. Qed.

Lemma append_nil t : "" +:+ t = t.
Proof. done. Qed.

(** One ASCII byte, as written and read back. *)
Lemma unquote_escape_ascii c tail :
  (code c <? 0x80) = true ->
  unquote_body (escape_ascii c +:+ tail) = prepend (String c "") (unquote_body tail).
Proof.
  intros Hc. unfold escape_ascii.
  destruct (html_safe c) eqn:Hsafe.
  { unfold html_safe in Hsafe. nbool. rewrite append_cons, append_nil.
    cbn [unquote_body].
    rewrite (eqb_false (code c) 34), (eqb_false (code c) 92) by done.
    rewrite (ltb_false (code c) 0x20) by done. by rewrite ltb_true. }
  destruct ((code c =? 92) || (code c =? 34)) eqn:Hq.
  { apply orb_true_iff in Hq as [Hq|Hq]; apply N.eqb_eq in Hq;
      replace c with (chr (code c)) by apply code_chr; rewrite Hq; reflexivity. }
  destruct (code c =? 10) eqn:H10.
  { apply N.eqb_eq in H10. replace c with (chr (code c)) by apply code_chr.
    rewrite H10. reflexivity. }
  destruct (code c =? 13) eqn:H13.
  { apply N.eqb_eq in H13. replace c with (chr (code c)) by apply code_chr.
    rewrite H13. reflexivity. }
  destruct (code c =? 9) eqn:H9.
  { apply N.eqb_eq in H9. replace c with (chr (code c)) by apply code_chr.
    rewrite H9. reflexivity. }
  apply N.ltb_lt in Hc.
  assert (Hhi : N.shiftr (code c) 4 < 16).
  { rewrite N.shiftr_div_pow2. apply N.Div0.div_lt_upper_bound. simpl. lia. }
  assert (Hlo : N.land (code c) 0xF < 16).
  { change 0xF with (N.ones 4). rewrite N.land_ones. by apply N.mod_lt. }
  assert (Hsum : N.shiftr (code c) 4 * 16 + N.land (code c) 0xF = code c).
  { change 0xF with (N.ones 4). rewrite N.land_ones, N.shiftr_div_pow2.
    change (2 ^ 4) with 16. rewrite N.mul_comm. symmetry. apply N.Div0.div_mod. }
  change (String backslash
            ("u00" +:+ String (hex_digit (N.shiftr (code c) 4))
                         (String (hex_digit (N.land (code c) 15)) "")) +:+ tail)
    with (String backslash (String "u" (String "0" (String "0"
            (String (hex_digit (N.shiftr (code c) 4))
               (String (hex_digit (N.land (code c) 15)) tail)))))).
  cbn [unquote_body].
  change (code backslash =? 34) with false. change (code backslash =? 92) with true.
  change (code "u" =? 117) with true. cbn iota.
  unfold hex4. change (hex_value "0") with (Some 0).
  rewrite !hex_value_digit by done.
  replace ((0 * 16 + 0) * 16 + N.shiftr (code c) 4) with (N.shiftr (code c) 4) by lia.
  rewrite Hsum.
  assert (is_surrogate (code c) = false) as ->.
  { unfold is_surrogate. apply andb_false_iff. left. apply N.leb_gt. lia. }
  unfold encode_rune. assert ((code c <=? 0x7F) = true) as -> by (apply N.leb_le; lia).
  by rewrite code_chr.
Qed.

Lemma append_assoc s t u : (s +:+ t) +:+ u = s +:+ (t +:+ u).
Proof. induction s as [|c s IH]; [done|]. by rewrite !append_cons, IH. Qed.

Lemma tests_high c :
  (code c <? 0x80) = false ->
  (code c =? 34) = false /\ (code c =? 92) = false /\ (code c <? 0x20) = false.
Proof.
  intros H. apply N.ltb_ge in H. repeat split.
  - apply N.eqb_neq. lia.
  - apply N.eqb_neq. lia.
  - apply N.ltb_ge. lia.
Qed.

Lemma unquote_line_sep d tail :
  d = 8 \/ d = 9 ->
  unquote_body (String backslash ("u202" +:+ String (hex_digit d) "") +:+ tail)
  = prepend (String (chr 0xE2) (String (chr 0x80) (String (chr (0xA0 + d)) "")))
      (unquote_body tail).
Proof. intros [-> | ->]; reflexivity. Qed.

(** A string of valid UTF-8, as written and read back. *)
Lemma unquote_quote_body s rest :
  valid_utf8 s = true ->
  unquote_body (quote_body s +:+ String dquote rest) = Some (s, rest).
Proof.
  remember (String.length s) as n eqn:Hn. revert s Hn.
  induction n as [n IH] using lt_wf_ind. intros s Hn Hv.
  destruct s as [|c0 s1]; [reflexivity|].
  cbn [quote_body valid_utf8 String.length] in *.
  destruct (code c0 <? 0x80) eqn:Hc0.
  { rewrite append_assoc, unquote_escape_ascii by done.
    rewrite (IH (String.length s1)) by (done || lia). done. }
  destruct (tests_high c0 Hc0) as (T1 & T2 & T3).
  destruct s1 as [|c1 s2]; [done|]. cbn [String.length] in Hn.
  destruct (valid2 c0 c1) eqn:H2.
  { rewrite !append_cons. cbn [unquote_body]. rewrite T1, T2, T3, Hc0, H2.
    rewrite (IH (String.length s2)) by (done || lia). done. }
  destruct s2 as [|c2 s3]; [done|]. cbn [String.length] in Hn.
  destruct (valid3 c0 c1 c2) eqn:H3.
  { destruct (line_sep c0 c1 c2) eqn:Hls.
    - unfold line_sep in Hls. apply andb_true_iff in Hls as [Hls Hc2].
      apply andb_true_iff in Hls as [Hc0' Hc1]. apply N.eqb_eq in Hc0', Hc1.
      assert (c0 = chr 0xE2) as -> by (apply code_inj; by rewrite Hc0').
      assert (c1 = chr 0x80) as -> by (apply code_inj; by rewrite Hc1).
      rewrite append_assoc.
      apply orb_true_iff in Hc2 as [Hc2|Hc2]; apply N.eqb_eq in Hc2.
      + assert (c2 = chr 0xA8) as -> by (apply code_inj; by rewrite Hc2).
        rewrite unquote_line_sep by (by left).
        rewrite (IH (String.length s3)) by (done || lia). reflexivity.
      + assert (c2 = chr 0xA9) as -> by (apply code_inj; by rewrite Hc2).
        rewrite unquote_line_sep by (by right).
        rewrite (IH (String.length s3)) by (done || lia). reflexivity.
    - rewrite append_assoc, !append_cons, append_nil. cbn [unquote_body].
      rewrite T1, T2, T3, Hc0, H2, H3.
      rewrite (IH (String.length s3)) by (done || lia). done. }
  destruct s3 as [|c3 s4]; [done|]. cbn [String.length] in Hn.
  destruct (valid4 c0 c1 c2 c3) eqn:H4; [|done].
  rewrite !append_cons. cbn [unquote_body]. rewrite T1, T2, T3, Hc0, H2, H3, H4.
  rewrite (IH (String.length s4)) by (done || lia). done.
Qed.

(** Numbers. *)

Ltac eval_tests :=
  repeat (match goal with
         | |- context [is_digit (Ascii ?a ?b ?c ?d ?e ?f ?g ?h)] =>
           let t := constr:(is_digit (Ascii a b c d e f g h)) in
           let v := eval vm_compute in t in change t with v
         | |- context [code (Ascii ?a ?b ?c ?d ?e ?f ?g ?h) =? ?n] =>
           let t := constr:(code (Ascii a b c d e f g h) =? n) in
           let v := eval vm_compute in t in change t with v
         | |- context [is_space (Ascii ?a ?b ?c ?d ?e ?f ?g ?h)] =>
           let t := constr:(is_space (Ascii a b c d e f g h)) in
           let v := eval vm_compute in t in change t with v
         end; cbn [orb andb negb]).

Lemma span_digits_uint u c rest :
  is_digit c = false ->
  span_digits (NilEmpty.string_of_uint u +:+ String c rest)
  = (NilEmpty.string_of_uint u, String c rest).
Proof.
  intros Hc.
  induction u; cbn [NilEmpty.string_of_uint]; rewrite ?append_cons, ?append_nil;
    cbn [span_digits]; eval_tests; rewrite ?IHu, ?Hc; reflexivity.
Qed.

Lemma to_uint_normal n : Decimal.unorm (N.to_uint n) = N.to_uint n.
Proof. rewrite <- DecimalN.Unsigned.to_of. by rewrite DecimalN.Unsigned.of_to. Qed.

Lemma unorm_D0_inv u : Decimal.unorm (Decimal.D0 u) = Decimal.D0 u -> u = Decimal.Nil.
Proof.
  rewrite unorm_D0. unfold Decimal.unorm. destruct (Decimal.nzhead u) eqn:Hu; intros H;
    try discriminate H; try (by apply nzhead_nonzero in Hu).
  by injection H as <-.
Qed.

Lemma scan_number_uint u c rest :
  Decimal.unorm u = u -> c = ","%char \/ c = "}"%char ->
  scan_number (NilEmpty.string_of_uint u +:+ String c rest)
  = Some (NilEmpty.string_of_uint u, String c rest).
Proof.
  intros Hu Hc.
  assert (Hd : is_digit c = false) by (destruct Hc as [-> | ->]; reflexivity).
  assert (Hf : scan_frac (String c rest) = Some ("", String c rest))
    by (destruct Hc as [-> | ->]; reflexivity).
  assert (He : scan_exp (String c rest) = Some ("", String c rest))
    by (destruct Hc as [-> | ->]; reflexivity).
  destruct u; [done|..].
  1: { apply unorm_D0_inv in Hu as ->. cbn [NilEmpty.string_of_uint].
       rewrite append_cons, append_nil. unfold scan_number, scan_int. eval_tests.
       rewrite Hf, He. reflexivity. }
  all: cbn [NilEmpty.string_of_uint]; rewrite append_cons;
    unfold scan_number, scan_int; eval_tests;
    rewrite span_digits_uint by done; rewrite Hf, He;
    rewrite !append_nil; do 2 f_equal;
    generalize (NilEmpty.string_of_uint u); intros s;
    rewrite append_cons; f_equal;
    induction s as [|a s IH]; [done|]; by rewrite append_cons, IH.
Qed.

Lemma parse_value_number fuel n c rest :
  c = ","%char \/ c = "}"%char ->
  parse_value (S fuel) (format_uint n +:+ String c rest)
  = Some (Number (format_uint n), String c rest).
Proof.
  intros Hc. pose proof (scan_number_uint _ c rest (to_uint_normal n) Hc) as Hs.
  unfold format_uint in *.
  pose proof (to_uint_normal n) as Hn.
  destruct (N.to_uint n) as [|u|u|u|u|u|u|u|u|u|u]; [done|..];
    cbn [NilEmpty.string_of_uint] in *; rewrite append_cons in *;
    cbn [parse_value]; eval_tests; by rewrite Hs.
Qed.

Lemma parse_uint16_format n : n < 65536 -> parse_uint16 (format_uint n) = Some n.
Proof.
  intros Hn. unfold parse_uint16, format_uint.
  rewrite NilEmpty.usu, DecimalN.Unsigned.of_to.
  by rewrite ltb_true.
Qed.

(** The object. *)

Ltac eval_dquote :=
  let v := eval vm_compute in dquote in change dquote with v in *.

Lemma key_append k r :
  key k +:+ r = String dquote (quote_body k +:+ String dquote (String ":" r)).
Proof.
  unfold key, quote. by rewrite !append_cons, !append_assoc, append_cons, append_nil.
Qed.

Lemma quote_append v r :
  quote v +:+ r = String dquote (quote_body v +:+ String dquote r).
Proof. unfold quote. by rewrite append_cons, append_assoc, append_cons, append_nil. Qed.

Lemma parse_value_string fuel v rest :
  valid_utf8 v = true ->
  parse_value (S fuel) (quote v +:+ rest) = Some (Str v, rest).
Proof.
  intros Hv. rewrite quote_append. cbn [parse_value].
  rewrite (unquote_quote_body v rest Hv). eval_dquote. by eval_tests.
Qed.

Lemma parse_members_cons fuel k txt a v c rest :
  valid_utf8 k = true -> is_space a = false ->
  parse_value fuel (String a txt +:+ String c rest) = Some (v, String c rest) ->
  c = ","%char \/ c = "}"%char ->
  parse_members (S fuel) (key k +:+ String a txt +:+ String c rest) =
  if code c =? 44 then
    match parse_members fuel (skip_space rest) with
    | Some (kvs, r5) => Some ((k, v) :: kvs, r5)
    | None => None
    end
  else Some ([(k, v)], rest).
Proof.
  intros Hk Ha Hv Hc. rewrite key_append. cbn [parse_members].
  rewrite (unquote_quote_body k _ Hk). eval_dquote. eval_tests.
  cbn [skip_space]. eval_tests. rewrite append_cons. cbn [skip_space]. rewrite Ha.
  rewrite <- append_cons, Hv.
  destruct Hc as [-> | ->]; cbn [skip_space]; by eval_tests.
Qed.

Lemma parse_string_member fuel k v c rest :
  valid_utf8 k = true -> valid_utf8 v = true ->
  c = ","%char \/ c = "}"%char ->
  parse_members (S (S fuel)) (key k +:+ quote v +:+ String c rest) =
  if code c =? 44 then
    match parse_members (S fuel) (skip_space rest) with
    | Some (kvs, r5) => Some ((k, Str v) :: kvs, r5)
    | None => None
    end
  else Some ([(k, Str v)], rest).
Proof.
  intros Hk Hv Hc. unfold quote at 1.
  apply parse_members_cons; try done.
  by apply (parse_value_string fuel v).
Qed.

Lemma format_uint_head n : exists a txt, format_uint n = String a txt /\ is_space a = false.
Proof.
  unfold format_uint. pose proof (to_uint_normal n) as Hn.
  destruct (N.to_uint n); [done|..]; cbn [NilEmpty.string_of_uint]; by eexists _, _.
Qed.

Lemma parse_number_member fuel k n c rest :
  valid_utf8 k = true ->
  c = ","%char \/ c = "}"%char ->
  parse_members (S (S fuel)) (key k +:+ format_uint n +:+ String c rest) =
  if code c =? 44 then
    match parse_members (S fuel) (skip_space rest) with
    | Some (kvs, r5) => Some ((k, Number (format_uint n)) :: kvs, r5)
    | None => None
    end
  else Some ([(k, Number (format_uint n))], rest).
Proof.
  intros Hk Hc. destruct (format_uint_head n) as (a & txt & Hfmt & Ha).
  pose proof (parse_value_number fuel n c rest Hc) as Hv. rewrite Hfmt in *.
  by apply parse_members_cons.
Qed.

Lemma skip_space_key k r : skip_space (key k +:+ r) = key k +:+ r.
Proof. rewrite key_append. eval_dquote. cbn [skip_space]. by eval_tests. Qed.

Lemma comma_append r : "," +:+ r = String ","%char r.
Proof. done. Qed.

Lemma parse_encode m :
  valid_utf8 (Op m) = true -> valid_utf8 (Data m) = true ->
  valid_utf8 (SessionID m) = true ->
  parse (encode m)
  = Some (Object [("Op", Str (Op m)); ("Data", Str (Data m));
                  ("SessionID", Str (SessionID m));
                  ("Rows", Number (format_uint (Rows m)));
                  ("Cols", Number (format_uint (Cols m)))]).
Proof.
  intros Hop Hdata Hsid. unfold parse, encode.
  generalize (2 * String.length
                ("{" +:+ key "Op" +:+ quote (Op m) +:+ "," +:+ key "Data" +:+ quote (Data m)
                 +:+ "," +:+ key "SessionID" +:+ quote (SessionID m)
                 +:+ "," +:+ key "Rows" +:+ format_uint (Rows m)
                 +:+ "," +:+ key "Cols" +:+ format_uint (Cols m) +:+ "}"))%nat.
  intros f. cbn [Nat.add]. rewrite !comma_append.
  change ("{" +:+ ?r) with (String "{"%char r).
  change ("}") with (String "}"%char "").
  cbn [skip_space]. eval_tests. cbn [parse_value]. eval_tests.
  rewrite skip_space_key.
  rewrite key_append at 1. rewrite <- key_append.
  rewrite parse_string_member by (done || auto). eval_tests.
  rewrite skip_space_key.
  rewrite parse_string_member by (done || auto). eval_tests.
  rewrite skip_space_key.
  rewrite parse_string_member by (done || auto). eval_tests.
  rewrite skip_space_key.
  rewrite parse_number_member by (done || auto). eval_tests.
  rewrite skip_space_key.
  rewrite parse_number_member by (done || auto). eval_tests.
  done.
Qed.

Lemma fill_absent kvs st f :
  (forall k v, (k, v) ∈ kvs -> find_field fields k None <> Some f) ->
  field_value f (fill kvs st).1 = field_value f st.1.
Proof.
  revert st. induction kvs as [|[k v] kvs IH]; intros st Hk; [done|].
  cbn [fill]. rewrite IH by (intros k' v' Hin; apply (Hk k' v'); by right).
  assert (Hkf : find_field fields k None <> Some f) by (apply (Hk k v); by left).
  destruct (find_field fields k None) as [g|]; [|done].
  assert (g <> f) by congruence.
  destruct st as [m saved]. unfold store.
  destruct v; try done; destruct g, f; try done;
    cbn [is_string_field]; try done; by destruct (parse_uint16 lit).
Qed.

(** The data of [binary_output] comes back as U+FFFD. *)
Lemma binary_output_not_preserved :
  Unmarshal (Marshal binary_output).1 zeroMessage
  = (mkTerminalMessage "stdout" replacement "" 0 0, None).
Proof. vm_compute. reflexivity. Qed.

(** C9, as the code has it.  A message whose three strings are valid
    UTF-8 and whose two sizes are uint16 is encoded without error and
    decodes to itself, whatever its operation.  A field for which the
    wire object has no key keeps its zero value. *)
Theorem codec_round_trip m :
  valid_utf8 (Op m) = true -> valid_utf8 (Data m) = true ->
  valid_utf8 (SessionID m) = true -> uint16 (Rows m) -> uint16 (Cols m) ->
  ((Marshal m).2 = None /\ Unmarshal (Marshal m).1 zeroMessage = (m, None)) /\
  (forall data kvs f,
     parse data = Some (Object kvs) ->
     (forall k v, (k, v) ∈ kvs -> find_field fields k None <> Some f) ->
     field_value f (Unmarshal data zeroMessage).1 = field_value f zeroMessage).
Proof.
  intros Hop Hdata Hsid Hrows Hcols. split.
  - split; [done|]. unfold Marshal, Unmarshal. cbn [fst].
    rewrite parse_encode by done. cbn [fill].
    repeat match goal with
           | |- context [find_field fields ?k None] =>
             let t := constr:(find_field fields k None) in
             let v := eval vm_compute in t in change t with v
           end.
    unfold store. cbn [is_string_field set_string set_uint Op Data SessionID Rows Cols zeroMessage].
    rewrite !parse_uint16_format by done.
    cbn [set_uint Op Data SessionID Rows Cols]. by destruct m.
  - intros data kvs f Hp Hk. unfold Unmarshal. rewrite Hp.
    by apply fill_absent.
Qed.

Lemma Next_returns t z tr size :
  sizeChan t = Some z ->
  returns (Next t) tr size <-> tr = [EvSizeRecv (Some z) size].
Proof.
  intros Hz. unfold Next. rewrite Hz. simpl. split.
  - by intros (_ & x & tr' & -> & -> & ->).
  - intros ->. split; [done|]. by exists size, [].
Qed.

(** C8.  A resize message read by [Read] makes it send exactly the size
    with the columns as width and the rows as height, and return 0 with
    the buffer untouched.  [Next] returns what one receive on the size
    channel gives.  In every run the sizes received from a size channel
    are, in order, the first of the sizes sent on it, the others waiting
    in the channel; and a receive on an empty channel waits. *)
Theorem resize_queue t p c z :
  sockJSSession t = Some c -> sizeChan t = Some z ->
  (forall m msg,
     json.Unmarshal m zeroMessage = (msg, None) -> Op msg = "resize" ->
     let sent := EvSizeSend (Some z) {| Width := Cols msg; Height := Rows msg |} in
     returns (Read t p) [EvRecv (Some c) m None; sent] (p, (0%nat, None)) /\
     forall rest res,
       returns (Read t p) (EvRecv (Some c) m None :: rest) res ->
       rest = [sent] /\ res = (p, (0%nat, None))) /\
  (forall tr size, returns (Next t) tr size <-> tr = [EvSizeRecv (Some z) size]) /\
  (forall w ps cs s ch,
     (forall c ch, sizeChans w !! c = Some ch -> closed ch = false /\ buf ch = []) ->
     run cs (start w ps) = Some s ->
     sizeChans (world s) !! z = Some ch ->
     sizes_sent z (trace s) = (sizes_received z (trace s) ++ buf ch)%list) /\
  (forall w ch,
     sizeChans w !! z = Some ch -> buf ch = [] -> closed ch = false ->
     perform (SizeRecv (Some z)) w = Blocked).
Proof.
  intros Hc Hz. split; [|split; [|split]].
  - intros m msg Hd Hop sent. split.
    + apply (Read_returns t p c z Hc Hz). exists m, None, [sent]. split; [done|].
      unfold sent. rewrite <- Hz. by apply Read_resize.
    + intros rest res H.
      pose proof (proj2 (Read_by_operation t p c z m None Hc Hz) rest res H) as H'.
      rewrite Hd in H'. rewrite decide_False in H' by (rewrite Hop; discriminate).
      by rewrite decide_True in H' by done.
  - intros tr size. by apply Next_returns.
  - intros w ps cs s ch Hw Hrun Hch.
    assert (Hq : size_queues s).
    { apply (run_invariant size_queues stepped_size_queues cs _ _ Hrun).
      intros c' ch' Hc'. destruct (Hw c' ch' Hc') as [Hcl Hb]. split; [done|].
      by rewrite Hb. }
    by apply Hq.
  - intros w ch Hch Hb Hcl. simpl. rewrite Hch. simpl. unfold chan_recv.
    by rewrite Hb, Hcl.
Qed.

(** *** The theorems at work on the example *)

Lemma Read_by_operation_witness :
  sockJSSession session0 = Some 7%nat /\ sizeChan session0 = Some 1%nat /\
  exists rest res,
    returns (Read session0 buffer4) (EvRecv (Some 7%nat) stdin_hello None :: rest) res.
Proof.
  split; [reflexivity|]. split; [reflexivity|].
  exact (proj1 (Read_by_operation session0 buffer4 7%nat 1%nat stdin_hello None
                  eq_refl eq_refl)).
Defined.

Lemma launchShell_selects_witness :
  exists tr result,
    exec (launchShell request0 "abc123" "") world0 = (tr, Value result world0) /\
    attempts tr = [(["bash"], Some (errorString "exec: bash not found")); (["sh"], None)] /\
    processes bash_missing tr = [["sh"]] /\ result = None.
Proof.
  assert (Hfate : forall req, remote world0 req = stream_error (bash_missing req)).
  { intros req. cbn [world0 registered remote]. unfold no_bash, bash_missing.
    by destruct (decide (Command req = ["bash"])). }
  destruct (launchShell_selects world0 request0 "abc123" "" bash_missing Hfate)
    as (tr & result & Hexec & _ & Hother).
  destruct Hother as (Ha & _ & _ & Hsh).
  { by intros [|]. }
  destruct (Hsh (or_intror (ex_intro _ (errorString "exec: bash not found") eq_refl))
              eq_refl None eq_refl) as [Hp Hr].
  exists tr, result. split; [exact Hexec|]. split; [exact Ha|]. split; [exact Hp|exact Hr].
Defined.

Lemma lifecycle_runs : is_Some (run lifecycle system0).
Proof. apply (bool_decide_unpack _). vm_compute. exact I. Qed.

Lemma second_bind_runs : is_Some (run second_bind system0).
Proof. apply (bool_decide_unpack _). vm_compute. exact I. Qed.

Lemma world0_unbuffered : unbuffered world0.
Proof.
  intros c ch H. unfold world0, registered in H. cbn [boundChans] in H.
  apply lookup_singleton_Some in H as [_ <-]. done.
Qed.

Lemma bind_single_shot_witness :
  unbuffered world0 /\
  from_option
    (fun s => (count KBoundRecv (trace s) <= 1)%nat /\
              (count KStore (trace s) <= count KBoundRecv (trace s))%nat)
    False (run second_bind system0).
Proof.
  split; [exact world0_unbuffered|].
  destruct (run second_bind system0) as [s|] eqn:Hrun.
  - exact (proj1 (bind_single_shot world0 request0 "abc123" [7; 8]%nat world0_unbuffered)
             second_bind s Hrun).
  - pose proof second_bind_runs as [s Hs]. rewrite Hrun in Hs. discriminate Hs.
Defined.

Lemma registry_retains_session_witness :
  Forall goroutine [WaitForTerminal request0 "abc123";
                    handleTerminalSession 7%nat; handleTerminalSession 8%nat] /\
  is_Some (terminalSessions world0 !! "abc123") /\
  from_option (fun s => is_Some (terminalSessions (world s) !! "abc123"))
    False (run lifecycle system0).
Proof.
  assert (Hps : Forall goroutine [WaitForTerminal request0 "abc123";
                                  handleTerminalSession 7%nat; handleTerminalSession 8%nat])
    by (repeat constructor).
  assert (Hreg : is_Some (terminalSessions world0 !! "abc123"))
    by (apply (bool_decide_unpack _); vm_compute; exact I).
  split; [exact Hps|]. split; [exact Hreg|].
  destruct (run lifecycle system0) as [s|] eqn:Hrun.
  - exact (registry_retains_session world0 _ lifecycle s "abc123" Hps Hrun Hreg).
  - pose proof lifecycle_runs as [s Hs]. rewrite Hrun in Hs. discriminate Hs.
Defined.

Lemma handleTerminalSession_drops_witness :
  sockets world1 !! 9%nat = Some (mkSocket [(bind_unknown, None)] [] None) /\
  terminalSessions world1 !! SessionID (json.Unmarshal bind_unknown zeroMessage).1 = None /\
  exists tr,
    exec (handleTerminalSession 9%nat) world1
    = (tr, Value tt (set_socket world1 9%nat (mkSocket [] [] None))) /\
    Forall quiet tr.
Proof.
  assert (H1 : sockets world1 !! 9%nat = Some (mkSocket [(bind_unknown, None)] [] None))
    by (vm_compute; reflexivity).
  assert (H2 : terminalSessions world1
               !! SessionID (json.Unmarshal bind_unknown zeroMessage).1 = None)
    by (vm_compute; reflexivity).
  split; [exact H1|]. split; [exact H2|].
  exact (handleTerminalSession_drops world1 9%nat _ bind_unknown None [] H1 eq_refl
           (or_intror (or_intror (or_intror H2)))).
Defined.

Lemma Read_drops_overflow_witness :
  (length buffer2 < String.length "héllo")%nat /\
  json.Unmarshal stdin_accent zeroMessage
  = (mkTerminalMessage "stdin" "héllo" "" 0 0, None) /\
  exec (Read session0 buffer2) world2
  = ([EvRecv (Some 7%nat) stdin_accent None],
     Value ([Byte.x68; Byte.xc3], (2%nat, None))
       (set_socket world2 7%nat (mkSocket [] [] None))).
Proof.
  assert (H1 : (length buffer2 < String.length "héllo")%nat) by (vm_compute; lia).
  assert (H2 : json.Unmarshal stdin_accent zeroMessage
               = (mkTerminalMessage "stdin" "héllo" "" 0 0, None))
    by (vm_compute; reflexivity).
  assert (H4 : sockets world2 !! 7%nat = Some (mkSocket [(stdin_accent, None)] [] None))
    by (vm_compute; reflexivity).
  split; [exact H1|]. split; [exact H2|].
  exact (proj1 (Read_drops_overflow world2 session0 buffer2 7%nat _ stdin_accent []
                  _ eq_refl H4 eq_refl H2 eq_refl H1)).
Defined.
Lemma resize_queue_witness :
  sockJSSession session0 = Some 7%nat /\ sizeChan session0 = Some 1%nat /\
  returns (Read session0 buffer4)
    [EvRecv (Some 7%nat) resize_24_80 None;
     EvSizeSend (Some 1%nat) {| Width := 80; Height := 24 |}]
    (buffer4, (0%nat, None)).
Proof.
  assert (H : json.Unmarshal resize_24_80 zeroMessage
              = (mkTerminalMessage "resize" "" "" 24 80, None))
    by (vm_compute; reflexivity).
  split; [reflexivity|]. split; [reflexivity|].
  exact (proj1 (proj1 (resize_queue session0 buffer4 7%nat 1%nat eq_refl eq_refl)
                  resize_24_80 _ H eq_refl)).
Defined.

Lemma codec_round_trip_witness :
  json.valid_utf8 (Data message0) = true /\ uint16 (Rows message0) /\
  uint16 (Cols message0) /\
  json.Unmarshal (json.Marshal message0).1 zeroMessage = (message0, None).
Proof.
  split; [reflexivity|]. split; [reflexivity|]. split; [reflexivity|].
  exact (proj2 (proj1 (codec_round_trip message0 eq_refl eq_refl eq_refl eq_refl eq_refl))).
Defined.

(** ** More of terminal.go

    *** The allowed shells and the session id *)

(** X1.  [isValidShell] answers true exactly for the shells of the
    list. *)
Theorem isValidShell_member validShells shell :
  isValidShell validShells shell = true <-> shell ∈ validShells.
Proof.
  induction validShells as [|v vs IH]; simpl.
  - split; [done|]. by intros ?%elem_of_nil.
  - rewrite elem_of_cons. destruct (String.eqb v shell) eqn:He.
    + apply String.eqb_eq in He. split; [|done]. intros _. by left.
    + apply String.eqb_neq in He. rewrite IH. split; [by right|].
      intros [->|H]; done.
Qed.

Lemma digit_to_N n :
  n < 16 -> Byte.to_N (hex.digit n) = if n <? 10 then 48 + n else 87 + n.
Proof.
  intros H. destruct n as [|p]; [reflexivity|].
  do 4 (try (destruct p as [p|p|]; try reflexivity)); lia.
Qed.

Lemma nibbles v :
  N.shiftr (Byte.to_N v) 4 < 16 /\ N.land (Byte.to_N v) 0x0f < 16 /\
  Byte.to_N v = 16 * N.shiftr (Byte.to_N v) 4 + N.land (Byte.to_N v) 0x0f.
Proof.
  pose proof (Byte.to_N_bounded v) as Hv.
  change 0x0f with (N.ones 4). rewrite N.land_ones, N.shiftr_div_pow2.
  change (2 ^ 4) with 16. split; [|split].
  - apply N.Div0.div_lt_upper_bound. lia.
  - by apply N.mod_lt.
  - apply N.Div0.div_mod.
Qed.

Lemma set_Some dst i x :
  (i < length dst)%nat -> hex.set dst i x = Some (<[i := x]> dst).
Proof. intros H. unfold hex.set. by rewrite decide_True. Qed.

Lemma Encode_from_spec src : forall i dst,
  (length dst = (i + length src) * 2)%nat ->
  hex.Encode_from i dst src = Some (take (i * 2) dst ++ flat_map digits src)%list.
Proof.
  induction src as [|v rest IH]; intros i dst Hl; simpl in *.
  - rewrite app_nil_r. rewrite take_ge by lia. done.
  - rewrite set_Some by lia. cbn [mbind option_bind].
    rewrite set_Some by (rewrite length_insert; lia). cbn [mbind option_bind].
    rewrite IH by (rewrite !length_insert; lia).
    f_equal.
    replace (S i * 2)%nat with (S (S (i * 2))) by lia.
    rewrite (take_S_r _ (S (i * 2)) (hex.digit (N.land (Byte.to_N v) 15))).
    2:{ replace (S (i * 2)) with (i * 2 + 1)%nat by lia.
        apply list_lookup_insert_eq. rewrite length_insert. lia. }
    rewrite (take_S_r _ (i * 2) (hex.digit (N.shiftr (Byte.to_N v) 4))).
    2:{ rewrite list_lookup_insert_ne by lia. apply list_lookup_insert_eq. lia. }
    rewrite take_insert_ge by lia. rewrite take_insert_ge by lia.
    rewrite <- !app_assoc. done.
Qed.

Lemma Encode_spec src :
  hex.Encode (replicate (hex.EncodedLen (length src)) Byte.x00) src
  = Some (flat_map digits src).
Proof.
  unfold hex.Encode. rewrite Encode_from_spec; [done|].
  rewrite length_replicate. unfold hex.EncodedLen. lia.
Qed.

Lemma digit_inj n m : n < 16 -> m < 16 -> hex.digit n = hex.digit m -> n = m.
Proof.
  intros Hn Hm H. apply (f_equal Byte.to_N) in H.
  rewrite !digit_to_N in H by done.
  destruct (n <? 10) eqn:En, (m <? 10) eqn:Em;
    try apply N.ltb_lt in En; try apply N.ltb_lt in Em;
    try apply N.ltb_ge in En; try apply N.ltb_ge in Em; lia.
Qed.

Lemma to_N_inj v v' : Byte.to_N v = Byte.to_N v' -> v = v'.
Proof.
  intros H. pose proof (Byte.of_to_N v) as H1. rewrite H, Byte.of_to_N in H1.
  by injection H1.
Qed.

Lemma digits_inj v v' : digits v = digits v' -> v = v'.
Proof.
  unfold digits. intros [= Hhi Hlo].
  destruct (nibbles v) as (H1 & H2 & H3), (nibbles v') as (H1' & H2' & H3').
  apply digit_inj in Hhi, Hlo; try done. apply to_N_inj. lia.
Qed.

Lemma flat_map_digits_inj r : forall r',
  flat_map digits r = flat_map digits r' -> r = r'.
Proof.
  induction r as [|v r IH]; intros [|v' r']; try done.
  cbn [flat_map digits app]. intros [= Hhi Hlo Hr].
  f_equal; [|by apply IH]. apply digits_inj. unfold digits. by rewrite Hhi, Hlo.
Qed.

Lemma random_bytes r :
  length r = 16%nat ->
  take (length (replicate 16 Byte.x00))
    (r ++ drop (length r) (replicate 16 Byte.x00))%list = r.
Proof.
  intros H. rewrite length_replicate, H. cbn [replicate drop].
  rewrite app_nil_r. by rewrite take_ge by lia.
Qed.

Lemma digit_hextable n :
  n < 16 -> ascii_of_byte (hex.digit n) ∈ list_ascii_of_string hex.hextable.
Proof.
  intros H. destruct n as [|p]; [by repeat constructor|].
  do 4 (try (destruct p as [p|p|]; try by repeat constructor)); lia.
Qed.

Lemma length_string_of_list_byte l :
  String.length (string_of_list_byte l) = length l.
Proof.
  by rewrite <- length_list_byte_of_string, list_byte_of_string_of_list_byte.
Qed.

Lemma length_flat_map_digits r : length (flat_map digits r) = (length r * 2)%nat.
Proof. induction r as [|v r IH]; [done|]. simpl. rewrite IH. lia. Qed.

(** X2.  Whatever the random source wrote, a call of
    [genTerminalSessionId] that got no error does not panic and returns
    an id of 32 characters, all of them digits of [hex.hextable]; a call
    that got an error returns the empty id and that error. *)
Theorem genTerminalSessionId_format random :
  (exists s,
     genTerminalSessionId (random, None) = Some (s, None) /\
     String.length s = 32%nat /\
     Forall (fun c => c ∈ list_ascii_of_string hex.hextable) (list_ascii_of_string s)) /\
  (forall err, genTerminalSessionId (random, Some err) = Some ("", Some err)).
Proof.
  split; [|done]. unfold genTerminalSessionId. cbn [fst snd].
  set (bytes := take _ _).
  assert (Hb : length bytes = 16%nat).
  { unfold bytes. rewrite length_take, length_app, length_drop, !length_replicate. lia. }
  rewrite Encode_spec. cbn [mbind option_bind]. eexists. split; [done|]. split.
  - by rewrite length_string_of_list_byte, length_flat_map_digits, Hb.
  - clear Hb. induction bytes as [|v r IH]; [constructor|].
    cbn [flat_map digits app]. unfold string_of_list_byte in *.
    cbn [map string_of_list_ascii list_ascii_of_string].
    destruct (nibbles v) as (H1 & H2 & _).
    constructor; [by apply digit_hextable|]. constructor; [by apply digit_hextable|]. done.
Qed.

(** X3.  Two calls that read different 16 random bytes return different
    ids: the id determines the bytes. *)
Theorem genTerminalSessionId_injective r r' :
  length r = 16%nat -> length r' = 16%nat ->
  genTerminalSessionId (r, None) = genTerminalSessionId (r', None) -> r = r'.
Proof.
  intros Hr Hr'. unfold genTerminalSessionId. cbn [fst snd].
  rewrite !random_bytes by done. rewrite !Encode_spec. cbn [mbind option_bind].
  intros [= H]. apply flat_map_digits_inj.
  by rewrite <- (list_byte_of_string_of_list_byte (flat_map digits r)), H,
    list_byte_of_string_of_list_byte.
Qed.

(** *** What the client decodes from a frame *)

Lemma coerce_valid s : valid_utf8 s = true -> coerce s = s.
Proof.
  remember (String.length s) as n eqn:Hn. revert s Hn.
  induction n as [n IH] using lt_wf_ind. intros s Hn Hv.
  destruct s as [|c0 s1]; [reflexivity|].
  cbn [coerce valid_utf8 String.length] in *.
  destruct (code c0 <? 0x80).
  { by rewrite (IH (String.length s1)) by (done || lia). }
  destruct s1 as [|c1 s2]; [done|]. cbn [String.length] in Hn.
  destruct (valid2 c0 c1).
  { by rewrite (IH (String.length s2)) by (done || lia). }
  destruct s2 as [|c2 s3]; [done|]. cbn [String.length] in Hn.
  destruct (valid3 c0 c1 c2).
  { by rewrite (IH (String.length s3)) by (done || lia). }
  destruct s3 as [|c3 s4]; [done|]. cbn [String.length] in Hn.
  destruct (valid4 c0 c1 c2 c3); [|done].
  by rewrite (IH (String.length s4)) by (done || lia).
Qed.

Lemma valid_replacement s : valid_utf8 (replacement +:+ s) = valid_utf8 s.
Proof. reflexivity. Qed.

Lemma valid2_high c0 c1 : valid2 c0 c1 = true -> (code c0 <? 0x80) = false.
Proof. unfold valid2, between. intros H. nbool. apply N.ltb_ge. lia. Qed.

Lemma valid_coerce s : valid_utf8 (coerce s) = true.
Proof.
  remember (String.length s) as n eqn:Hn. revert s Hn.
  induction n as [n IH] using lt_wf_ind. intros s Hn.
  destruct s as [|c0 s1]; [reflexivity|].
  cbn [coerce String.length] in *.
  destruct (code c0 <? 0x80) eqn:Hc0.
  { cbn [valid_utf8]. rewrite Hc0. apply (IH (String.length s1)); (done || lia). }
  destruct s1 as [|c1 s2]; [done|]. cbn [String.length] in Hn.
  destruct (valid2 c0 c1) eqn:H2.
  { cbn [valid_utf8]. rewrite Hc0, H2. apply (IH (String.length s2)); (done || lia). }
  destruct s2 as [|c2 s3].
  { rewrite valid_replacement. apply (IH 1%nat); (done || lia). }
  cbn [String.length] in Hn.
  destruct (valid3 c0 c1 c2) eqn:H3.
  { cbn [valid_utf8]. rewrite Hc0, H2, H3. apply (IH (String.length s3)); (done || lia). }
  destruct s3 as [|c3 s4].
  { rewrite valid_replacement. apply (IH 2%nat); (done || lia). }
  cbn [String.length] in Hn.
  destruct (valid4 c0 c1 c2 c3) eqn:H4.
  { cbn [valid_utf8]. rewrite Hc0, H2, H3, H4. apply (IH (String.length s4)); (done || lia). }
  rewrite valid_replacement.
  apply (IH (String.length (String c1 (String c2 (String c3 s4))))); cbn [String.length]; (done || lia).
Qed.

Lemma unquote_invalid_escape tail :
  unquote_body (invalid_escape +:+ tail) = prepend replacement (unquote_body tail).
Proof. reflexivity. Qed.

Lemma unquote_quote_coerce s rest :
  unquote_body (quote_body s +:+ String dquote rest) = Some (coerce s, rest).
Proof.
  remember (String.length s) as n eqn:Hn. revert s Hn.
  induction n as [n IH] using lt_wf_ind. intros s Hn.
  destruct s as [|c0 s1]; [reflexivity|].
  cbn [quote_body coerce String.length] in *.
  destruct (code c0 <? 0x80) eqn:Hc0.
  { rewrite append_assoc, unquote_escape_ascii by done.
    rewrite (IH (String.length s1)) by (done || lia). done. }
  destruct (tests_high c0 Hc0) as (T1 & T2 & T3).
  destruct s1 as [|c1 s2]; [reflexivity|]. cbn [String.length] in Hn.
  destruct (valid2 c0 c1) eqn:H2.
  { rewrite !append_cons. cbn [unquote_body]. rewrite T1, T2, T3, Hc0, H2.
    rewrite (IH (String.length s2)) by (done || lia). done. }
  destruct s2 as [|c2 s3].
  { rewrite append_assoc, unquote_invalid_escape.
    rewrite (IH 1%nat) by (done || lia). done. }
  cbn [String.length] in Hn.
  destruct (valid3 c0 c1 c2) eqn:H3.
  { destruct (line_sep c0 c1 c2) eqn:Hls.
    - unfold line_sep in Hls. apply andb_true_iff in Hls as [Hls Hc2].
      apply andb_true_iff in Hls as [Hc0' Hc1]. apply N.eqb_eq in Hc0', Hc1.
      assert (c0 = chr 0xE2) as -> by (apply code_inj; by rewrite Hc0').
      assert (c1 = chr 0x80) as -> by (apply code_inj; by rewrite Hc1).
      rewrite append_assoc.
      apply orb_true_iff in Hc2 as [Hc2|Hc2]; apply N.eqb_eq in Hc2.
      + assert (c2 = chr 0xA8) as -> by (apply code_inj; by rewrite Hc2).
        rewrite unquote_line_sep by (by left).
        rewrite (IH (String.length s3)) by (done || lia). reflexivity.
      + assert (c2 = chr 0xA9) as -> by (apply code_inj; by rewrite Hc2).
        rewrite unquote_line_sep by (by right).
        rewrite (IH (String.length s3)) by (done || lia). reflexivity.
    - rewrite append_assoc, !append_cons, append_nil. cbn [unquote_body].
      rewrite T1, T2, T3, Hc0, H2, H3.
      rewrite (IH (String.length s3)) by (done || lia). done. }
  destruct s3 as [|c3 s4].
  { rewrite append_assoc, unquote_invalid_escape.
    rewrite (IH 2%nat) by (done || lia). done. }
  cbn [String.length] in Hn.
  destruct (valid4 c0 c1 c2 c3) eqn:H4.
  { rewrite !append_cons. cbn [unquote_body]. rewrite T1, T2, T3, Hc0, H2, H3, H4.
    rewrite (IH (String.length s4)) by (done || lia). done. }
  rewrite append_assoc, unquote_invalid_escape.
  rewrite (IH (String.length (String c1 (String c2 (String c3 s4)))))
    by (cbn [String.length]; (done || lia)). done.
Qed.

Lemma parse_value_coerce fuel v rest :
  parse_value (S fuel) (quote v +:+ rest) = Some (Str (coerce v), rest).
Proof.
  rewrite quote_append. cbn [parse_value].
  rewrite (unquote_quote_coerce v rest). eval_dquote. by eval_tests.
Qed.

Lemma parse_coerce_member fuel k v c rest :
  valid_utf8 k = true ->
  c = ","%char \/ c = "}"%char ->
  parse_members (S (S fuel)) (key k +:+ quote v +:+ String c rest) =
  if code c =? 44 then
    match parse_members (S fuel) (skip_space rest) with
    | Some (kvs, r5) => Some ((k, Str (coerce v)) :: kvs, r5)
    | None => None
    end
  else Some ([(k, Str (coerce v))], rest).
Proof.
  intros Hk Hc. unfold quote at 1.
  apply parse_members_cons; try done.
  by apply (parse_value_coerce fuel v).
Qed.

Lemma parse_encode_coerce m :
  parse (encode m)
  = Some (Object [("Op", Str (coerce (Op m))); ("Data", Str (coerce (Data m)));
                  ("SessionID", Str (coerce (SessionID m)));
                  ("Rows", Number (format_uint (Rows m)));
                  ("Cols", Number (format_uint (Cols m)))]).
Proof.
  unfold parse, encode.
  generalize (2 * String.length
                ("{" +:+ key "Op" +:+ quote (Op m) +:+ "," +:+ key "Data" +:+ quote (Data m)
                 +:+ "," +:+ key "SessionID" +:+ quote (SessionID m)
                 +:+ "," +:+ key "Rows" +:+ format_uint (Rows m)
                 +:+ "," +:+ key "Cols" +:+ format_uint (Cols m) +:+ "}"))%nat.
  intros f. cbn [Nat.add]. rewrite !comma_append.
  change ("{" +:+ ?r) with (String "{"%char r).
  change ("}") with (String "}"%char "").
  cbn [skip_space]. eval_tests. cbn [parse_value]. eval_tests.
  rewrite skip_space_key.
  rewrite key_append at 1. rewrite <- key_append.
  do 3 (rewrite parse_coerce_member by (done || auto); eval_tests;
        rewrite skip_space_key).
  rewrite parse_number_member by (done || auto). eval_tests.
  rewrite skip_space_key.
  rewrite parse_number_member by (done || auto). eval_tests.
  done.
Qed.

(** What a client decodes from the encoding of a message. *)
Lemma Unmarshal_Marshal m :
  uint16 (Rows m) -> uint16 (Cols m) ->
  Unmarshal (Marshal m).1 zeroMessage
  = (mkTerminalMessage (coerce (Op m)) (coerce (Data m)) (coerce (SessionID m))
       (Rows m) (Cols m), None).
Proof.
  intros Hrows Hcols. unfold Marshal, Unmarshal. cbn [fst].
  rewrite parse_encode_coerce. cbn [fill].
  repeat match goal with
         | |- context [find_field fields ?k None] =>
           let t := constr:(find_field fields k None) in
           let v := eval vm_compute in t in change t with v
         end.
  unfold store. cbn [is_string_field set_string set_uint Op Data SessionID Rows Cols zeroMessage].
  rewrite !parse_uint16_format by done.
  cbn [set_uint Op Data SessionID Rows Cols]. done.
Qed.

(** *** The registry under any interleaving *)

Ltac walk_rebinds :=
  repeat (cbn [bind call load rebinds event_of];
          match goal with
          | |- _ /\ _ => split
          | |- forall _, _ => intro
          | |- True => exact I
          | |- context [match ?x with _ => _ end] => destruct x
          end).

Lemma goroutine_rebinds m p : goroutine p -> rebinds m p.
Proof.
  destruct 1.
  - unfold handleTerminalSession. walk_rebinds.
    match goal with
    | H : option_Forall2 _ _ (Some _) |- _ => inversion H as [t1 t2 Hs Ht1 Ht2|]; subst
    end.
    exists t1. split; [done|]. destruct Hs as (? & ? & ?). by repeat split.
  - unfold WaitForTerminal, launchShell, tryShells, startProcess, Close. walk_rebinds.
  - unfold Read. walk_rebinds.
  - unfold Write. walk_rebinds.
  - unfold Next. walk_rebinds.
  - unfold Toast. walk_rebinds.
  - unfold Close. walk_rebinds.
Qed.

Lemma perform_sessions {X : Type} (e : effect X) w x w' :
  perform e w = Value x w' ->
  terminalSessions w' =
  match e with
  | MapStore key v => <[key := v]> (terminalSessions w)
  | MapDelete key => delete key (terminalSessions w)
  | _ => terminalSessions w
  end.
Proof.
  intros Hp.
  destruct e; simpl in Hp; repeat case_match; simplify_eq; done.
Qed.

Lemma perform_MapLoad_inv key w x w' :
  perform (MapLoad key) w = Value x w' -> x = terminalSessions w !! key.
Proof. by intros [= <- <-]. Qed.

Lemma stepped_stable m s s' : stepped s s' -> stable m s -> stable m s'.
Proof.
  intros Hst [Hreg Hpool].
  assert (Hlk : forall i t, pool s !! i = Some t -> thread_rebinds m t).
  { intros i t Hi. by eapply (Forall_lookup_1 _ _ _ _ Hpool). }
  destruct Hst as [i X e k x w' Hi Hp ->|i X e k msg Hi Hp ->
                  |i j c x ki kj ch Hij Hi Hj Hch Hcl Hb ->
                  |i j c x ki kj ch Hij Hi Hj Hch Hcl Hb ->]; unfold stable; simpl.
  - apply Hlk in Hi as [He Hk]. split.
    + intros key. rewrite (perform_sessions e _ _ _ Hp).
      destruct e as [|key' v| | | | | | | | | | | |]; try apply Hreg; [|done].
      destruct He as (t & Ht & Hs).
      destruct (decide (key' = key)) as [->|Hne].
      * rewrite lookup_insert_eq, Ht. by constructor.
      * rewrite lookup_insert_ne by done. apply Hreg.
    + apply Forall_insert; [done|]. apply Hk.
      destruct e; try exact I. simpl. apply perform_MapLoad_inv in Hp as ->. apply Hreg.
  - split; [done|]. by apply Forall_insert.
  - apply Hlk in Hi as [_ Hki]. apply Hlk in Hj as [_ Hkj]. split; [done|].
    apply Forall_insert; [|by apply Hkj]. apply Forall_insert; [done|]. by apply Hki.
  - apply Hlk in Hi as [_ Hki]. apply Hlk in Hj as [_ Hkj]. split; [done|].
    apply Forall_insert; [|by apply Hkj]. apply Forall_insert; [done|]. by apply Hki.
Qed.

Lemma same_session_refl t : same_session t t.
Proof. done. Qed.

Lemma stable_start w ps : Forall goroutine ps -> stable (terminalSessions w) (start w ps).
Proof.
  intros Hps. split.
  - intros key. simpl. destruct (terminalSessions w !! key); by constructor.
  - unfold start. simpl. apply Forall_fmap. eapply Forall_impl; [done|].
    intros p Hp. by apply goroutine_rebinds.
Qed.

(** X10.  Whatever the goroutines of this file do, in any order, the
    registry keeps its keys, and every entry keeps its id and its two
    channels: only the connection of an entry ever changes. *)
Theorem registry_entries_stable w ps cs s key :
  Forall goroutine ps ->
  run cs (start w ps) = Some s ->
  option_Forall2 same_session (terminalSessions w !! key) (terminalSessions (world s) !! key).
Proof.
  intros Hps Hrun.
  apply (run_invariant (stable (terminalSessions w)) (stepped_stable _) cs _ _ Hrun).
  by apply stable_start.
Qed.

Lemma events_of_snoc i w ps tr j ev :
  events_of i (Some (mkSystem w ps (tr ++ [(j, ev)])))
  = (events_of i (Some (mkSystem w ps tr)) ++ if decide (j = i) then [ev] else [])%list.
Proof.
  unfold events_of. cbn [trace]. rewrite omap_app. f_equal. simpl.
  by destruct (decide (j = i)).
Qed.

Lemma events_of_world i w w' ps ps' tr :
  events_of i (Some (mkSystem w ps tr)) = events_of i (Some (mkSystem w' ps' tr)).
Proof. done. Qed.

Lemma stepped_waits_forever m sessionId s s' :
  stepped s s' ->
  m !! sessionId = None ->
  stable m s /\ waits_forever sessionId s ->
  stable m s' /\ waits_forever sessionId s'.
Proof.
  intros Hst Hm [Hstable Hw]. split; [by eapply stepped_stable|].
  destruct Hw as (p & H0 & Hp).
  assert (Hnone : terminalSessions (world s) !! sessionId = None).
  { destruct Hstable as [Hreg _]. specialize (Hreg sessionId). rewrite Hm in Hreg.
    by inversion Hreg. }
  destruct Hst as [i X e k x w' Hi Hperf ->|i X e k msg Hi Hperf ->
                  |i j c x ki kj ch Hij Hi Hj Hch Hcl Hb ->
                  |i j c x ki kj ch Hij Hi Hj Hch Hcl Hb ->]; unfold waits_forever.
  - destruct (decide (i = 0%nat)) as [->|Hne].
    + rewrite H0 in Hi. injection Hi as ->.
      destruct Hp as [[[He Hk] Hev]|[Hr Hev]].
      * destruct e as [key'| | | | | | | | | | | | |]; try done. subst key'.
        simpl in Hperf. injection Hperf as <- <-.
        exists (k (terminalSessions (world s) !! sessionId)). cbn [pool]. split.
        { apply list_lookup_insert_eq. by eapply lookup_lt_Some. }
        right. split.
        { apply Hk. simpl. by rewrite Hnone. }
        rewrite events_of_snoc, decide_True by done.
        destruct s as [ws pl tr]. cbn [world pool trace] in *.
        rewrite (events_of_world 0%nat ws ws _ pl), Hev. simpl. by rewrite Hnone.
      * destruct e as [| | | |[c|]| | | | | | | | |]; done.
    + exists p. cbn [pool]. split; [by rewrite list_lookup_insert_ne|].
      rewrite events_of_snoc, decide_False, app_nil_r by done.
      destruct s as [ws pl tr]. exact Hp.
  - destruct (decide (i = 0%nat)) as [->|Hne].
    + rewrite H0 in Hi. injection Hi as ->.
      destruct Hp as [[[He Hk] Hev]|[Hr Hev]].
      * by destruct e.
      * destruct e as [| | | |[c|]| | | | | | | | |]; done.
    + exists p. cbn [pool]. split; [by rewrite list_lookup_insert_ne|].
      destruct s as [ws pl tr]. exact Hp.
  - assert (i <> 0%nat) as Hi0.
    { intros ->. rewrite H0 in Hi. injection Hi as ->.
      destruct Hp as [[[He Hk] Hev]|[Hr Hev]]; done. }
    assert (j <> 0%nat) as Hj0.
    { intros ->. rewrite H0 in Hj. injection Hj as ->.
      destruct Hp as [[[He Hk] Hev]|[Hr Hev]]; done. }
    exists p. cbn [pool]. split; [by rewrite !list_lookup_insert_ne|].
    change (trace s ++ [(i, EvBoundSend (Some c) x); (j, EvBoundRecv (Some c) x)])%list
      with (trace s ++ [(i, EvBoundSend (Some c) x)] ++ [(j, EvBoundRecv (Some c) x)])%list.
    rewrite app_assoc, !events_of_snoc, !decide_False, !app_nil_r by done.
    destruct s as [ws pl tr]. exact Hp.
  - assert (i <> 0%nat) as Hi0.
    { intros ->. rewrite H0 in Hi. injection Hi as ->.
      destruct Hp as [[[He Hk] Hev]|[Hr Hev]]; done. }
    assert (j <> 0%nat) as Hj0.
    { intros ->. rewrite H0 in Hj. injection Hj as ->.
      destruct Hp as [[[He Hk] Hev]|[Hr Hev]]; done. }
    exists p. cbn [pool]. split; [by rewrite !list_lookup_insert_ne|].
    change (trace s ++ [(i, EvSizeSend (Some c) x); (j, EvSizeRecv (Some c) x)])%list
      with (trace s ++ [(i, EvSizeSend (Some c) x)] ++ [(j, EvSizeRecv (Some c) x)])%list.
    rewrite app_assoc, !events_of_snoc, !decide_False, !app_nil_r by done.
    destruct s as [ws pl tr]. exact Hp.
Qed.

(** X11.  The coordinator of an id that is not in the registry looks
    the id up, finds nothing and waits on the nil channel for ever:
    whatever the other goroutines do, it does nothing else, and the id
    stays out of the registry. *)
Theorem unregistered_session_never_starts w request sessionId ps cs s :
  terminalSessions w !! sessionId = None ->
  Forall goroutine ps ->
  run cs (start w (WaitForTerminal request sessionId :: ps)) = Some s ->
  terminalSessions (world s) !! sessionId = None /\
  (events_of 0 (Some s) = [] \/ events_of 0 (Some s) = [EvLoad sessionId None]).
Proof.
  intros Hm Hps Hrun.
  assert (Hinv : stable (terminalSessions w) s /\ waits_forever sessionId s).
  { apply (run_invariant
             (fun s => stable (terminalSessions w) s /\ waits_forever sessionId s)
             (fun s s' H => stepped_waits_forever _ sessionId s s' H Hm) cs _ _ Hrun).
    split.
    - apply stable_start. constructor; [constructor|done].
    - exists (WaitForTerminal request sessionId). split; [done|]. left. split; [|done].
      unfold WaitForTerminal, load. cbn [bind call at_load]. split; [done|].
      intros x Hx. simpl in Hx. injection Hx as ->. done. }
  destruct Hinv as [[Hreg _] (p & _ & Hp)]. split.
  - specialize (Hreg sessionId). rewrite Hm in Hreg. by inversion Hreg.
  - destruct Hp as [[_ Hev]|[_ Hev]]; auto.
Qed.

Lemma bind_received_mono seen seen' c key :
  seen ⊆ seen' -> bind_received seen c key -> bind_received seen' c key.
Proof. intros Hsub (m & msg & Hin & H). exists m, msg. split; [by apply Hsub|done]. Qed.

Lemma subseteq_snoc {A : Type} (l l' k : list A) : l ⊆ l' -> (l ++ k)%list ⊆ (l' ++ k)%list.
Proof.
  intros Hsub y [Hy|Hy]%elem_of_app; apply elem_of_app; [left; by apply Hsub|by right].
Qed.

Lemma subseteq_app {A : Type} (l k : list A) : l ⊆ (l ++ k)%list.
Proof. intros y Hy. apply elem_of_app. by left. Qed.

Lemma subseteq_pair {A : Type} (l : list A) (a b : A) :
  (l ++ [a])%list ⊆ (l ++ [a; b])%list /\ (l ++ [b])%list ⊆ (l ++ [a; b])%list.
Proof.
  split; intros y [Hy|Hy]%elem_of_app; apply elem_of_app; try (by left); right;
    apply list_elem_of_singleton in Hy as ->; repeat constructor.
Qed.

Lemma vouched_mono p : forall seen seen',
  seen ⊆ seen' -> vouched seen p -> vouched seen' p.
Proof.
  induction p as [r|X e k IH]; intros seen seen' Hsub; [done|].
  cbn [vouched]. intros [He Hk]. split.
  - destruct e; try done. intros c Hc. eapply bind_received_mono; [done|]. by apply He.
  - intros x. eapply IH; [|apply Hk]. by apply subseteq_snoc.
Qed.

Ltac walk_vouched :=
  repeat (cbn [bind call load vouched event_of];
          match goal with
          | |- _ /\ _ => split
          | |- forall _, _ => intro
          | |- True => exact I
          | |- context [match ?x with _ => _ end] => destruct x
          end).

Lemma goroutine_vouched seen p : goroutine p -> vouched seen p.
Proof.
  destruct 1.
  - unfold handleTerminalSession. cbn [bind call vouched]. split; [done|].
    intros [buf [e|]]; cbn [bind call vouched]; [walk_vouched|].
    destruct (json.Unmarshal buf zeroMessage) as [msg [e|]] eqn:Hd; [walk_vouched|].
    destruct (decide (Op msg <> "bind")) as [Hop|Hop]; [walk_vouched|].
    cbn [bind call vouched]. split; [done|].
    intros [t|]; cbn [bind call vouched]; [|walk_vouched].
    split; [done|]. intros []. split; [|done].
    intros c [= <-]. exists buf, msg. split.
    + set_solver.
    + split; [done|]. split; [|done]. by destruct (decide (Op msg = "bind")).
  - unfold WaitForTerminal, launchShell, tryShells, startProcess, Close. walk_vouched.
  - unfold Read. walk_vouched.
  - unfold Write. walk_vouched.
  - unfold Next. walk_vouched.
  - unfold Toast. walk_vouched.
  - unfold Close. walk_vouched.
Qed.

Lemma stepped_attached_by_bind m s s' :
  stepped s s' -> attached_by_bind m s -> attached_by_bind m s'.
Proof.
  intros Hst [Hreg Hpool].
  assert (Hlk : forall i t, pool s !! i = Some t -> thread_vouched (trace s).*2 t).
  { intros i t Hi. by eapply (Forall_lookup_1 _ _ _ _ Hpool). }
  assert (Hgrow : forall l t, thread_vouched (trace s).*2 t ->
                              thread_vouched ((trace s ++ l)%list.*2) t).
  { intros l [p|msg] Ht; [|done]. simpl. eapply vouched_mono; [|done].
    rewrite fmap_app. apply subseteq_app. }
  destruct Hst as [i X e k x w' Hi Hp ->|i X e k msg Hi Hp ->
                  |i j c x ki kj ch Hij Hi Hj Hch Hcl Hb ->
                  |i j c x ki kj ch Hij Hi Hj Hch Hcl Hb ->]; unfold attached_by_bind; simpl.
  - apply Hlk in Hi as [He Hk]. split.
    + intros key t c. rewrite (perform_sessions e _ _ _ Hp). intros Ht Hc.
      assert (Hold : terminalSessions (world s) !! key = Some t ->
                (exists t0, m !! key = Some t0 /\ sockJSSession t0 = Some c) \/
                bind_received ((trace s ++ [(i, event_of e x)])%list.*2) c key).
      { intros Ht'. destruct (Hreg key t c Ht' Hc) as [?|Hr]; [by left|right].
        eapply bind_received_mono; [|done]. rewrite fmap_app. apply subseteq_app. }
      destruct e as [|key' v|key'| | | | | | | | | | |]; try (by apply Hold).
      * destruct (decide (key' = key)) as [->|Hne].
        -- rewrite lookup_insert_eq in Ht. injection Ht as ->. right.
           eapply bind_received_mono; [|by apply He]. rewrite fmap_app. apply subseteq_app.
        -- rewrite lookup_insert_ne in Ht by done. by apply Hold.
      * apply Hold. apply lookup_delete_Some in Ht. tauto.
    + apply Forall_insert.
      * eapply Forall_impl; [done|]. intros t. apply Hgrow.
      * simpl. rewrite fmap_app. apply Hk.
  - split; [done|]. by apply Forall_insert.
  - apply Hlk in Hi as [_ Hki]. apply Hlk in Hj as [_ Hkj]. split.
    + intros key t c' Ht Hc. destruct (Hreg key t c' Ht Hc) as [?|Hr]; [by left|right].
      eapply bind_received_mono; [|done]. rewrite fmap_app. apply subseteq_app.
    + apply Forall_insert; [apply Forall_insert|].
      * eapply Forall_impl; [done|]. intros t. apply Hgrow.
      * simpl. eapply vouched_mono; [|apply (Hki tt)]. rewrite fmap_app. apply subseteq_pair.
      * simpl. eapply vouched_mono; [|apply (Hkj x)]. rewrite fmap_app. apply subseteq_pair.
  - apply Hlk in Hi as [_ Hki]. apply Hlk in Hj as [_ Hkj]. split.
    + intros key t c' Ht Hc. destruct (Hreg key t c' Ht Hc) as [?|Hr]; [by left|right].
      eapply bind_received_mono; [|done]. rewrite fmap_app. apply subseteq_app.
    + apply Forall_insert; [apply Forall_insert|].
      * eapply Forall_impl; [done|]. intros t. apply Hgrow.
      * simpl. eapply vouched_mono; [|apply (Hki tt)]. rewrite fmap_app. apply subseteq_pair.
      * simpl. eapply vouched_mono; [|apply (Hkj x)]. rewrite fmap_app. apply subseteq_pair.
Qed.

(** X12.  In every run, a connection that the registry holds under a key
    was there from the start, or delivered a message that decodes to a
    bind for that key. *)
Theorem attached_only_by_bind w ps cs s key t c :
  Forall goroutine ps ->
  run cs (start w ps) = Some s ->
  terminalSessions (world s) !! key = Some t -> sockJSSession t = Some c ->
  (exists t0, terminalSessions w !! key = Some t0 /\ sockJSSession t0 = Some c) \/
  bind_received (trace s).*2 c key.
Proof.
  intros Hps Hrun.
  assert (Hinv : attached_by_bind (terminalSessions w) s).
  { apply (run_invariant _ (stepped_attached_by_bind (terminalSessions w)) cs _ _ Hrun).
    split.
    - intros key' t' c' Ht Hc. left. by exists t'.
    - unfold start. simpl. apply Forall_fmap. eapply Forall_impl; [done|].
      intros p Hp. by apply goroutine_vouched. }
  apply Hinv.
Qed.

(** *** The handshake *)

Lemma step_solo i s {X : Type} (e : effect X) k x w' :
  dead s = false ->
  pool s !! i = Some (Running (Do e k)) ->
  perform e (world s) = Value x w' ->
  step (Solo i) s
  = Some (mkSystem w' (<[i := Running (k x)]> (pool s)) (trace s ++ [(i, event_of e x)])).
Proof. intros Hd Hi Hp. unfold step, solo. by rewrite Hd, Hi, Hp. Qed.

Lemma step_sync_bound i j s c v ki kj ch :
  dead s = false -> i <> j ->
  pool s !! i = Some (Running (Do (BoundSend (Some c) v) ki)) ->
  pool s !! j = Some (Running (Do (BoundRecv (Some c)) kj)) ->
  boundChans (world s) !! c = Some ch -> closed ch = false -> buf ch = [] ->
  step (Sync i j) s
  = Some (mkSystem (world s)
            (<[j := Running (kj v)]> (<[i := Running (ki tt)]> (pool s)))
            (trace s ++ [(i, EvBoundSend (Some c) v); (j, EvBoundRecv (Some c) v)])).
Proof.
  intros Hd Hij Hi Hj Hch Hcl Hb. unfold step, sync. rewrite Hd, Hi, Hj.
  cbn [mbind option_bind at_send at_recv open_and_empty].
  rewrite Hch, Hcl, Hb. rewrite !bool_decide_eq_true_2 by done. done.
Qed.

Lemma WaitForTerminal_afterBind request sessionId :
  WaitForTerminal request sessionId
  = (t <- load sessionId ;; _ <- call (BoundRecv (bound t)) ;; afterBind request sessionId).
Proof. reflexivity. Qed.

Lemma run_app cs1 cs2 s : run (cs1 ++ cs2) s = run cs1 s ≫= run cs2.
Proof.
  revert s. induction cs1 as [|c cs1 IH]; intros s; [done|].
  cbn [app run]. destruct (step c s); [apply IH|done].
Qed.

Lemma handshake_state w request sessionId c t b ch k m rest msg :
  terminalSessions w !! sessionId = Some t -> bound t = Some b ->
  boundChans w !! b = Some ch -> closed ch = false -> buf ch = [] ->
  sockets w !! c = Some k -> inbox k = (m, None) :: rest ->
  json.Unmarshal m zeroMessage = (msg, None) ->
  Op msg = "bind" -> SessionID msg = sessionId ->
  run (handshake ++ [Solo 1%nat])
    (start w [WaitForTerminal request sessionId; handleTerminalSession c])
  = Some (mkSystem
            (set_sessions (set_socket w c (mkSocket rest (outbox k) (closeFrame k)))
               (<[sessionId := mkTerminalSession (id t) (bound t) (Some c) (sizeChan t)]>
                  (terminalSessions w)))
            [Running (afterBind request sessionId); Running (Ret tt)]
            [(0, EvLoad sessionId (Some t)); (1, EvRecv (Some c) m None);
             (1, EvLoad sessionId (Some t));
             (1, EvBoundSend (Some b) None); (0, EvBoundRecv (Some b) None);
             (1, EvStore sessionId
                   (mkTerminalSession (id t) (bound t) (Some c) (sizeChan t)))]%nat).
Proof.
  intros Ht Hb Hch Hcl Hbuf Hk Hin Hd Hop Hsid.
  rewrite WaitForTerminal_afterBind.
  unfold handshake, start, handleTerminalSession, load.
  cbn [app fmap list_fmap run bind call].
  erewrite step_solo; [|done|done|]; cycle 1.
  { cbn [perform world]. reflexivity. }
  cbn [pool trace world app event_of]. rewrite Ht.
  cbn [insert list_insert bind from_option Datatypes.id]. rewrite Hb.
  erewrite step_solo; [|done|done|]; cycle 1.
  { cbn [perform world]. rewrite Hk, Hin. reflexivity. }
  cbn [pool trace world app event_of insert list_insert fst snd].
  rewrite Hd. rewrite decide_False by (intros H; by apply H).
  erewrite step_solo; [|done|done|]; cycle 1.
  { cbn [perform world set_socket terminalSessions]. reflexivity. }
  cbn [pool trace world app event_of insert list_insert fst snd set_socket terminalSessions].
  rewrite Hsid, Ht. cbn [bound]. rewrite Hb.
  erewrite step_sync_bound; [|done|done|done|done| |done|done]; cycle 1.
  { cbn [world boundChans]. exact Hch. }
  cbn [pool trace world app insert list_insert call].
  erewrite step_solo; [|done|done|]; cycle 1.
  { cbn [perform world]. reflexivity. }
  cbn [world pool trace insert list_insert app event_of]. rewrite <- Hb. reflexivity.
Qed.

(** X9.  A session registered with an open, empty bound channel, its
    coordinator, and a connection whose first message is a bind for its
    id: once the binder has met the coordinator on [bound] and gone on,
    the registry holds the session with that connection, its id and
    channels as before, and the binder has returned. *)
Theorem handshake_attaches w request sessionId c t b ch k m rest msg :
  terminalSessions w !! sessionId = Some t -> bound t = Some b ->
  boundChans w !! b = Some ch -> closed ch = false -> buf ch = [] ->
  sockets w !! c = Some k -> inbox k = (m, None) :: rest ->
  json.Unmarshal m zeroMessage = (msg, None) ->
  Op msg = "bind" -> SessionID msg = sessionId ->
  (fun s => (terminalSessions (world s) !! sessionId, pool s !! 1%nat, trace s))
    <$> run (handshake ++ [Solo 1%nat])
          (start w [WaitForTerminal request sessionId; handleTerminalSession c])
  = Some (Some (mkTerminalSession (id t) (bound t) (Some c) (sizeChan t)),
          Some (Running (Ret tt)),
          [(0, EvLoad sessionId (Some t)); (1, EvRecv (Some c) m None);
           (1, EvLoad sessionId (Some t));
           (1, EvBoundSend (Some b) None); (0, EvBoundRecv (Some b) None);
           (1, EvStore sessionId
                 (mkTerminalSession (id t) (bound t) (Some c) (sizeChan t)))]%nat).
Proof.
  intros Ht Hb Hch Hcl Hbuf Hk Hin Hd Hop Hsid.
  rewrite (handshake_state w request sessionId c t b ch k m rest msg) by done.
  cbn [fmap option_fmap option_map world pool trace set_sessions terminalSessions
       lookup list_lookup].
  by rewrite lookup_insert_eq.
Qed.

(** *** From the bind to the close *)

Lemma exec_launchShell w request sessionId :
  exists tr,
    exec (launchShell request sessionId (QueryParameter request "shell")) w
    = (tr, Value (launched w request) w) /\
    Forall (launches_with (default zeroSession (terminalSessions w !! sessionId))) tr.
Proof.
  unfold launchShell, launched, started.
  destruct (isValidShell _ (QueryParameter request "shell")).
  - unfold startProcess, load. cbn [bind call exec perform event_of].
    destruct (executor w (execRequest request _)) as [e|].
    + eexists. split; [reflexivity|]. by repeat constructor.
    + cbn [bind call exec perform event_of].
      destruct (remote w (execRequest request _));
        (eexists; split; [reflexivity|]; by repeat constructor).
  - unfold tryShells, startProcess, load. cbn [bind call exec perform event_of].
    destruct (executor w (execRequest request ["bash"])) as [e|].
    + cbn [bind call exec perform event_of].
      destruct (executor w (execRequest request ["sh"])) as [e'|].
      { eexists. split; [reflexivity|]. by repeat constructor. }
      cbn [bind call exec perform event_of].
      destruct (remote w (execRequest request ["sh"]));
        (eexists; split; [reflexivity|]; by repeat constructor).
    + cbn [bind call exec perform event_of].
      destruct (remote w (execRequest request ["bash"])) as [e|].
      { cbn [bind call exec perform event_of].
        destruct (executor w (execRequest request ["sh"])) as [e'|].
        { eexists. split; [reflexivity|]. by repeat constructor. }
        cbn [bind call exec perform event_of].
        destruct (remote w (execRequest request ["sh"]));
          (eexists; split; [reflexivity|]; by repeat constructor). }
      eexists. split; [reflexivity|]. by repeat constructor.
Qed.

Lemma run_exec (p : prog unit) : forall w ps tr0 tr w' i,
  existsb is_crashed ps = false ->
  ps !! i = Some (Running p) ->
  exec p w = (tr, Value tt w') ->
  run (replicate (length tr) (Solo i)) (mkSystem w ps tr0)
  = Some (mkSystem w' (<[i := Running (Ret tt)]> ps) (tr0 ++ ((fun ev => (i, ev)) <$> tr))).
Proof.
  induction p as [[]|X e k IH]; intros w ps tr0 tr w' i Hd Hi; cbn [exec].
  - intros [= <- <-]. cbn [length replicate run fmap list_fmap].
    by rewrite app_nil_r, list_insert_id.
  - destruct (perform e w) as [x w1|msg|] eqn:Hp; [|done|done].
    destruct (exec (k x) w1) as [tr1 o] eqn:He. intros [= <- ->].
    cbn [length replicate run].
    rewrite (step_solo i (mkSystem w ps tr0) e k x w1 Hd Hi Hp). cbn [world pool trace].
    assert (Hlen : (i < length ps)%nat) by (by eapply lookup_lt_Some).
    rewrite (IH x w1 _ _ tr1 w' i); [| |by apply list_lookup_insert_eq|done].
    + rewrite list_insert_insert_eq. cbn [fmap list_fmap]. by rewrite <- app_assoc.
    + clear -Hd Hlen. revert i Hlen. induction ps as [|t ps IHps]; intros i Hlen; [done|].
      cbn [existsb] in Hd. apply orb_false_iff in Hd as [Ht Hps].
      destruct i as [|i]; cbn [insert list_insert existsb is_crashed orb]; [done|].
      rewrite Ht. cbn [orb]. apply IHps; [done|]. simpl in Hlen. lia.
Qed.

Lemma streamed_app tr1 tr2 : streamed (tr1 ++ tr2) = (streamed tr1 ++ streamed tr2)%list.
Proof.
  induction tr1 as [|[i ev] tr1 IH]; [done|]. destruct ev; simpl; by rewrite ?IH.
Qed.

Lemma streamed_launches t i tr :
  Forall (launches_with t) tr ->
  Forall (fun x => x.2 = sockJSSession t) (streamed ((fun ev => (i, ev)) <$> tr)).
Proof.
  induction 1 as [|ev tr Hev _ IH]; [constructor|].
  destruct ev; try done; simpl in *. constructor; [by subst|done].
Qed.

Lemma exec_afterBind w request sessionId t b c ch k :
  terminalSessions w !! sessionId = Some t -> bound t = Some b ->
  sockJSSession t = Some c ->
  boundChans w !! b = Some ch -> closed ch = false ->
  sockets w !! c = Some k -> closeFrame k = None ->
  exists tr,
    exec (afterBind request sessionId) w
    = (tr, Value tt
             (set_socket (set_bound w b (mkChannel (cap ch) (buf ch) true)) c
                (mkSocket (inbox k) (outbox k) (Some (close_of (launched w request)))))) /\
    Forall (fun x => x.2 = Some c) (streamed ((fun ev => (0%nat, ev)) <$> tr)) /\
    closes tr = [close_of (launched w request)].
Proof.
  intros Ht Hb Hc Hch Hcl Hk Hopen. unfold afterBind, load.
  cbn [bind call exec perform]. rewrite Ht. cbn [from_option Datatypes.id]. rewrite Hb.
  cbn [perform]. rewrite Hch, Hcl.
  set (w1 := set_bound w b _).
  destruct (exec_launchShell w1 request sessionId) as (tr & He & Htr).
  rewrite exec_bind, He.
  assert (Hl : launched w1 request = launched w request) by done.
  assert (Ht1 : terminalSessions w1 !! sessionId = Some t) by done.
  assert (Hk1 : sockets w1 !! c = Some k) by done.
  rewrite Ht1 in Htr. cbn [from_option Datatypes.id] in Htr.
  rewrite Hl.
  destruct (launched w request) as [e|]; unfold Close;
    cbn [bind call exec perform event_of close_of]; rewrite Ht1;
    cbn [from_option Datatypes.id]; rewrite Hc; cbn [perform]; rewrite Hk1, Hopen;
    (eexists; split; [reflexivity|]); split.
  - cbn [fmap list_fmap streamed]. rewrite fmap_app, streamed_app.
    apply Forall_app. split; [rewrite <- Hc; by apply streamed_launches|by constructor].
  - cbn [closes]. rewrite closes_app. rewrite (launcher_event_closes tr); [done|].
    eapply Forall_impl; [done|]. by intros [].
  - cbn [fmap list_fmap streamed]. rewrite fmap_app, streamed_app.
    apply Forall_app. split; [rewrite <- Hc; by apply streamed_launches|by constructor].
  - cbn [closes]. rewrite closes_app. rewrite (launcher_event_closes tr); [done|].
    eapply Forall_impl; [done|]. by intros [].
Qed.

(** X15.  A session registered with an open, empty bound channel, its
    coordinator, and an open connection whose first message is a bind for
    its id: there is a run in which both goroutines return.  After it the
    registry holds the session with the connection, [bound] is closed,
    every stream was handed the session with the connection, and the
    connection is closed once, with status 2 and the text of the
    launcher's error, or with status 1 and the reason Process exited. *)
Theorem session_runs_to_close w request sessionId c t b ch k m rest msg :
  terminalSessions w !! sessionId = Some t -> bound t = Some b ->
  boundChans w !! b = Some ch -> closed ch = false -> buf ch = [] ->
  sockets w !! c = Some k -> inbox k = (m, None) :: rest -> closeFrame k = None ->
  json.Unmarshal m zeroMessage = (msg, None) ->
  Op msg = "bind" -> SessionID msg = sessionId ->
  exists n s,
    run (handshake ++ [Solo 1%nat] ++ replicate n (Solo 0%nat))
      (start w [WaitForTerminal request sessionId; handleTerminalSession c]) = Some s /\
    pool s = [Running (Ret tt); Running (Ret tt)] /\
    terminalSessions (world s) !! sessionId
    = Some (mkTerminalSession (id t) (bound t) (Some c) (sizeChan t)) /\
    boundChans (world s) !! b = Some (mkChannel (cap ch) [] true) /\
    sockets (world s) !! c
    = Some (mkSocket rest (outbox k) (Some (close_of (launched w request)))) /\
    Forall (fun x => x.2 = Some c) (streamed (trace s)) /\
    closes (trace s).*2 = [close_of (launched w request)].
Proof.
  intros Ht Hb Hch Hcl Hbuf Hk Hin Hopen Hd Hop Hsid.
  pose proof (handshake_state w request sessionId c t b ch k m rest msg
                Ht Hb Hch Hcl Hbuf Hk Hin Hd Hop Hsid) as H5.
  set (attached := mkTerminalSession (id t) (bound t) (Some c) (sizeChan t)) in *.
  set (w5 := set_sessions _ _) in H5.
  destruct (exec_afterBind w5 request sessionId attached b c ch
              (mkSocket rest (outbox k) (closeFrame k)))
    as (tr & He & Hst & Hcl').
  { unfold w5. cbn [set_sessions terminalSessions]. by rewrite lookup_insert_eq. }
  { done. }
  { done. }
  { done. }
  { done. }
  { unfold w5. cbn [set_sessions set_socket sockets]. by rewrite lookup_insert_eq. }
  { done. }
  exists (length tr). eexists. split.
  { rewrite app_assoc, run_app, H5. cbn [mbind option_bind].
    eapply run_exec; [done|done|exact He]. }
  cbn [world pool trace]. split; [done|]. split.
  { unfold w5. cbn [set_socket set_bound set_sessions terminalSessions].
    by rewrite lookup_insert_eq. }
  split.
  { cbn [set_socket set_bound boundChans]. rewrite lookup_insert_eq. by rewrite Hbuf. }
  split.
  { cbn [set_socket sockets inbox outbox]. by rewrite lookup_insert_eq. }
  split.
  - rewrite streamed_app. apply Forall_app. split; [by cbn|done].
  - rewrite fmap_app, closes_app. rewrite <- list_fmap_compose. cbn.
    rewrite list_fmap_id. done.
Qed.

(** *** The methods of a session *)

(** X4.  What [Read] returns is within the buffer: the slice keeps its
    length, the count is at most that length, the bytes after the count
    are untouched, and with an error the count is 0 and the buffer is as
    it was. *)
Theorem Read_within_buffer t p tr p' n err :
  returns (Read t p) tr (p', (n, err)) ->
  length p' = length p /\ (n <= length p)%nat /\ drop n p' = drop n p /\
  (err <> None -> n = 0%nat /\ p' = p).
Proof.
  unfold Read. cbn [bind call returns].
  intros (_ & [m rerr] & tr' & -> & H). cbn [bind] in H.
  destruct rerr as [e|].
  { destruct H as [_ [= -> -> ->]]. repeat split; (done || lia). }
  destruct (Unmarshal m zeroMessage) as [msg [e|]].
  { destruct H as [_ [= -> -> ->]]. repeat split; (done || lia). }
  destruct (decide (Op msg = "stdin")).
  - unfold copy in H. destruct H as [_ [= -> -> ->]].
    pose proof (length_list_byte_of_string (Data msg)) as Hl.
    set (n := Nat.min (length p) (String.length (Data msg))).
    assert (Hn : length (take n (list_byte_of_string (Data msg))) = n).
    { rewrite length_take. lia. }
    split; [|split; [|split]].
    + rewrite length_app, length_drop, Hn. lia.
    + lia.
    + by rewrite drop_app_length'.
    + done.
  - destruct (decide (Op msg = "resize")).
    + cbn [bind call returns] in H. destruct H as (_ & [] & tr'' & -> & _ & [= -> -> ->]).
      repeat split; (done || lia).
    + destruct H as [_ [= -> -> ->]]. repeat split; (done || lia).
Qed.

(** X5.  On an open connection [Write] sends one frame and returns the
    length of [p].  The frame decodes without error to a stdout message
    whose data is valid UTF-8, and is the bytes of [p] when these are
    valid UTF-8. *)
Theorem Write_frame w t p c k :
  sockJSSession t = Some c -> sockets w !! c = Some k -> closeFrame k = None ->
  exists frame data,
    exec (Write t p) w
    = ([EvSend (Some c) frame None],
       Value (length p, None)
         (set_socket w c (mkSocket (inbox k) (outbox k ++ [frame]) None))) /\
    Unmarshal frame zeroMessage = (mkTerminalMessage "stdout" data "" 0 0, None) /\
    valid_utf8 data = true /\
    (valid_utf8 (string_of_list_byte p) = true -> data = string_of_list_byte p).
Proof.
  intros Hc Hk Hopen. unfold Write, Marshal.
  exists (encode (mkTerminalMessage "stdout" (string_of_list_byte p) "" 0 0)),
         (coerce (string_of_list_byte p)).
  split; [|split; [|split]].
  - cbn [bind call exec perform]. rewrite Hc, Hk, Hopen. done.
  - exact (Unmarshal_Marshal (mkTerminalMessage "stdout" (string_of_list_byte p) "" 0 0)
             eq_refl eq_refl).
  - apply valid_coerce.
  - apply coerce_valid.
Qed.

(** X6.  On an open connection [Toast] sends one frame and returns no
    error.  The frame decodes without error to a toast message whose data
    is valid UTF-8, and is [p] when [p] is valid UTF-8. *)
Theorem Toast_frame w t p c k :
  sockJSSession t = Some c -> sockets w !! c = Some k -> closeFrame k = None ->
  exists frame data,
    exec (Toast t p) w
    = ([EvSend (Some c) frame None],
       Value None (set_socket w c (mkSocket (inbox k) (outbox k ++ [frame]) None))) /\
    Unmarshal frame zeroMessage = (mkTerminalMessage "toast" data "" 0 0, None) /\
    valid_utf8 data = true /\
    (valid_utf8 p = true -> data = p).
Proof.
  intros Hc Hk Hopen. unfold Toast, Marshal.
  exists (encode (mkTerminalMessage "toast" p "" 0 0)), (coerce p).
  split; [|split; [|split]].
  - cbn [bind call exec perform]. rewrite Hc, Hk, Hopen. done.
  - exact (Unmarshal_Marshal (mkTerminalMessage "toast" p "" 0 0) eq_refl eq_refl).
  - apply valid_coerce.
  - apply coerce_valid.
Qed.

(** X7.  [Close] records the status and the reason as the close frame of
    an open connection.  On the closed connection [Write] returns 0 and
    the error of the transport, [Toast] returns that error, a second
    [Close] returns, and none of them changes anything: nothing is sent
    and the close frame stays the first one. *)
Theorem Close_is_final w t c k status reason p s status' reason' :
  sockJSSession t = Some c -> sockets w !! c = Some k -> closeFrame k = None ->
  let after := set_socket w c (mkSocket (inbox k) (outbox k) (Some (status, reason))) in
  (exec (Close t status reason) w).2 = Value tt after /\
  (exec (Write t p) after).2 = Value (0%nat, Some ErrSessionNotOpen) after /\
  (exec (Toast t s) after).2 = Value (Some ErrSessionNotOpen) after /\
  (exec (Close t status' reason') after).2 = Value tt after.
Proof.
  intros Hc Hk Hopen after.
  assert (Hk' : sockets after !! c
                = Some (mkSocket (inbox k) (outbox k) (Some (status, reason)))).
  { unfold after. cbn [set_socket sockets]. by rewrite lookup_insert_eq. }
  split; [|split; [|split]].
  - unfold Close. cbn [bind call exec perform]. by rewrite Hc, Hk, Hopen.
  - unfold Write, Marshal. cbn [bind call exec perform]. by rewrite Hc, Hk'.
  - unfold Toast, Marshal. cbn [bind call exec perform]. by rewrite Hc, Hk'.
  - unfold Close. cbn [bind call exec perform]. by rewrite Hc, Hk'.
Qed.

(** X8.  On a session that has no connection, [Read], [Write], [Toast]
    and [Close] panic on the nil interface before they do anything. *)
Theorem unbound_session_panics w t p s status reason :
  sockJSSession t = None ->
  exec (Read t p) w = ([], Panic nil_dereference) /\
  exec (Write t p) w = ([], Panic nil_dereference) /\
  exec (Toast t s) w = ([], Panic nil_dereference) /\
  exec (Close t status reason) w = ([], Panic nil_dereference).
Proof.
  intros Hc. unfold Read, Write, Toast, Close, Marshal.
  cbn [bind call exec perform]. by rewrite Hc.
Qed.

(** *** What the launcher may run *)

Lemma isValidShell_elem validShells shell :
  isValidShell validShells shell = true -> shell ∈ validShells.
Proof.
  induction validShells as [|v vs IH]; simpl; [done|].
  destruct (String.eqb v shell) eqn:He.
  - apply String.eqb_eq in He as ->. intros _. by left.
  - intros H. right. by apply IH.
Qed.

Ltac walk_always :=
  repeat (cbn [bind call load always event_of allowed_exec execRequest
               Command Stdin Stdout Stderr TTY];
          match goal with
          | |- _ /\ _ => split
          | |- forall _, _ => intro
          | |- True => exact I
          | |- _ = _ => reflexivity
          | |- _ \/ _ => (left; reflexivity) || (right; reflexivity)
          | |- context [match ?x with _ => _ end] => destruct x
          end).

Lemma goroutine_allowed_exec p : goroutine p -> always allowed_exec p.
Proof.
  destruct 1.
  - unfold handleTerminalSession. walk_always.
  - unfold WaitForTerminal, launchShell.
    destruct (isValidShell ["bash"; "sh"] (QueryParameter request "shell")) eqn:Hv.
    + apply isValidShell_elem in Hv.
      assert (Hs : QueryParameter request "shell" = "bash" \/
                   QueryParameter request "shell" = "sh").
      { apply elem_of_cons in Hv as [->|Hv]; [by left|].
        apply elem_of_cons in Hv as [->|Hv]; [by right|]. by apply elem_of_nil in Hv. }
      unfold startProcess, Close.
      destruct Hs as [-> | ->]; walk_always.
    + unfold tryShells, startProcess, Close. walk_always.
  - unfold Read. walk_always.
  - unfold Write. walk_always.
  - unfold Next. walk_always.
  - unfold Toast. walk_always.
  - unfold Close. walk_always.
Qed.

Lemma stepped_always P s s' :
  stepped s s' ->
  Forall (thread_always P) (pool s) /\ Forall (fun ev => P ev.2) (trace s) ->
  Forall (thread_always P) (pool s') /\ Forall (fun ev => P ev.2) (trace s').
Proof.
  intros Hst [Hpool Htr].
  assert (Hlk : forall i t, pool s !! i = Some t -> thread_always P t).
  { intros i t Hi. by eapply (Forall_lookup_1 _ _ _ _ Hpool). }
  destruct Hst as [i X e k x w' Hi Hp ->|i X e k msg Hi Hp ->
                  |i j c x ki kj ch Hij Hi Hj Hch Hcl Hb ->
                  |i j c x ki kj ch Hij Hi Hj Hch Hcl Hb ->]; simpl.
  - apply Hlk in Hi. destruct (Hi x) as [Hev Hk]. split.
    + by apply Forall_insert.
    + apply Forall_app. split; [done|]. by repeat constructor.
  - split; [|done]. by apply Forall_insert.
  - apply Hlk in Hi. apply Hlk in Hj.
    destruct (Hi tt) as [Hevi Hki], (Hj x) as [Hevj Hkj]. split.
    + apply Forall_insert; [|done]. by apply Forall_insert.
    + apply Forall_app. split; [done|]. by repeat constructor.
  - apply Hlk in Hi. apply Hlk in Hj.
    destruct (Hi tt) as [Hevi Hki], (Hj x) as [Hevj Hkj]. split.
    + apply Forall_insert; [|done]. by apply Forall_insert.
    + apply Forall_app. split; [done|]. by repeat constructor.
Qed.

(** X13.  In every run, every call of the remote executor, to create it
    or to stream, is for the command bash or the command sh, with a
    terminal and the three streams: a shell named by the request is used
    only if it is one of the two. *)
Theorem only_allowed_shells w ps cs s :
  Forall goroutine ps ->
  run cs (start w ps) = Some s ->
  Forall (fun ev => allowed_exec ev.2) (trace s).
Proof.
  intros Hps Hrun.
  apply (run_invariant _ (stepped_always allowed_exec) cs _ _ Hrun).
  split; [|constructor].
  unfold start. simpl. apply Forall_fmap. eapply Forall_impl; [done|].
  intros p Hp. by apply goroutine_allowed_exec.
Qed.

(** *** No stream without an executor *)

Lemma prepared_mono i p : forall seen seen',
  seen ⊆ seen' -> prepared i seen p -> prepared i seen' p.
Proof.
  induction p as [r|X e k IH]; intros seen seen' Hsub; [done|].
  cbn [prepared]. intros [He Hk]. split.
  - destruct e; try done. by apply Hsub.
  - intros x. eapply IH; [|apply Hk]. by apply subseteq_snoc.
Qed.

Ltac walk_prepared :=
  repeat (cbn [bind call load prepared event_of];
          match goal with
          | |- _ /\ _ => split
          | |- forall _, _ => intro
          | |- True => exact I
          | |- _ ∈ _ => apply elem_of_app; right; by left
          | |- context [match ?x with _ => _ end] => destruct x
          end).

Lemma goroutine_prepared i seen p : goroutine p -> prepared i seen p.
Proof.
  destruct 1.
  - unfold handleTerminalSession. walk_prepared.
  - unfold WaitForTerminal, launchShell, tryShells, startProcess, Close. walk_prepared.
  - unfold Read. walk_prepared.
  - unfold Write. walk_prepared.
  - unfold Next. walk_prepared.
  - unfold Toast. walk_prepared.
  - unfold Close. walk_prepared.
Qed.

Lemma streams_prepared_snoc tr i ev :
  streams_prepared tr ->
  match ev with
  | EvStream req _ _ => (i, EvNewExecutor req None) ∈ tr
  | _ => True
  end ->
  streams_prepared (tr ++ [(i, ev)]).
Proof.
  intros Htr Hev n j req pty err Hn.
  destruct (decide (n < length tr)%nat) as [Hlt|Hge].
  - rewrite lookup_app_l in Hn by done. rewrite take_app_le by lia. by eapply Htr.
  - rewrite lookup_app_r in Hn by lia.
    destruct (n - length tr)%nat as [|d] eqn:Hd; [|by destruct d].
    injection Hn as -> ->. rewrite take_app_ge by lia.
    apply elem_of_app. by left.
Qed.

Lemma stepped_all_prepared s s' : stepped s s' -> all_prepared s -> all_prepared s'.
Proof.
  intros Hst [Hpool Htr].
  assert (Hgrow : forall l i t, thread_prepared i (trace s) t ->
                                thread_prepared i (trace s ++ l) t).
  { intros l i [p|msg] Ht; [|done]. simpl. eapply prepared_mono; [|done].
    apply subseteq_app. }
  destruct Hst as [i X e k x w' Hi Hp ->|i X e k msg Hi Hp ->
                  |i j c x ki kj ch Hij Hi Hj Hch Hcl Hb ->
                  |i j c x ki kj ch Hij Hi Hj Hch Hcl Hb ->]; unfold all_prepared;
    cbn [world pool trace].
  - pose proof (Hpool i _ Hi) as [He Hk]. split.
    + intros j t Hj. apply list_lookup_insert_Some in Hj as [(<- & <- & Hlen)|[Hne Hj]].
      * apply Hk.
      * apply Hgrow. by apply Hpool.
    + apply streams_prepared_snoc; [done|]. by destruct e.
  - split; [|done].
    intros j t Hj. apply list_lookup_insert_Some in Hj as [(<- & <- & Hlen)|[Hne Hj]];
      [done|by apply Hpool].
  - pose proof (Hpool i _ Hi) as [_ Hki]. pose proof (Hpool j _ Hj) as [_ Hkj]. split.
    + intros l t Hl. apply list_lookup_insert_Some in Hl as [(<- & <- & Hlen)|[Hne Hl]].
      { simpl. eapply prepared_mono; [|apply (Hkj x)]. apply subseteq_pair. }
      apply list_lookup_insert_Some in Hl as [(<- & <- & Hlen)|[Hne' Hl]].
      { simpl. eapply prepared_mono; [|apply (Hki tt)]. apply subseteq_pair. }
      apply Hgrow. by apply Hpool.
    + change [(i, EvBoundSend (Some c) x); (j, EvBoundRecv (Some c) x)]
        with ([(i, EvBoundSend (Some c) x)] ++ [(j, EvBoundRecv (Some c) x)])%list.
      rewrite app_assoc. by repeat apply streams_prepared_snoc.
  - pose proof (Hpool i _ Hi) as [_ Hki]. pose proof (Hpool j _ Hj) as [_ Hkj]. split.
    + intros l t Hl. apply list_lookup_insert_Some in Hl as [(<- & <- & Hlen)|[Hne Hl]].
      { simpl. eapply prepared_mono; [|apply (Hkj x)]. apply subseteq_pair. }
      apply list_lookup_insert_Some in Hl as [(<- & <- & Hlen)|[Hne' Hl]].
      { simpl. eapply prepared_mono; [|apply (Hki tt)]. apply subseteq_pair. }
      apply Hgrow. by apply Hpool.
    + change [(i, EvSizeSend (Some c) x); (j, EvSizeRecv (Some c) x)]
        with ([(i, EvSizeSend (Some c) x)] ++ [(j, EvSizeRecv (Some c) x)])%list.
      rewrite app_assoc. by repeat apply streams_prepared_snoc.
Qed.

(** X16.  In every run, a goroutine that starts a stream for a request
    has before that created an executor for the same request, without
    error: [startProcess] never streams after a failed creation. *)
Theorem stream_follows_executor w ps cs s n i req pty err :
  Forall goroutine ps ->
  run cs (start w ps) = Some s ->
  trace s !! n = Some (i, EvStream req pty err) ->
  (i, EvNewExecutor req None) ∈ take n (trace s).
Proof.
  intros Hps Hrun.
  assert (Hinv : all_prepared s).
  { apply (run_invariant _ stepped_all_prepared cs _ _ Hrun). split.
    - intros j t Hj. unfold start in Hj. cbn [pool] in Hj.
      apply list_lookup_fmap_Some in Hj as (p & -> & Hp).
      apply goroutine_prepared. by eapply (Forall_lookup_1 _ _ _ _ Hps).
    - intros m j r q e Hm. unfold start in Hm. cbn [trace] in Hm. by destruct m. }
  apply Hinv.
Qed.

(** *** The launcher waits for a bind *)

Lemma signalled_mono m seen seen' b :
  seen ⊆ seen' -> signalled m seen b -> signalled m seen' b.
Proof.
  intros Hsub (key & t & c & Hk & Hb & Hr). exists key, t, c.
  split; [done|]. split; [done|]. by eapply bind_received_mono.
Qed.

Lemma released_mono sessionId : monotone (released sessionId).
Proof. intros seen seen' Hsub [c Hc]. exists c. by eapply bind_received_mono. Qed.

Lemma goal_of_mono sessionId i : monotone (goal_of sessionId i).
Proof.
  unfold goal_of. destruct (decide (i = 0%nat)); [apply released_mono|done].
Qed.

Lemma guarded_mono m Q p seen seen' :
  monotone Q -> seen ⊆ seen' -> guarded m Q seen p -> guarded m Q seen' p.
Proof.
  intros HQ Hsub. destruct p as [r|X e k]; [done|].
  cbn [guarded]. intros [He Hk]. split.
  - destruct e as [| | |[b|] v| |[b|]| | | | | |req|req pty|]; try done;
      try (by eapply signalled_mono); by eapply HQ.
  - intros x seen'' Hsub'. apply Hk. etrans; [|done]. by apply subseteq_snoc.
Qed.

Lemma thread_guarded_mono m Q t seen seen' :
  monotone Q -> seen ⊆ seen' -> thread_guarded m Q seen t -> thread_guarded m Q seen' t.
Proof. destruct t; [apply guarded_mono|done]. Qed.

Lemma subseteq_app_trans {A : Type} (l l' k : list A) : l ⊆ l' -> l ⊆ (l' ++ k)%list.
Proof. intros H y Hy. apply elem_of_app. left. by apply H. Qed.

Lemma snoc_subseteq {A : Type} (l l' : list A) (a : A) :
  (l ++ [a])%list ⊆ l' -> l ⊆ l' /\ a ∈ l'.
Proof.
  intros H. split.
  - intros y Hy. apply H, elem_of_app. by left.
  - apply H, elem_of_app. right. by left.
Qed.

(** The binder. *)
Lemma handleTerminalSession_guarded m Q seen session :
  guarded m Q seen (handleTerminalSession session).
Proof.
  unfold handleTerminalSession. cbn [bind call guarded]. split; [done|].
  intros [buf [e|]] seen1 Hs1 _; cbn [bind call guarded event_of fst snd] in *.
  { split; [done|]. by intros. }
  destruct (json.Unmarshal buf zeroMessage) as [msg [e|]] eqn:Hd.
  { cbn [call guarded]. split; [done|]. by intros. }
  destruct (decide (Op msg <> "bind")) as [Hop|Hop].
  { cbn [call guarded]. split; [done|]. by intros. }
  cbn [bind call guarded]. split; [done|].
  intros [t|] seen2 Hs2 Hr; cbn [bind call guarded event_of bound] in *.
  2:{ split; [done|]. by intros. }
  inversion Hr as [t0 t' (Hid & Hb & Hz) Hm0 Ht'|]; subst t'.
  assert (Hrecv : bind_received seen2 session (SessionID msg)).
  { exists buf, msg. split.
    - apply snoc_subseteq in Hs2 as [Hs2 _]. apply Hs2.
      by apply snoc_subseteq in Hs1 as [_ Hs1].
    - split; [done|]. split; [|done]. by destruct (decide (Op msg = "bind")). }
  split.
  - destruct (bound t) as [b|] eqn:Hbt; [|done].
    exists (SessionID msg), t0, session. by repeat split.
  - intros [] seen3 Hs3 Hx. split; [done|]. by intros.
Qed.

Lemma off_bound_guarded m Q (p : prog unit) : monotone Q -> off_bound p ->
  forall seen, Q seen -> guarded m Q seen p.
Proof.
  intros HQ. induction p as [r|X e k IH]; [done|].
  cbn [off_bound guarded]. intros [He Hk] seen Hseen. split.
  - by destruct e.
  - intros x seen' Hsub _. apply IH; [done|].
    eapply HQ; [|done]. by apply snoc_subseteq in Hsub as [Hsub _].
Qed.

Ltac walk_off_bound :=
  repeat (cbn [bind call load off_bound];
          match goal with
          | |- _ /\ _ => split
          | |- forall _, _ => intro
          | |- True => exact I
          | |- context [match ?x with _ => _ end] => destruct x
          end).

Lemma launcher_off_bound request sessionId shell :
  off_bound (err <- launchShell request sessionId shell ;;
             match err with
             | Some e => t <- load sessionId ;; Close t 2 (Error e)
             | None => t <- load sessionId ;; Close t 1 "Process exited"
             end).
Proof. unfold launchShell, tryShells, startProcess, Close. walk_off_bound. Qed.

Lemma WaitForTerminal_guarded m Q seen request sessionId :
  monotone Q ->
  (forall seen' b t0, m !! sessionId = Some t0 -> bound t0 = Some b ->
                      signalled m seen' b -> Q seen') ->
  guarded m Q seen (WaitForTerminal request sessionId).
Proof.
  intros HQ Hrel. unfold WaitForTerminal, load. cbn [bind call guarded]. split; [done|].
  intros r seen1 Hs1 Hr. cbn [event_of] in Hr. split; [done|].
  intros v seen2 Hs2 Hx.
  destruct r as [t1|]; [|done].
  inversion Hr as [t0 t' (Hid & Hb & Hz) Hm0 Ht'|]; subst t'.
  cbn [from_option Datatypes.id event_of] in *.
  destruct (bound t1) as [b|] eqn:Hb1; [|done].
  assert (HQ2 : Q seen2) by (apply (Hrel seen2 b t0); [by symmetry|congruence|done]).
  cbn [bind call guarded]. split; [done|].
  intros r2 seen3 Hs3 Hr2. cbn [event_of] in Hr2.
  rewrite <- Hm0 in Hr2.
  inversion Hr2 as [t0' t2 (Hid2 & Hb2 & Hz2) Ht0' Ht2|]; subst t0' r2.
  cbn [from_option Datatypes.id]. rewrite <- Hb2, Hb.
  apply snoc_subseteq in Hs3 as [Hs3 _].
  split; [by eapply signalled_mono|].
  intros [] seen4 Hs4 _. apply snoc_subseteq in Hs4 as [Hs4 _].
  apply off_bound_guarded; [done|apply launcher_off_bound|].
  eapply HQ; [|done]. by etrans.
Qed.

Lemma goroutine_guarded m seen p : goroutine p -> guarded m (fun _ => True) seen p.
Proof.
  destruct 1.
  - apply handleTerminalSession_guarded.
  - by apply WaitForTerminal_guarded.
  - apply off_bound_guarded; [done| |done]. unfold Read. walk_off_bound.
  - apply off_bound_guarded; [done| |done]. unfold Write. walk_off_bound.
  - apply off_bound_guarded; [done| |done]. unfold Next. walk_off_bound.
  - apply off_bound_guarded; [done| |done]. unfold Toast. walk_off_bound.
  - apply off_bound_guarded; [done| |done]. unfold Close. walk_off_bound.
Qed.

Lemma perform_boundChans {X : Type} (e : effect X) w x w' :
  perform e w = Value x w' ->
  match e with
  | BoundSend _ _ | BoundRecv _ | BoundClose _ => True
  | _ => boundChans w' = boundChans w
  end.
Proof.
  intros Hp. destruct e; try exact I; simpl in Hp; repeat case_match; simplify_eq; done.
Qed.

Lemma perform_ready {X : Type} (e : effect X) w x w' b ch' :
  perform e w = Value x w' ->
  boundChans w' !! b = Some ch' -> ready ch' ->
  (exists ch, boundChans w !! b = Some ch /\ ready ch) \/
  match e with
  | BoundSend (Some b') _ | BoundClose (Some b') => b' = b
  | _ => False
  end.
Proof.
  intros Hp Hch' Hr. pose proof (perform_boundChans e w x w' Hp) as Hsame.
  destruct e as [| | |c v|c|c| | | | | | | |];
    try (rewrite Hsame in Hch'; left; by exists ch').
  - destruct c as [c|]; [|done]. destruct (decide (c = b)) as [->|Hne]; [by right|].
    left. exists ch'. split; [|done]. simpl in Hp.
    destruct (boundChans w !! c) as [ch|]; [|done]. simpl in Hp.
    destruct (chan_send ch v) as [[ch1|]|]; try done. simplify_eq.
    cbn [boundChans set_bound] in Hch'. by rewrite lookup_insert_ne in Hch'.
  - destruct c as [c|]; [|done]. simpl in Hp.
    destruct (boundChans w !! c) as [ch|] eqn:Hch; [|done]. simpl in Hp.
    unfold chan_recv in Hp. left.
    destruct (decide (c = b)) as [->|Hne].
    + exists ch. split; [done|].
      destruct (buf ch) as [|y rest] eqn:Hb.
      * destruct (closed ch) eqn:Hc; [by left|done].
      * right. by rewrite Hb.
    + exists ch'. split; [|done].
      destruct (buf ch) as [|y rest]; [destruct (closed ch); [|done]|];
        simplify_eq; cbn [boundChans set_bound] in Hch';
        by rewrite lookup_insert_ne in Hch'.
  - destruct c as [c|]; [|done]. destruct (decide (c = b)) as [->|Hne]; [by right|].
    left. exists ch'. split; [|done]. simpl in Hp.
    destruct (boundChans w !! c) as [ch|]; [|done].
    destruct (closed ch); [done|]. simplify_eq.
    cbn [boundChans set_bound] in Hch'. by rewrite lookup_insert_ne in Hch'.
Qed.

Lemma perform_BoundRecv_ready c w x w' :
  perform (BoundRecv (Some c)) w = Value x w' ->
  exists ch, boundChans w !! c = Some ch /\ ready ch.
Proof.
  simpl. destruct (boundChans w !! c) as [ch|] eqn:Hch; [|done]. simpl.
  unfold chan_recv. intros H. exists ch. split; [done|].
  destruct (buf ch) eqn:Hb.
  - destruct (closed ch) eqn:Hc; [by left|done].
  - right. by rewrite Hb.
Qed.

Lemma perform_blocks_nil {X : Type} (e : effect X) w x w' :
  perform e w = Value x w' ->
  match event_of e x with
  | EvBoundRecv None _ | EvBoundSend None _ => False
  | _ => True
  end.
Proof. intros Hp. by destruct e as [| | |[c|] v|[c|]| | | | | | | | |]. Qed.

Lemma stepped_launch_guard m sessionId s s' :
  stepped s s' -> launch_guard m sessionId s -> launch_guard m sessionId s'.
Proof.
  intros Hst (Hstable & Hchan & Hpool & Hlaunch).
  split; [by eapply stepped_stable|].
  assert (Hgrow : forall l i t,
             thread_guarded m (goal_of sessionId i) (trace s).*2 t ->
             thread_guarded m (goal_of sessionId i) ((trace s ++ l)%list.*2) t).
  { intros l i t. apply thread_guarded_mono; [apply goal_of_mono|].
    rewrite fmap_app. apply subseteq_app. }
  assert (Hsig : forall l b, signalled m (trace s).*2 b ->
                             signalled m ((trace s ++ l)%list.*2) b).
  { intros l b. apply signalled_mono. rewrite fmap_app. apply subseteq_app. }
  assert (Hrel : forall l, released sessionId (trace s).*2 ->
                           released sessionId ((trace s ++ l)%list.*2)).
  { intros l. apply released_mono. rewrite fmap_app. apply subseteq_app. }
  destruct Hst as [i X e k x w' Hi Hp ->|i X e k msg Hi Hp ->
                  |i j c x ki kj ch Hij Hi Hj Hch Hcl Hb ->
                  |i j c x ki kj ch Hij Hi Hj Hch Hcl Hb ->]; cbn [world pool trace].
  - pose proof (Hpool i _ Hi) as [He Hk]. split; [|split].
    + intros b ch' Hch' Hr.
      destruct (perform_ready e _ _ _ b ch' Hp Hch' Hr) as [(ch & Hch & Hrd)|Hb].
      * apply Hsig. by eapply Hchan.
      * apply Hsig. destruct e as [| | |[b'|] v| |[b'|]| | | | | | | |]; try done;
          by subst b'.
    + intros j t Hj. apply list_lookup_insert_Some in Hj as [(<- & <- & Hlen)|[Hne Hj]].
      * cbn [thread_guarded]. apply Hk.
        { rewrite fmap_app. done. }
        pose proof (perform_blocks_nil e _ _ _ Hp) as Hnil.
        destruct e as [key'| | |[b'|] v|[b'|]| | | | | | | | |]; try done.
        -- simpl. simpl in Hp. injection Hp as <- <-. apply Hstable.
        -- simpl. apply Hsig.
           destruct (perform_BoundRecv_ready _ _ _ _ Hp) as (ch & Hch & Hrd).
           by eapply Hchan.
      * apply Hgrow. by apply Hpool.
    + intros ev [Hev|Hev]%elem_of_app Hl.
      * apply Hrel. by eapply Hlaunch.
      * apply list_elem_of_singleton in Hev. injection Hev as <- ->.
        apply Hrel. unfold goal_of in He. rewrite decide_True in He by done.
        destruct e; done.
  - split; [done|]. split; [|done].
    intros j t Hj. apply list_lookup_insert_Some in Hj as [(<- & <- & Hlen)|[Hne Hj]];
      [done|by apply Hpool].
  - pose proof (Hpool i _ Hi) as [Hei Hki]. pose proof (Hpool j _ Hj) as [_ Hkj].
    cbn [event_of] in Hki, Hkj.
    split; [|split].
    + intros b ch' Hch' Hr. apply Hsig. by eapply Hchan.
    + intros l t Hl. apply list_lookup_insert_Some in Hl as [(<- & <- & Hlen)|[Hne Hl]].
      { cbn [thread_guarded]. apply Hkj; [rewrite fmap_app; apply subseteq_pair|].
        by apply Hsig. }
      apply list_lookup_insert_Some in Hl as [(<- & <- & Hlen)|[Hne' Hl]].
      { cbn [thread_guarded]. apply (Hki tt); [rewrite fmap_app; apply subseteq_pair|done]. }
      apply Hgrow. by apply Hpool.
    + intros ev [Hev|Hev]%elem_of_app Hl.
      * apply Hrel. by eapply Hlaunch.
      * apply elem_of_cons in Hev as [[= _ ->]|Hev]; [done|].
        apply list_elem_of_singleton in Hev. by injection Hev as _ ->.
  - pose proof (Hpool i _ Hi) as [Hei Hki]. pose proof (Hpool j _ Hj) as [_ Hkj].
    cbn [event_of] in Hki, Hkj.
    split; [|split].
    + intros b ch' Hch' Hr. apply Hsig. by eapply Hchan.
    + intros l t Hl. apply list_lookup_insert_Some in Hl as [(<- & <- & Hlen)|[Hne Hl]].
      { cbn [thread_guarded]. apply Hkj; [rewrite fmap_app; apply subseteq_pair|done]. }
      apply list_lookup_insert_Some in Hl as [(<- & <- & Hlen)|[Hne' Hl]].
      { cbn [thread_guarded]. apply (Hki tt); [rewrite fmap_app; apply subseteq_pair|done]. }
      apply Hgrow. by apply Hpool.
    + intros ev [Hev|Hev]%elem_of_app Hl.
      * apply Hrel. by eapply Hlaunch.
      * apply elem_of_cons in Hev as [[= _ ->]|Hev]; [done|].
        apply list_elem_of_singleton in Hev. by injection Hev as _ ->.
Qed.

(** X14.  With bound channels that start open and empty, and a session
    that shares its bound channel with no other, the coordinator of the
    session creates an executor or starts a stream only after some
    connection has delivered a bind message for the session's id,
    whatever the other goroutines do. *)
Theorem launch_only_after_bind w request sessionId ps cs s ev :
  (forall b ch, boundChans w !! b = Some ch -> closed ch = false /\ buf ch = []) ->
  (forall key t t',
     terminalSessions w !! sessionId = Some t -> terminalSessions w !! key = Some t' ->
     bound t' = bound t -> is_Some (bound t) -> key = sessionId) ->
  Forall goroutine ps ->
  run cs (start w (WaitForTerminal request sessionId :: ps)) = Some s ->
  (0%nat, ev) ∈ trace s -> launching ev ->
  exists c, bind_received (trace s).*2 c sessionId.
Proof.
  intros Hfresh Hown Hps Hrun Hev Hl.
  assert (Hinv : launch_guard (terminalSessions w) sessionId s).
  { apply (run_invariant _ (stepped_launch_guard (terminalSessions w) sessionId) cs _ _ Hrun).
    split; [|split; [|split]].
    - apply stable_start. constructor; [constructor|done].
    - intros b ch Hch [Hc|Hb]; destruct (Hfresh b ch Hch) as [Hc' Hb']; congruence.
    - intros i t Hi. unfold start in Hi. cbn [pool fmap list_fmap] in Hi.
      destruct i as [|i]; cbn [lookup list_lookup] in Hi.
      + injection Hi as <-. cbn [thread_guarded]. apply WaitForTerminal_guarded.
        { apply goal_of_mono. }
        intros seen' b t0 Ht0 Hb (key & t & c & Hk & Hbt & Hr).
        exists c. assert (key = sessionId) as <-; [|done].
        apply (Hown key t0 t); [done|done|congruence|by rewrite Hb].
      + apply list_lookup_fmap_Some in Hi as (p & -> & Hp).
        cbn [thread_guarded]. unfold goal_of. rewrite decide_False by done.
        apply goroutine_guarded. by eapply (Forall_lookup_1 _ _ _ _ Hps).
    - intros ev' Hev'. by apply elem_of_nil in Hev'. }
  destruct Hinv as (_ & _ & _ & Hlaunch). by eapply Hlaunch.
Qed.

(** *** The properties at work on the example *)

Lemma genTerminalSessionId_injective_witness :
  length (replicate 16 Byte.xff) = 16%nat /\
  genTerminalSessionId (replicate 16 Byte.xff, None)
  = Some ("ffffffffffffffffffffffffffffffff", None) /\
  replicate 16 Byte.xff = replicate 16 Byte.xff.
Proof.
  split; [reflexivity|]. split; [vm_compute; reflexivity|].
  exact (genTerminalSessionId_injective (replicate 16 Byte.xff) (replicate 16 Byte.xff)
           eq_refl eq_refl eq_refl).
Defined.

Lemma Read_within_buffer_witness :
  returns (Read session0 buffer4) [EvRecv (Some 7%nat) stdin_hello None]
    (take 4 (list_byte_of_string "hello world"), (4%nat, None)) /\
  length (take 4 (list_byte_of_string "hello world")) = length buffer4 /\
  (4 <= length buffer4)%nat.
Proof.
  assert (H : Unmarshal stdin_hello zeroMessage
              = (mkTerminalMessage "stdin" "hello world" "" 0 0, None))
    by (vm_compute; reflexivity).
  assert (Hr : returns (Read session0 buffer4) [EvRecv (Some 7%nat) stdin_hello None]
                 (take 4 (list_byte_of_string "hello world"), (4%nat, None))).
  { apply (Read_returns session0 buffer4 7%nat 1%nat eq_refl eq_refl).
    exists stdin_hello, None, []. split; [done|].
    exact (Read_stdin session0 buffer4 stdin_hello _ H eq_refl). }
  split; [exact Hr|].
  pose proof (Read_within_buffer session0 buffer4 _ _ _ _ Hr) as (H1 & H2 & _).
  exact (conj H1 H2).
Defined.

Lemma Write_frame_witness :
  sockJSSession session0 = Some 7%nat /\
  sockets world1 !! 7%nat = Some (mkSocket [(stdin_hello, None)] [] None) /\
  exists frame data,
    exec (Write session0 (list_byte_of_string "ok")) world1
    = ([EvSend (Some 7%nat) frame None],
       Value (length (list_byte_of_string "ok"), None)
         (set_socket world1 7%nat (mkSocket [(stdin_hello, None)] [frame] None))) /\
    Unmarshal frame zeroMessage = (mkTerminalMessage "stdout" data "" 0 0, None) /\
    valid_utf8 data = true /\
    (valid_utf8 (string_of_list_byte (list_byte_of_string "ok")) = true ->
     data = string_of_list_byte (list_byte_of_string "ok")).
Proof.
  assert (H : sockets world1 !! 7%nat = Some (mkSocket [(stdin_hello, None)] [] None))
    by (vm_compute; reflexivity).
  split; [reflexivity|]. split; [exact H|].
  exact (Write_frame world1 session0 (list_byte_of_string "ok") 7%nat _ eq_refl H eq_refl).
Defined.

Lemma Toast_frame_witness :
  sockJSSession session0 = Some 7%nat /\
  sockets world1 !! 7%nat = Some (mkSocket [(stdin_hello, None)] [] None) /\
  exists frame data,
    exec (Toast session0 "bye") world1
    = ([EvSend (Some 7%nat) frame None],
       Value None (set_socket world1 7%nat (mkSocket [(stdin_hello, None)] [frame] None))) /\
    Unmarshal frame zeroMessage = (mkTerminalMessage "toast" data "" 0 0, None) /\
    valid_utf8 data = true /\
    (valid_utf8 "bye" = true -> data = "bye").
Proof.
  assert (H : sockets world1 !! 7%nat = Some (mkSocket [(stdin_hello, None)] [] None))
    by (vm_compute; reflexivity).
  split; [reflexivity|]. split; [exact H|].
  exact (Toast_frame world1 session0 "bye" 7%nat _ eq_refl H eq_refl).
Defined.

Lemma Close_is_final_witness :
  sockJSSession session0 = Some 7%nat /\
  sockets world1 !! 7%nat = Some (mkSocket [(stdin_hello, None)] [] None) /\
  (exec (Write session0 (list_byte_of_string "ok"))
     (set_socket world1 7%nat
        (mkSocket [(stdin_hello, None)] [] (Some (1, "Process exited"))))).2
  = Value (0%nat, Some ErrSessionNotOpen)
      (set_socket world1 7%nat
         (mkSocket [(stdin_hello, None)] [] (Some (1, "Process exited")))).
Proof.
  assert (H : sockets world1 !! 7%nat = Some (mkSocket [(stdin_hello, None)] [] None))
    by (vm_compute; reflexivity).
  split; [reflexivity|]. split; [exact H|].
  exact (proj1 (proj2 (Close_is_final world1 session0 7%nat _ 1 "Process exited"
                         (list_byte_of_string "ok") "bye" 2 "again" eq_refl H eq_refl))).
Defined.

Lemma unbound_session_panics_witness :
  sockJSSession (newSession "abc123" 0%nat 1%nat) = None /\
  exec (Close (newSession "abc123" 0%nat 1%nat) 1 "Process exited") world0
  = ([], Panic nil_dereference).
Proof.
  split; [reflexivity|].
  exact (proj2 (proj2 (proj2 (unbound_session_panics world0 (newSession "abc123" 0%nat 1%nat)
                                [] "" 1 "Process exited" eq_refl)))).
Defined.

Lemma handshake_attaches_witness :
  terminalSessions world0 !! "abc123" = Some (newSession "abc123" 0%nat 1%nat) /\
  boundChans world0 !! 0%nat = Some (mkChannel 0 [] false) /\
  sockets world0 !! 7%nat = Some (mkSocket [(bind_abc123, None)] [] None) /\
  Unmarshal bind_abc123 zeroMessage = (mkTerminalMessage "bind" "" "abc123" 0 0, None) /\
  (fun s => terminalSessions (world s) !! "abc123")
    <$> run (handshake ++ [Solo 1%nat])
          (start world0 [WaitForTerminal request0 "abc123"; handleTerminalSession 7%nat])
  = Some (Some session0).
Proof.
  assert (H1 : terminalSessions world0 !! "abc123" = Some (newSession "abc123" 0%nat 1%nat))
    by (vm_compute; reflexivity).
  assert (H2 : boundChans world0 !! 0%nat = Some (mkChannel 0 [] false))
    by (vm_compute; reflexivity).
  assert (H3 : sockets world0 !! 7%nat = Some (mkSocket [(bind_abc123, None)] [] None))
    by (vm_compute; reflexivity).
  assert (H4 : Unmarshal bind_abc123 zeroMessage
               = (mkTerminalMessage "bind" "" "abc123" 0 0, None))
    by (vm_compute; reflexivity).
  split; [exact H1|]. split; [exact H2|]. split; [exact H3|]. split; [exact H4|].
  pose proof (handshake_attaches world0 request0 "abc123" 7%nat _ 0%nat _ _ bind_abc123
                [] _ H1 eq_refl H2 eq_refl eq_refl H3 eq_refl H4 eq_refl eq_refl) as H.
  destruct (run (handshake ++ [Solo 1%nat])
              (start world0 [WaitForTerminal request0 "abc123";
                             handleTerminalSession 7%nat])) as [s|]; [|discriminate H].
  cbn [fmap option_fmap option_map] in *. injection H as H _ _. by rewrite H.
Defined.

Lemma binders_are_goroutines :
  Forall goroutine [handleTerminalSession 7%nat; handleTerminalSession 8%nat].
Proof. repeat constructor. Qed.

Lemma system0_goroutines :
  Forall goroutine [WaitForTerminal request0 "abc123";
                    handleTerminalSession 7%nat; handleTerminalSession 8%nat].
Proof. repeat constructor. Qed.

Lemma registry_entries_stable_witness :
  Forall goroutine [WaitForTerminal request0 "abc123";
                    handleTerminalSession 7%nat; handleTerminalSession 8%nat] /\
  from_option
    (fun s => option_Forall2 same_session (terminalSessions world0 !! "abc123")
                (terminalSessions (world s) !! "abc123"))
    False (run lifecycle system0).
Proof.
  split; [exact system0_goroutines|].
  destruct (run lifecycle system0) as [s|] eqn:Hrun.
  - exact (registry_entries_stable world0 _ lifecycle s "abc123" system0_goroutines Hrun).
  - pose proof lifecycle_runs as [s Hs]. rewrite Hrun in Hs. discriminate Hs.
Defined.

Lemma unregistered_runs :
  is_Some (run [Solo 0%nat; Solo 1%nat]
             (start world0 [WaitForTerminal request0 "nosuch"; handleTerminalSession 7%nat])).
Proof. apply (bool_decide_unpack _). vm_compute. exact I. Qed.

Lemma unregistered_session_never_starts_witness :
  terminalSessions world0 !! "nosuch" = None /\
  Forall goroutine [handleTerminalSession 7%nat] /\
  from_option
    (fun s => terminalSessions (world s) !! "nosuch" = None /\
              (events_of 0 (Some s) = [] \/ events_of 0 (Some s) = [EvLoad "nosuch" None]))
    False
    (run [Solo 0%nat; Solo 1%nat]
       (start world0 [WaitForTerminal request0 "nosuch"; handleTerminalSession 7%nat])).
Proof.
  assert (H1 : terminalSessions world0 !! "nosuch" = None) by (vm_compute; reflexivity).
  assert (H2 : Forall goroutine [handleTerminalSession 7%nat]) by (repeat constructor).
  split; [exact H1|]. split; [exact H2|].
  destruct (run [Solo 0%nat; Solo 1%nat]
              (start world0 [WaitForTerminal request0 "nosuch";
                             handleTerminalSession 7%nat])) as [s|] eqn:Hrun.
  - exact (unregistered_session_never_starts world0 request0 "nosuch" _ _ s H1 H2 Hrun).
  - pose proof unregistered_runs as [s Hs]. rewrite Hrun in Hs. discriminate Hs.
Defined.

Lemma lifecycle_registry :
  (fun s => terminalSessions (world s) !! "abc123") <$> run lifecycle system0
  = Some (Some session0).
Proof. vm_compute. reflexivity. Qed.

Lemma attached_only_by_bind_witness :
  Forall goroutine [WaitForTerminal request0 "abc123";
                    handleTerminalSession 7%nat; handleTerminalSession 8%nat] /\
  sockJSSession session0 = Some 7%nat /\
  from_option
    (fun s => terminalSessions (world s) !! "abc123" = Some session0 /\
              ((exists t0, terminalSessions world0 !! "abc123" = Some t0 /\
                           sockJSSession t0 = Some 7%nat) \/
               bind_received (trace s).*2 7%nat "abc123"))
    False (run lifecycle system0).
Proof.
  split; [exact system0_goroutines|]. split; [reflexivity|].
  pose proof lifecycle_registry as Hreg.
  destruct (run lifecycle system0) as [s|] eqn:Hrun; [|discriminate Hreg].
  cbn [fmap option_fmap option_map from_option] in *. injection Hreg as Hreg.
  split; [exact Hreg|].
  exact (attached_only_by_bind world0 _ lifecycle s "abc123" session0 7%nat
           system0_goroutines Hrun Hreg eq_refl).
Defined.

Lemma only_allowed_shells_witness :
  Forall goroutine [WaitForTerminal request0 "abc123";
                    handleTerminalSession 7%nat; handleTerminalSession 8%nat] /\
  from_option (fun s => Forall (fun ev => allowed_exec ev.2) (trace s))
    False (run lifecycle system0).
Proof.
  split; [exact system0_goroutines|].
  destruct (run lifecycle system0) as [s|] eqn:Hrun.
  - exact (only_allowed_shells world0 _ lifecycle s system0_goroutines Hrun).
  - pose proof lifecycle_runs as [s Hs]. rewrite Hrun in Hs. discriminate Hs.
Defined.

Lemma lifecycle_launches :
  (fun s => trace s !! 9%nat) <$> run lifecycle system0
  = Some (Some (0%nat, EvNewExecutor (execRequest request0 ["bash"]) None)).
Proof. vm_compute. reflexivity. Qed.

Lemma world0_fresh b ch :
  boundChans world0 !! b = Some ch -> closed ch = false /\ buf ch = [].
Proof.
  unfold world0, registered. cbn [boundChans]. by intros [_ <-]%lookup_singleton_Some.
Qed.

Lemma world0_own_channel key t t' :
  terminalSessions world0 !! "abc123" = Some t ->
  terminalSessions world0 !! key = Some t' ->
  bound t' = bound t -> is_Some (bound t) -> key = "abc123".
Proof.
  unfold world0, registered. cbn [terminalSessions].
  by intros _ [<- _]%lookup_singleton_Some.
Qed.

Lemma launch_only_after_bind_witness :
  Forall goroutine [handleTerminalSession 7%nat; handleTerminalSession 8%nat] /\
  launching (EvNewExecutor (execRequest request0 ["bash"]) None) /\
  from_option
    (fun s => trace s !! 9%nat
              = Some (0%nat, EvNewExecutor (execRequest request0 ["bash"]) None) /\
              exists c, bind_received (trace s).*2 c "abc123")
    False (run lifecycle system0).
Proof.
  split; [exact binders_are_goroutines|]. split; [exact I|].
  pose proof lifecycle_launches as Hl.
  destruct (run lifecycle system0) as [s|] eqn:Hrun; [|discriminate Hl].
  cbn [fmap option_fmap option_map from_option] in *. injection Hl as Hl.
  split; [exact Hl|].
  exact (launch_only_after_bind world0 request0 "abc123" _ lifecycle s _
           world0_fresh world0_own_channel binders_are_goroutines Hrun
           (list_elem_of_lookup_2 _ _ _ Hl) I).
Defined.

Lemma session_runs_to_close_witness :
  terminalSessions world0 !! "abc123" = Some (newSession "abc123" 0%nat 1%nat) /\
  boundChans world0 !! 0%nat = Some (mkChannel 0 [] false) /\
  sockets world0 !! 7%nat = Some (mkSocket [(bind_abc123, None)] [] None) /\
  Unmarshal bind_abc123 zeroMessage = (mkTerminalMessage "bind" "" "abc123" 0 0, None) /\
  exists n s,
    run (handshake ++ [Solo 1%nat] ++ replicate n (Solo 0%nat))
      (start world0 [WaitForTerminal request0 "abc123"; handleTerminalSession 7%nat])
    = Some s /\
    pool s = [Running (Ret tt); Running (Ret tt)] /\
    sockets (world s) !! 7%nat
    = Some (mkSocket [] [] (Some (close_of (launched world0 request0)))).
Proof.
  assert (H1 : terminalSessions world0 !! "abc123" = Some (newSession "abc123" 0%nat 1%nat))
    by (vm_compute; reflexivity).
  assert (H2 : boundChans world0 !! 0%nat = Some (mkChannel 0 [] false))
    by (vm_compute; reflexivity).
  assert (H3 : sockets world0 !! 7%nat = Some (mkSocket [(bind_abc123, None)] [] None))
    by (vm_compute; reflexivity).
  assert (H4 : Unmarshal bind_abc123 zeroMessage
               = (mkTerminalMessage "bind" "" "abc123" 0 0, None))
    by (vm_compute; reflexivity).
  split; [exact H1|]. split; [exact H2|]. split; [exact H3|]. split; [exact H4|].
  destruct (session_runs_to_close world0 request0 "abc123" 7%nat _ 0%nat _ _ bind_abc123
              [] _ H1 eq_refl H2 eq_refl eq_refl H3 eq_refl eq_refl H4 eq_refl eq_refl)
    as (n & s & Hrun & Hpool & _ & _ & Hsock & _).
  exists n, s. split; [exact Hrun|]. split; [exact Hpool|exact Hsock].
Defined.

Lemma lifecycle_streams :
  (fun s => trace s !! 10%nat) <$> run lifecycle system0
  = Some (Some (0%nat, EvStream (execRequest request0 ["bash"]) session0
                         (Some (errorString "exec: bash not found")))).
Proof. vm_compute. reflexivity. Qed.

Lemma stream_follows_executor_witness :
  Forall goroutine [WaitForTerminal request0 "abc123";
                    handleTerminalSession 7%nat; handleTerminalSession 8%nat] /\
  from_option
    (fun s => trace s !! 10%nat
              = Some (0%nat, EvStream (execRequest request0 ["bash"]) session0
                               (Some (errorString "exec: bash not found"))) /\
              (0%nat, EvNewExecutor (execRequest request0 ["bash"]) None)
              ∈ take 10 (trace s))
    False (run lifecycle system0).
Proof.
  split; [exact system0_goroutines|].
  pose proof lifecycle_streams as Hl.
  destruct (run lifecycle system0) as [s|] eqn:Hrun; [|discriminate Hl].
  cbn [fmap option_fmap option_map from_option] in *. injection Hl as Hl.
  split; [exact Hl|].
  exact (stream_follows_executor world0 _ lifecycle s 10 0%nat _ _ _
           system0_goroutines Hrun Hl).
Defined.
